(** * design2align-scanner: outline construction and word clustering

    A shallow embedding of [vertical_keyworded_toc.py] (the outline model
    and the span resolver) and of [word_tools.py] (geometry primitives and
    the word-clustering engine), followed by the properties proved about
    them.

    Conventions.
    - Python numbers are modelled by exact rationals [Q]; numeric equality
      is [Qeq] (written [==]), never Leibniz equality on [Q].
    - A Python exception is a value of [exn]; code that may raise returns
      [result].
    - An object that is only reachable through its owner (a child of a
      list owned by a tree node, a line owned by its group) is modelled by
      its value inside the owner; a reference into an outline tree is the
      path of child indexes that leads to the node. *)

From Stdlib Require Import List Bool Arith ZArith QArith Qabs Lia Lqa.
From Stdlib Require String Ascii.
From Equations Require Import Equations.
Import ListNotations.
Import String.StringSyntax Ascii.AsciiSyntax.
Delimit Scope string_scope with string.
Delimit Scope char_scope with char.

Set Implicit Arguments.
Open Scope Z_scope.

(* ===================================================================== *)
(** * Part I. Definitions                                                 *)
(* ===================================================================== *)

(** ** Python prelude *)

Module Py.

Inductive exn : Type :=
| IndexError
| TypeError
| ValueError
| ZeroDivisionError
| RuntimeError.

Inductive result (A : Type) : Type :=
| Ok (a : A)
| Raise (e : exn).
Arguments Ok {A} a.
Arguments Raise {A} e.

Definition bind {A B} (r : result A) (k : A -> result B) : result B :=
  match r with
  | Ok a => k a
  | Raise e => Raise e
  end.

Definition fmap {A B} (f : A -> B) (r : result A) : result B :=
  bind r (fun a => Ok (f a)).

(** [a < b] and [a != b] on numbers. *)
Definition Qlt_bool (a b : Q) : bool :=
  match a ?= b with Lt => true | _ => false end%Q.

Definition Qneq_bool (a b : Q) : bool := negb (Qeq_bool a b).

(** [min(a, *rest)] and [max(a, *rest)]: the first extremal argument is
    the one returned. *)
Definition py_min (a : Q) (rest : list Q) : Q :=
  fold_left (fun m v => if Qlt_bool v m then v else m) rest a.

Definition py_max (a : Q) (rest : list Q) : Q :=
  fold_left (fun m v => if Qlt_bool m v then v else m) rest a.

(** [l[-1]] *)
Definition last_item {A} (l : list A) : result A :=
  match rev l with
  | a :: _ => Ok a
  | [] => Raise IndexError
  end.

(** Truth value of what [is_before] returns: [None] is falsy. *)
Definition truthy (v : option bool) : bool :=
  match v with
  | Some b => b
  | None => false
  end.

Definition inspect {A} (a : A) : {b : A | a = b} := exist _ a eq_refl.

End Py.

Import Py.

Declare Scope py_scope.
Delimit Scope py_scope with py.
Notation "x <- c ;; k" := (bind c (fun x => k))
  (at level 61, c at next level, right associativity) : py_scope.
Notation "' p <- c ;; k" := (bind c (fun p => k))
  (at level 61, p pattern, c at next level, right associativity) : py_scope.
Open Scope py_scope.

(** ** vertical_keyworded_toc.py: the outline model *)

Module Outline.

(** The four classes derived from [ContentsItem]. *)
Inductive cls : Type :=
| TableOfContents
| Part
| Chapter
| Section_.

Definition cls_eqb (a b : cls) : bool :=
  match a, b with
  | TableOfContents, TableOfContents => true
  | Part, Part => true
  | Chapter, Chapter => true
  | Section_, Section_ => true
  | _, _ => false
  end.

(** A coordinate dict [{'x': .., 'y': ..}] of an anchor detection. *)
Record Coordinate : Type := { x : Q; y : Q }.

(** A search result of the scanner: the four vertices of the anchor box
    with the page, block and paragraph indexes. *)
Record SearchResult : Type :=
  { sr_page : Z;
    sr_block : Z;
    sr_paragraph : Z;
    sr_bounds : Coordinate * Coordinate * Coordinate * Coordinate }.

(** [ContentsItem]: [title] and [description] stay [None] throughout the
    module and are left out. *)
#[local] Unset Elimination Schemes.

Inductive ContentsItem : Type :=
| Item (class_ : cls) (search_result : SearchResult)
       (number : option Z) (children : list ContentsItem).

#[local] Set Elimination Schemes.

Definition class_of (i : ContentsItem) : cls :=
  match i with Item c _ _ _ => c end.
Definition search_result (i : ContentsItem) : SearchResult :=
  match i with Item _ s _ _ => s end.
Definition number (i : ContentsItem) : option Z :=
  match i with Item _ _ n _ => n end.
Definition children (i : ContentsItem) : list ContentsItem :=
  match i with Item _ _ _ cs => cs end.

(** [ContentsItem(search_result)] of the given subclass. *)
Definition new (c : cls) (s : SearchResult) : ContentsItem :=
  Item c s None [].

Definition isinstance (i : ContentsItem) (c : cls) : bool :=
  cls_eqb (class_of i) c.

Definition page (i : ContentsItem) : Z := sr_page (search_result i).
Definition block (i : ContentsItem) : Z := sr_block (search_result i).
Definition paragraph (i : ContentsItem) : Z :=
  sr_paragraph (search_result i).

Definition ys (i : ContentsItem) : Q * list Q :=
  let '(a, b, c, d) := sr_bounds (search_result i) in
  (y a, [y b; y c; y d]).

Definition min_y (i : ContentsItem) : Q :=
  py_min (fst (ys i)) (snd (ys i)).
Definition max_y (i : ContentsItem) : Q :=
  py_max (fst (ys i)) (snd (ys i)).

(** [not content_item.number]: true for [None] and for [0]. *)
Definition not_number (n : option Z) : bool :=
  match n with
  | None => true
  | Some k => k =? 0
  end.

Definition set_number (i : ContentsItem) (n : option Z) : ContentsItem :=
  Item (class_of i) (search_result i) n (children i).

(** The child as [add] leaves it (the child object is mutated). *)
Definition numbered (self content_item : ContentsItem) : ContentsItem :=
  if not_number (number content_item)
  then set_number content_item
         (Some (Z.of_nat (length (children self)) + 1))
  else content_item.

Definition add (self content_item : ContentsItem) : ContentsItem :=
  Item (class_of self) (search_result self) (number self)
       (children self ++ [numbered self content_item]).

Definition is_before (self contents_item : ContentsItem) : option bool :=
  if negb (page self =? page contents_item)
  then Some (page self <? page contents_item)
  else if negb (block self =? block contents_item)
  then Some (block self <? block contents_item)
  else if negb (paragraph self =? paragraph contents_item)
  then Some (paragraph self <? paragraph contents_item)
  else if Qneq_bool (min_y self) (min_y contents_item)
  then Some (Qlt_bool (min_y self) (min_y contents_item))
  else None.

(** The ordering of the specification, in its words: [a] strictly
    precedes [b] on the first key on which they differ, the keys being
    page, block index, paragraph index and vertical top coordinate. *)
Definition precedes (a b : ContentsItem) : Prop :=
  page a < page b \/
  (page a = page b /\
   (block a < block b \/
    (block a = block b /\
     (paragraph a < paragraph b \/
      (paragraph a = paragraph b /\ (min_y a < min_y b)%Q))))).

(** The two anchors are equal on all four ordering keys. *)
Definition same_position (a b : ContentsItem) : Prop :=
  page a = page b /\ block a = block b /\ paragraph a = paragraph b /\
  (min_y a == min_y b)%Q.

(** The [for index, child in enumerate(self.children)] loop of
    [find_parent_for]: the index at which it breaks, if it does. *)
Fixpoint break_index (descendant_item : ContentsItem)
         (children : list ContentsItem) (index : nat) : option nat :=
  match children with
  | [] => None
  | child :: rest =>
      if truthy (is_before descendant_item child)
      then Some index
      else break_index descendant_item rest (S index)
  end.

(** The value of [parent] after the loop, with its index in
    [self.children]. *)
Definition parent_candidate (descendant_item : ContentsItem)
           (children : list ContentsItem) : option (nat * ContentsItem) :=
  match break_index descendant_item children 0 with
  | Some index =>
      if (0 <? index)%nat
      then option_map (pair (index - 1)%nat)
                      (nth_error children (index - 1))
      else None
  | None =>
      match children with
      | [] => None
      | _ :: _ =>
          option_map (pair (length children - 1)%nat)
                     (nth_error children (length children - 1))
      end
  end.

Fixpoint size (i : ContentsItem) : nat :=
  match i with
  | Item _ _ _ cs => S (list_sum (map size cs))
  end.

Lemma size_nth_error (cs : list ContentsItem) (n : nat) (c : ContentsItem) :
  nth_error cs n = Some c -> (size c <= list_sum (map size cs))%nat.
Proof.
  revert n; induction cs as [|a cs IH]; intros [|n] H; simpl in *;
    try discriminate.
  - injection H as ->. lia.
  - specialize (IH _ H). lia.
Qed.

Lemma parent_candidate_size (d : ContentsItem) (cs : list ContentsItem)
      (n : nat) (p : ContentsItem) :
  parent_candidate d cs = Some (n, p) -> nth_error cs n = Some p.
Proof.
  unfold parent_candidate.
  destruct (break_index d cs 0) as [index|].
  - destruct (0 <? index)%nat; [|discriminate].
    destruct (nth_error cs (index - 1)) eqn:E; simpl; [|discriminate].
    intros H; injection H as <- <-. exact E.
  - destruct cs as [|c cs]; [discriminate|].
    destruct (nth_error (c :: cs) (length (c :: cs) - 1)) eqn:E; simpl;
      [|discriminate].
    intros H; injection H as <- <-. exact E.
Qed.

(** A reference to a node of the tree: the child indexes from the root. *)
Definition ref : Type := list nat.

(** [find_parent_for]: the parent found, with the reference to it
    relative to [self]. *)
Equations? find_parent_for (self descendant_item : ContentsItem)
           (parent_type : cls) : result (ref * ContentsItem)
  by wf (size self) lt :=
  find_parent_for self descendant_item parent_type
    with inspect (parent_candidate descendant_item (children self)) => {
    | exist _ None _ => Raise RuntimeError
    | exist _ (Some (index, parent)) Hparent =>
        if isinstance parent parent_type
        then Ok ([index], parent)
        else fmap (fun '(r, p) => (index :: r, p))
                  (find_parent_for parent descendant_item parent_type) }.
Proof.
  apply parent_candidate_size in Hparent.
  apply size_nth_error in Hparent.
  destruct self; simpl in *. lia.
Qed.

Fixpoint flatten (self : ContentsItem) : list ContentsItem :=
  match self with
  | Item _ _ _ cs => self :: flat_map flatten cs
  end.

(** [ContentItemSpan]; its [text] stays [None] and is left out. *)
Record ContentItemSpan : Type :=
  { start : ContentsItem;
    end_ : option ContentsItem }.

(** A [ContentsItem] object is truthy, so [not self.end] holds for [None]
    only. *)
Definition y_bounds (span : ContentItemSpan) : Q * option Q :=
  match end_ span with
  | None => (max_y (start span), None)
  | Some e =>
      if negb (page (start span) =? page e)
      then (max_y (start span), None)
      else (max_y (start span), Some (min_y e))
  end.

(** The spans built by [VerticalContentsHelper.run] from the tree. *)
Definition spans (contents : ContentsItem) : result (list ContentItemSpan) :=
  let items := flatten contents in
  let pairs := combine (removelast items) (tl items) in
  let spans :=
    map (fun '(start_item, end_item) =>
           {| start := start_item; end_ := Some end_item |}) pairs in
  last <- last_item items ;;
  Ok (spans ++ [{| start := last; end_ := None |}]).

(** The node a reference points to. *)
Fixpoint node_at (root : ContentsItem) (r : ref) : option ContentsItem :=
  match r with
  | [] => Some root
  | index :: r' =>
      match nth_error (children root) index with
      | Some child => node_at child r'
      | None => None
      end
  end.

Fixpoint update_nth {A} (n : nat) (f : A -> A) (l : list A) : list A :=
  match l, n with
  | [], _ => []
  | a :: l', O => f a :: l'
  | a :: l', S n' => a :: update_nth n' f l'
  end.

(** [parent.add(content_item)] where [parent] is the node of the tree
    [root] that [r] refers to: the node is mutated in place. *)
Fixpoint add_at (root : ContentsItem) (r : ref)
         (content_item : ContentsItem) : ContentsItem :=
  match r with
  | [] => add root content_item
  | index :: r' =>
      Item (class_of root) (search_result root) (number root)
           (update_nth index (fun child => add_at child r' content_item)
                       (children root))
  end.

Definition build_part (contents : ContentsItem) (part_result : SearchResult)
  : ContentsItem :=
  let part := new Part part_result in
  if truthy (is_before part contents) then contents
  else add contents part.

Definition build_parts (contents : ContentsItem)
           (part_results : list SearchResult) : ContentsItem :=
  fold_left build_part part_results contents.

Definition build_chapter (contents : ContentsItem)
           (chapter_result : SearchResult) : result ContentsItem :=
  let chapter := new Chapter chapter_result in
  if truthy (is_before chapter contents) then Ok contents
  else
    '(part, _) <- find_parent_for contents chapter Part ;;
    Ok (add_at contents part chapter).

Definition build_section (contents : ContentsItem)
           (section_result : SearchResult) : result ContentsItem :=
  let section := new Section_ section_result in
  if truthy (is_before section contents) then Ok contents
  else
    '(chapter, _) <- find_parent_for contents section Chapter ;;
    Ok (add_at contents chapter section).

(** A [for] loop whose body may raise. *)
Fixpoint for_each {S A} (body : S -> A -> result S) (l : list A) (s : S)
  : result S :=
  match l with
  | [] => Ok s
  | a :: l' => s' <- body s a ;; for_each body l' s'
  end.

Definition build_chapters (contents : ContentsItem)
           (chapter_results : list SearchResult) : result ContentsItem :=
  for_each build_chapter chapter_results contents.

Definition build_sections (contents : ContentsItem)
           (section_results : list SearchResult) : result ContentsItem :=
  for_each build_section section_results contents.

(** The tree-building half of [run]: the four arguments are what
    [find_regex_matches] returns for the four patterns. *)
Definition build_contents (results part_results chapter_results
                           section_results : list SearchResult)
  : result ContentsItem :=
  match results with
  | [] => Raise ValueError
  | first :: _ =>
      let contents := new TableOfContents first in
      let contents := build_parts contents part_results in
      contents <- build_chapters contents chapter_results ;;
      build_sections contents section_results
  end.

(** The search for a parent of class [parent_type] for [d] comes to a
    dead end below [self]: some node on the way down offers no candidate
    (it has no children, or [d] is before its first child). *)
Inductive dead_end (d : ContentsItem) (parent_type : cls)
  : ContentsItem -> Prop :=
| dead_end_here (self : ContentsItem) :
    parent_candidate d (children self) = None ->
    dead_end d parent_type self
| dead_end_below (self : ContentsItem) (index : nat) (p : ContentsItem) :
    parent_candidate d (children self) = Some (index, p) ->
    isinstance p parent_type = false ->
    dead_end d parent_type p ->
    dead_end d parent_type self.

(** *** Sample outlines *)

Definition box (top bottom : Q)
  : Coordinate * Coordinate * Coordinate * Coordinate :=
  ({| x := 0; y := top |}, {| x := 100; y := top |},
   {| x := 100; y := bottom |}, {| x := 0; y := bottom |}).

Definition anchor (page block paragraph : Z) (top bottom : Q)
  : SearchResult :=
  {| sr_page := page; sr_block := block; sr_paragraph := paragraph;
     sr_bounds := box top bottom |}.

(** A root and two parts on page 0, at y 10..20, 30..40 and 50..60. *)
Definition sample_root : ContentsItem :=
  new TableOfContents (anchor 0 0 0 10 20).

Definition sample_parts : list SearchResult :=
  [anchor 0 1 0 30 40; anchor 0 2 0 50 60].

Definition sample_contents : ContentsItem :=
  build_parts sample_root sample_parts.

(** The first part, as [build_parts] leaves it. *)
Definition sample_part : ContentsItem :=
  Item Part (anchor 0 1 0 30 40) (Some 1) [].

(** A chapter anchor at the very position of the first part, and one
    strictly after it. *)
Definition tied_chapter : SearchResult := anchor 0 1 0 30 40.
Definition later_chapter : SearchResult := anchor 0 1 0 45 48.

(** *** Shape of a built outline *)

(** The class of the children each class of node is given by the
    [build_*] methods. *)
Definition child_class (c : cls) : option cls :=
  match c with
  | TableOfContents => Some Part
  | Part => Some Chapter
  | Chapter => Some Section_
  | Section_ => None
  end.

#[local] Unset Elimination Schemes.

(** Every child is of the class its parent takes, at every level. *)
Inductive leveled : ContentsItem -> Prop :=
| leveled_item (c : cls) (s : SearchResult) (n : option Z)
               (cs : list ContentsItem) :
    Forall (fun child => child_class c = Some (class_of child) /\
                         leveled child) cs ->
    leveled (Item c s n cs).

(** The ordinals [1, 2, ..., n]. *)
Definition ordinals (n : nat) : list (option Z) :=
  map (fun k => Some (Z.of_nat k)) (seq 1 n).

(** The children of every node carry the ordinals 1, 2, ... in order. *)
Inductive numbered_in_order : ContentsItem -> Prop :=
| numbered_item (c : cls) (s : SearchResult) (n : option Z)
                (cs : list ContentsItem) :
    map number cs = ordinals (length cs) ->
    Forall numbered_in_order cs ->
    numbered_in_order (Item c s n cs).

#[local] Set Elimination Schemes.

(** What the three build loops keep: the root is the table of
    contents, the levels are right and the ordinals in order. *)
Definition built (t : ContentsItem) : Prop :=
  class_of t = TableOfContents /\ leveled t /\ numbered_in_order t.

(** The anchors of the tree, in flattened order. *)
Definition anchors (t : ContentsItem) : list SearchResult :=
  map search_result (flatten t).

(** The parts made of the given results, with the ordinals [n + 1],
    [n + 2], ... *)
Fixpoint number_parts (n : nat) (rs : list SearchResult)
  : list ContentsItem :=
  match rs with
  | [] => []
  | r :: rs' => Item Part r (Some (Z.of_nat n + 1)) [] :: number_parts (S n) rs'
  end.

(** A sample outline with chapters and sections: the sample root and
    parts, a chapter in each part and a section in the first chapter. *)
Definition sample_chapters : list SearchResult :=
  [anchor 0 1 1 42 44; anchor 0 2 1 62 64].

Definition sample_sections : list SearchResult :=
  [anchor 0 1 2 46 48].

Definition sample_outline : result ContentsItem :=
  build_contents [anchor 0 0 0 10 20] sample_parts sample_chapters
                 sample_sections.

(** The search among [children] offers no candidate for [d]: there are
    no children, or [d] is before the first of them. *)
Definition no_candidate (d : ContentsItem) (children : list ContentsItem)
  : Prop :=
  match children with
  | [] => True
  | child :: _ => truthy (is_before d child) = true
  end.

(** A chapter anchor between the root and the first part. *)
Definition early_chapter : SearchResult := anchor 0 0 1 22 26.

End Outline.

(** ** word_tools.py: geometry primitives and the clustering engine

    The [slope], [left_midpoint] and [right_midpoint] properties and
    [clean_groups] are reached only from code that is commented out in
    [group] and in the membership tests; they are left out. *)

Module WordTools.

Definition string : Type := String.string.

(** *** Module-level helpers *)

Inductive Axis : Type := AxisX | AxisY.

(** A vertex dict: [vertex.get(axis)] is [None] for the corners of an
    empty grouped element. *)
Record Vertex : Type := { get_x : option Q; get_y : option Q }.

Definition get (axis : Axis) (vertex : Vertex) : option Q :=
  match axis with
  | AxisX => get_x vertex
  | AxisY => get_y vertex
  end.

(** The value of a [bounds] property: a list of four vertices. *)
Definition Bounds : Type := Vertex * Vertex * Vertex * Vertex.

Definition vertices (b : Bounds) : list Vertex :=
  let '(a, b, c, d) := b in [a; b; c; d].

(** [list_min] and [list_max] on a list of numbers. *)
Definition list_min (values : list Q) : option Q :=
  match values with
  | [] => None
  | [v] => Some v
  | v :: rest => Some (py_min v rest)
  end.

Definition list_max (values : list Q) : option Q :=
  match values with
  | [] => None
  | [v] => Some v
  | v :: rest => Some (py_max v rest)
  end.

Definition point : Type := Q * Q.

Definition point_eqb (a b : point) : bool :=
  Qeq_bool (fst a) (fst b) && Qeq_bool (snd a) (snd b).

Definition slope (point_a point_b : point) : result Q :=
  if point_eqb point_a point_b then Ok 0%Q
  else if Qeq_bool (fst point_b - fst point_a) 0
       then Raise ZeroDivisionError
       else Ok ((snd point_b - snd point_a) / (fst point_b - fst point_a))%Q.

(** [sorted]: insertion after the entries that are not greater keeps the
    sort stable. *)
Fixpoint insert_sorted (v : Q) (l : list Q) : list Q :=
  match l with
  | [] => [v]
  | a :: l' => if Qlt_bool v a then v :: l else a :: insert_sorted v l'
  end.

Definition sort (l : list Q) : list Q :=
  fold_left (fun acc v => insert_sorted v acc) l [].

Fixpoint numbers (l : list (option Q)) : option (list Q) :=
  match l with
  | [] => Some []
  | Some v :: l' => option_map (cons v) (numbers l')
  | None :: _ => None
  end.

(** [sorted] on the four coordinates of a [bounds] value: every entry is
    compared at least once, and a comparison with [None] raises. *)
Definition sorted (l : list (option Q)) : result (list Q) :=
  match numbers l with
  | Some values => Ok (sort values)
  | None => Raise TypeError
  end.

Definition sum (l : list Q) : Q := fold_left Qplus l 0%Q.

(** *** [Element] *)

(** The three properties every element class implements.  Reading
    [bounds] may fill the cache of the object read, so it returns the
    object as it is left. *)
Class Element (A : Type) : Type :=
  { bounds : A -> result (Bounds * A);
    text : A -> string;
    break_text : A -> string }.

Section ElementProperties.

Context {A : Type} `{Element A}.

Definition coordinates (axis : Axis) (self : A) : result (list Q * A) :=
  '(b, self) <- bounds self ;;
  values <- sorted (map (get axis) (vertices b)) ;;
  Ok (values, self).

Definition x_coordinates : A -> result (list Q * A) := coordinates AxisX.
Definition y_coordinates : A -> result (list Q * A) := coordinates AxisY.

Definition min_y (self : A) : result (Q * A) :=
  '(values, self) <- y_coordinates self ;;
  Ok ((sum (firstn 2 values) / 2)%Q, self).

Definition max_y (self : A) : result (Q * A) :=
  '(values, self) <- y_coordinates self ;;
  Ok ((sum (skipn 2 values) / 2)%Q, self).

Definition min_x (self : A) : result (Q * A) :=
  '(values, self) <- x_coordinates self ;;
  Ok ((sum (firstn 2 values) / 2)%Q, self).

Definition max_x (self : A) : result (Q * A) :=
  '(values, self) <- x_coordinates self ;;
  Ok ((sum (skipn 2 values) / 2)%Q, self).

Definition height (self : A) : result (Q * A) :=
  '(hi, self) <- max_y self ;;
  '(lo, self) <- min_y self ;;
  Ok (Qabs (hi - lo), self).

Definition width (self : A) : result (Q * A) :=
  '(hi, self) <- max_x self ;;
  '(lo, self) <- min_x self ;;
  Ok (Qabs (hi - lo), self).

Definition center_x (self : A) : result (Q * A) :=
  '(lo, self) <- min_x self ;;
  '(w, self) <- width self ;;
  Ok ((lo + w / 2)%Q, self).

Definition center_y (self : A) : result (Q * A) :=
  '(lo, self) <- min_y self ;;
  '(h, self) <- height self ;;
  Ok ((lo + h / 2)%Q, self).

Definition center (self : A) : result (point * A) :=
  '(cx, self) <- center_x self ;;
  '(cy, self) <- center_y self ;;
  Ok ((cx, cy), self).

End ElementProperties.

(** *** [GroupedElement] *)

Record GroupedElement (A : Type) : Type :=
  { children : list A;
    _bounds : option Bounds }.

Arguments children {A} _.
Arguments _bounds {A} _.

Section Grouped.

Context {A : Type} `{Element A}.

Definition new_grouped : GroupedElement A :=
  {| children := []; _bounds := None |}.

Definition reset_bounds (self : GroupedElement A) : GroupedElement A :=
  {| children := children self; _bounds := None |}.

Definition add (self : GroupedElement A) (child : A) : GroupedElement A :=
  {| children := children (reset_bounds self) ++ [child]; _bounds := None |}.

Definition is_empty (self : GroupedElement A) : bool :=
  (length (children self) =? 0)%nat.

(** The list comprehension [[child.prop for child in children]]: the
    values read, and the children as the reads leave them. *)
Fixpoint each (prop : A -> result (Q * A)) (children : list A)
  : result (list Q * list A) :=
  match children with
  | [] => Ok ([], [])
  | child :: rest =>
      '(v, child) <- prop child ;;
      '(vs, rest) <- each prop rest ;;
      Ok (v :: vs, child :: rest)
  end.

Definition grouped_bounds (self : GroupedElement A)
  : result (Bounds * GroupedElement A) :=
  match _bounds self with
  | Some b => Ok (b, self)
  | None =>
      '(vs, cs) <- each min_x (children self) ;;
      let min_x := list_min vs in
      '(vs, cs) <- each max_x cs ;;
      let max_x := list_max vs in
      '(vs, cs) <- each min_y cs ;;
      let min_y := list_min vs in
      '(vs, cs) <- each max_y cs ;;
      let max_y := list_max vs in
      let b := ({| get_x := min_x; get_y := min_y |},
                {| get_x := min_x; get_y := max_y |},
                {| get_x := max_x; get_y := max_y |},
                {| get_x := max_x; get_y := min_y |}) in
      Ok (b, {| children := cs; _bounds := Some b |})
  end.

Definition grouped_text (self : GroupedElement A) : string :=
  fold_left (fun acc child =>
               String.append acc (String.append (text child)
                                                (break_text child)))
            (children self) ""%string.

#[export] Instance GroupedElement_Element : Element (GroupedElement A) :=
  { bounds := grouped_bounds;
    text := grouped_text;
    break_text := fun _ => String.String "010"%char String.EmptyString }.

End Grouped.

(** *** [Word], [Line], [LineGroup] *)

(** The element dict of a word: its text, the four vertices of its
    bounding box, and the break text [BREAK_MAP] gives for its detected
    break. *)
Record Word : Type :=
  { word_text : string;
    word_vertices : point * point * point * point;
    word_break : string }.

Definition vertex_of (p : point) : Vertex :=
  {| get_x := Some (fst p); get_y := Some (snd p) |}.

Definition word_bounds (self : Word) : Bounds :=
  let '(a, b, c, d) := word_vertices self in
  (vertex_of a, vertex_of b, vertex_of c, vertex_of d).

#[export] Instance Word_Element : Element Word :=
  { bounds := fun self => Ok (word_bounds self, self);
    text := word_text;
    break_text := word_break }.

(** [Line.alignment] stays [None] and is left out. *)
Abbreviation Line := (GroupedElement Word).
Abbreviation LineGroup := (GroupedElement (GroupedElement Word)).

Definition new_Line : Line := new_grouped.
Definition new_LineGroup : LineGroup := new_grouped.

(** *** [WordGrouper] *)

Record Thresholds : Type :=
  { th_word : Q;
    th_line : Q;
    th_line_slope : Q;
    th_group : Q;
    th_height : Q }.

Definition DEFAULT_PROXIMITY_THRESHOLDS : Thresholds :=
  {| th_word := 35; th_line := 12; th_line_slope := 1;
     th_group := 7; th_height := 10 |}.

(** The [proximity_thresholds] argument: the keys it holds replace the
    defaults. *)
Record ThresholdUpdate : Type :=
  { up_word : option Q;
    up_line : option Q;
    up_line_slope : option Q;
    up_group : option Q;
    up_height : option Q }.

Definition or_default (v : option Q) (d : Q) : Q :=
  match v with
  | Some v => v
  | None => d
  end.

Definition update (d : Thresholds) (u : option ThresholdUpdate)
  : Thresholds :=
  match u with
  | None => d
  | Some u =>
      {| th_word := or_default (up_word u) (th_word d);
         th_line := or_default (up_line u) (th_line d);
         th_line_slope := or_default (up_line_slope u) (th_line_slope d);
         th_group := or_default (up_group u) (th_group d);
         th_height := or_default (up_height u) (th_height d) |}
  end.

(** A compiled pattern, by what [fullmatch] decides on a text. *)
Definition regex : Type := string -> bool.

(** [re.fullmatch(pattern, text) is not None]; a [None] pattern raises. *)
Definition fullmatch (pattern : option regex) (s : string) : result bool :=
  match pattern with
  | Some r => Ok (r s)
  | None => Raise TypeError
  end.

Record WordGrouper : Type :=
  { page_width : Q;
    page_height : Q;
    words : list Word;
    ignore_regex : option regex;
    proximity_thresholds : Thresholds;
    line_groups : list LineGroup }.

(** [WordGrouper.__init__]: [self.words.pop(0)] raises on an empty
    list. *)
Definition init (page_width page_height : Q) (words : list Word)
           (ignore_regex : option regex)
           (proximity_thresholds : option ThresholdUpdate)
  : result WordGrouper :=
  match words with
  | [] => Raise IndexError
  | first :: rest =>
      let first_line := add new_Line first in
      let first_group := add new_LineGroup first_line in
      Ok {| page_width := page_width;
            page_height := page_height;
            words := rest;
            ignore_regex := ignore_regex;
            proximity_thresholds :=
              update DEFAULT_PROXIMITY_THRESHOLDS proximity_thresholds;
            line_groups := [first_group] |}
  end.

Definition is_in_line {E L : Type} `{Element E} `{Element L}
           (th : Thresholds) (element : E) (line : L)
  : result (bool * E * L) :=
  '(line_center, line) <- center line ;;
  '(element_center, element) <- center element ;;
  s <- slope line_center element_center ;;
  if Qlt_bool (th_line_slope th) s then Ok (false, element, line)
  else
    '(element_height, element) <- height element ;;
    '(line_height, line) <- height line ;;
    if Qlt_bool (th_height th) (Qabs (element_height - line_height))
    then Ok (false, element, line)
    else Ok (true, element, line).

Definition word_in_line (th : Thresholds) (word : Word) (line : Line)
  : result (bool * Word * Line) :=
  '(in_line, word, line) <- is_in_line th word line ;;
  if in_line then
    '(word_min_x, word) <- min_x word ;;
    '(line_max_x, line) <- max_x line ;;
    Ok (Qlt_bool (Qabs (word_min_x - line_max_x)) (th_word th), word, line)
  else Ok (false, word, line).

Definition line_in_group (th : Thresholds) (line : Line) (group : LineGroup)
  : result (bool * Line * LineGroup) :=
  '(line_min_y, line) <- min_y line ;;
  '(group_max_y, group) <- max_y group ;;
  if Qlt_bool (th_group th) (Qabs (line_min_y - group_max_y))
  then Ok (false, line, group)
  else Ok (true, line, group).

(** [l[-1]] together with the items before it, for an object that is
    then mutated in place. *)
Definition split_last {A} (l : list A) : result (list A * A) :=
  match rev l with
  | a :: r => Ok (rev r, a)
  | [] => Raise IndexError
  end.

Definition set_children {A} (self : GroupedElement A) (cs : list A)
  : GroupedElement A :=
  {| children := cs; _bounds := _bounds self |}.

(** The body of the loop of [group], for one word. *)
Definition group_step (th : Thresholds) (line_groups : list LineGroup)
           (word : Word) : result (list LineGroup) :=
  '(groups, group) <- split_last line_groups ;;
  '(lines, last_line) <- split_last (children group) ;;
  '(in_line, word, last_line) <- word_in_line th word last_line ;;
  if in_line then
    let last_line := add last_line word in
    Ok (groups ++ [set_children group (lines ++ [last_line])])
  else
    let group := set_children group (lines ++ [last_line]) in
    let new_line := add new_Line word in
    '(in_group, new_line, group) <- line_in_group th new_line group ;;
    if in_group then Ok (groups ++ [add group new_line])
    else
      let new_group := add new_LineGroup new_line in
      Ok (groups ++ [group; new_group]).

Fixpoint group_loop (th : Thresholds) (words : list Word)
         (line_groups : list LineGroup) : result (list LineGroup) :=
  match words with
  | [] => Ok line_groups
  | word :: rest =>
      line_groups <- group_step th line_groups word ;;
      group_loop th rest line_groups
  end.

(** [do_trim_line_words] pops from the end of [words]: [stack] holds the
    list with its last item first. *)
Fixpoint trim_stack (ignore_regex : option regex) (stack : list Word)
  : result (list Word) :=
  match stack with
  | [] => Ok []
  | word :: rest =>
      matched <- fullmatch ignore_regex (text word) ;;
      if matched then trim_stack ignore_regex rest
      else Ok (word :: rest)
  end.

Definition do_trim_line_words (ignore_regex : option regex)
           (words : list Word) : result (list Word) :=
  fmap (@rev Word) (trim_stack ignore_regex (rev words)).

Definition trim_line (ignore_regex : option regex) (line : Line)
  : result Line :=
  if is_empty line then Ok line
  else
    cs <- do_trim_line_words ignore_regex (rev (children line)) ;;
    cs <- (if negb (is_empty (set_children line cs))
           then do_trim_line_words ignore_regex (rev cs)
           else Ok cs) ;;
    Ok (reset_bounds (set_children line cs)).

(** Objects are compared by identity in [list.remove]: an object is named
    by its position in the list when the loop that marks it runs. *)
Definition enumerate {A} (l : list A) : list (nat * A) :=
  combine (seq 0 (length l)) l.

(** [l.remove(obj)] *)
Fixpoint remove {A} (obj : nat) (l : list (nat * A))
  : result (list (nat * A)) :=
  match l with
  | [] => Raise ValueError
  | (id, a) :: l' =>
      if (id =? obj)%nat then Ok l'
      else fmap (cons (id, a)) (remove obj l')
  end.

(** [for obj in to_remove: l.remove(obj)] *)
Fixpoint remove_each {A} (to_remove : list nat) (l : list (nat * A))
  : result (list (nat * A)) :=
  match to_remove with
  | [] => Ok l
  | obj :: rest => l <- remove obj l ;; remove_each rest l
  end.

Definition remove_all {A} (to_remove : list nat) (l : list A)
  : result (list A) :=
  fmap (map snd) (remove_each to_remove (enumerate l)).

(** The [for word in line.children] loop of [clean_words]: the words it
    appends to [words_to_remove]. *)
Fixpoint words_to_remove (ignore_regex : option regex)
         (words : list (nat * Word)) (matched : bool) : result (list nat) :=
  match words with
  | [] => Ok []
  | (id, word) :: rest =>
      is_match <- fullmatch ignore_regex (text word) ;;
      if is_match then
        marked <- words_to_remove ignore_regex rest true ;;
        Ok (if matched then id :: marked else marked)
      else words_to_remove ignore_regex rest false
  end.

(** The body of the [for line in group.children] loop: the line as it is
    left, and whether it was appended to [lines_to_remove]. *)
Definition clean_line (ignore_regex : option regex) (line : Line)
  : result (Line * bool) :=
  if is_empty line then Ok (line, true)
  else
    line <- trim_line ignore_regex line ;;
    marked <- words_to_remove ignore_regex (enumerate (children line))
                              false ;;
    cs <- remove_all marked (children line) ;;
    let line := set_children line cs in
    Ok (reset_bounds line, is_empty line).

(** A loop that mutates each object of a list and marks some of them. *)
Fixpoint clean_each {A} (body : A -> result (A * bool))
         (l : list (nat * A)) : result (list A * list nat) :=
  match l with
  | [] => Ok ([], [])
  | (id, a) :: rest =>
      '(a, mark) <- body a ;;
      '(rest, marked) <- clean_each body rest ;;
      Ok (a :: rest, if mark then id :: marked else marked)
  end.

(** The body of the [for group in self.line_groups] loop. *)
Definition clean_group (ignore_regex : option regex) (group : LineGroup)
  : result (LineGroup * bool) :=
  '(lines, lines_to_remove) <-
    clean_each (clean_line ignore_regex) (enumerate (children group)) ;;
  lines <- remove_all lines_to_remove lines ;;
  let group := reset_bounds (set_children group lines) in
  Ok (group, is_empty group).

Definition clean_words (ignore_regex : option regex)
           (line_groups : list LineGroup) : result (list LineGroup) :=
  '(groups, groups_to_remove) <-
    clean_each (clean_group ignore_regex) (enumerate line_groups) ;;
  remove_all groups_to_remove groups.

(** [WordGrouper.group] *)
Definition group (self : WordGrouper) : result (list LineGroup) :=
  line_groups <- group_loop (proximity_thresholds self) (words self)
                            (line_groups self) ;;
  clean_words (ignore_regex self) line_groups.

(** Constructing the engine and running it, as [run] does. *)
Definition group_words (page_width page_height : Q) (words : list Word)
           (ignore_regex : option regex)
           (proximity_thresholds : option ThresholdUpdate)
  : result (list LineGroup) :=
  word_grouper <- init page_width page_height words ignore_regex
                       proximity_thresholds ;;
  group word_grouper.

(** *** The cleanup pass, in the words of its description *)

Definition ignorable (r : regex) (word : Word) : bool := r (text word).

(** The list without its leading run of ignorable words. *)
Fixpoint drop_ignorable (r : regex) (l : list Word) : list Word :=
  match l with
  | [] => []
  | word :: l' => if ignorable r word then drop_ignorable r l' else l
  end.

(** Trimming from both ends inward. *)
Definition trim_ends (r : regex) (l : list Word) : list Word :=
  rev (drop_ignorable r (rev (drop_ignorable r l))).

(** Every run of consecutive ignorable words reduced to its first word;
    [after_match] tells whether the word before [l] was ignorable. *)
Fixpoint collapse_runs (r : regex) (after_match : bool) (l : list Word)
  : list Word :=
  match l with
  | [] => []
  | word :: l' =>
      if ignorable r word
      then (if after_match then collapse_runs r true l'
            else word :: collapse_runs r true l')
      else word :: collapse_runs r false l'
  end.

Definition nonempty {A} (g : GroupedElement A) : bool :=
  negb (is_empty g).

Definition cleaned_line (r : regex) (line : Line) : Line :=
  {| children := collapse_runs r false (trim_ends r (children line));
     _bounds := None |}.

Definition cleaned_group (r : regex) (group : LineGroup) : LineGroup :=
  {| children := filter nonempty (map (cleaned_line r) (children group));
     _bounds := None |}.

(** *** Vocabulary of the proofs *)

(** The items of [l] whose flag is set. *)
Fixpoint select {A} (mask : list bool) (l : list A) : list A :=
  match mask, l with
  | flag :: mask', a :: l' =>
      if flag then a :: select mask' l' else select mask' l'
  | _, _ => []
  end.

(** The flags of the words [clean_words] marks: the ignorable words that
    follow an ignorable word. *)
Fixpoint run_mask (r : regex) (after_match : bool) (l : list Word)
  : list bool :=
  match l with
  | [] => []
  | word :: l' =>
      if ignorable r word
      then after_match :: run_mask r true l'
      else false :: run_mask r false l'
  end.

(** The value a property read gives, apart from the object it leaves. *)
Definition measure {A X} (prop : A -> result (X * A)) (a : A) : result X :=
  fmap fst (prop a).

(** Reading the bounds again gives the same bounds and changes nothing
    more. *)
Class Stable (A : Type) `{Element A} : Prop :=
  stable : forall (a : A) (b : Bounds) (a' : A),
    bounds a = Ok (b, a') -> bounds a' = Ok (b, a').

(** A box read as an element: its bounds are itself. *)
#[export] Instance Bounds_Element : Element Bounds :=
  { bounds := fun b => Ok (b, b);
    text := fun _ => String.EmptyString;
    break_text := fun _ => String.EmptyString }.

(** Every coordinate of the box is a number. *)
Definition solid_vertex (v : Vertex) : Prop :=
  (exists q, get_x v = Some q) /\ (exists q, get_y v = Some q).

Definition solid (b : Bounds) : Prop := Forall solid_vertex (vertices b).

(** The property [m] reads the bounds and computes its value from them
    alone: [mb] is the same property on a box. *)
Definition factors {A X} `{Element A} (m : A -> result (X * A))
           (mb : Bounds -> result (X * Bounds)) : Prop :=
  (forall a, m a = '(b, a') <- bounds a ;;
                   v <- measure mb b ;; Ok (v, a')) /\
  (forall b v b', mb b = Ok (v, b') -> b' = b) /\
  (forall b, solid b -> exists v, mb b = Ok (v, b)).

(** The object as a read of its bounds leaves it. *)
Definition filled {A} `{Element A} (a : A) : A :=
  match bounds a with
  | Ok (_, a') => a'
  | Raise _ => a
  end.

(** The bounds [grouped_bounds] builds from the four lists of values. *)
Definition box_of (xs_min xs_max ys_min ys_max : list Q) : Bounds :=
  ({| get_x := list_min xs_min; get_y := list_min ys_min |},
   {| get_x := list_min xs_min; get_y := list_max ys_max |},
   {| get_x := list_max xs_max; get_y := list_max ys_max |},
   {| get_x := list_max xs_max; get_y := list_min ys_min |}).

(** A line of the given words, and a group of such lines, with nothing
    cached. *)
Definition fresh_line (ws : list Word) : Line :=
  {| children := ws; _bounds := None |}.

Definition fresh_group (wss : list (list Word)) : LineGroup :=
  {| children := map fresh_line wss; _bounds := None |}.

(** The words of a group, line by line. *)
Definition content (g : LineGroup) : list (list Word) :=
  map children (children g).

(** The bounds a line has cached are those its words give. *)
Definition coherent_line (l : Line) : Prop :=
  forall b, _bounds l = Some b ->
            measure bounds (fresh_line (children l)) = Ok b.

Definition sound_line (l : Line) : Prop :=
  children l <> [] /\ coherent_line l.

(** The state of the loop of [group] between two words: the last group
    has no bounds cached; its lines are not empty and their caches are
    coherent. *)
Definition loop_invariant (line_groups : list LineGroup) : Prop :=
  exists groups group,
    line_groups = groups ++ [group] /\
    _bounds group = None /\
    children group <> [] /\
    Forall sound_line (children group).

(** The three tests of the grouping loop, in the words of their
    description: [s] is the slope between the centers of the line and of
    the word, [wh] and [lh] their heights, [wx] the left edge of the word,
    [lx] the right edge of the line, [ny] the top of the new line and
    [gy] the bottom of the group. *)
Definition joins_line (th : Thresholds) (s wh lh wx lx : Q) : bool :=
  Qle_bool s (th_line_slope th) &&
  Qle_bool (Qabs (wh - lh)) (th_height th) &&
  Qlt_bool (Qabs (wx - lx)) (th_word th).

Definition joins_group (th : Thresholds) (ny gy : Q) : bool :=
  Qle_bool (Qabs (ny - gy)) (th_group th).

(** The state the loop body leaves, in its three cases, once the tests
    are decided. *)
Definition after_step (in_line in_group : bool) (groups : list LineGroup)
           (group : LineGroup) (lines : list Line) (last_line : Line)
           (word : Word) : list LineGroup :=
  if in_line
  then groups ++
       [set_children group (lines ++ [add (filled last_line) word])]
  else
    let group := set_children group (lines ++ [filled last_line]) in
    let new_line := filled (fresh_line [word]) in
    if in_group then groups ++ [add (filled group) new_line]
    else groups ++ [filled group; add new_LineGroup new_line].

(** The bounds of an element without children: every coordinate is
    [None]. *)
Definition empty_bounds : Bounds :=
  let v := {| get_x := None; get_y := None |} in (v, v, v, v).

(** *** Sample words *)

(** [GROUP_IGNORE] of the caller, [^[\s\.\-]+$], on texts of code points
    below 256. *)
Definition is_space (c : Ascii.ascii) : bool :=
  let n := Ascii.nat_of_ascii c in
  ((9 <=? n) && (n <=? 13) || (28 <=? n) && (n <=? 32) ||
   (n =? 133) || (n =? 160))%nat.

Definition in_ignore_class (c : Ascii.ascii) : bool :=
  is_space c || Ascii.eqb c "."%char || Ascii.eqb c "-"%char.

Definition GROUP_IGNORE : regex :=
  fun s =>
    match String.list_ascii_of_string s with
    | [] => false
    | cs => forallb in_ignore_class cs
    end.

(** A word of the given text in the box [left..right] x [top..bottom],
    followed by a space. *)
Definition sample_word (s : string) (left right top bottom : Q) : Word :=
  {| word_text := s;
     word_vertices :=
       ((left, top), (right, top), (right, bottom), (left, bottom));
     word_break := " "%string |}.

(** One line, [Intro . . 5], with a run of two dot leaders inside. *)
Definition w_intro : Word := sample_word "Intro"%string 0 30 0 10.
Definition w_dot1 : Word := sample_word "."%string 35 38 0 10.
Definition w_dot2 : Word := sample_word "."%string 43 46 0 10.
Definition w_five : Word := sample_word "5"%string 51 56 0 10.

Definition dotted_line : list Word := [w_intro; w_dot1; w_dot2; w_five].

(** A word right below [w_intro]: the two centers have the same x. *)
Definition w_below : Word := sample_word "x"%string 10 20 50 60.

(** A word below and to the right of [w_intro], too far for its line and
    for its group. *)
Definition w_far : Word := sample_word "y"%string 200 230 100 110.

(** *** Words of a result *)

(** All the words of a list of groups, in order. *)
Definition all_words (line_groups : list LineGroup) : list Word :=
  concat (concat (map content line_groups)).

(** [l'] is [l] with some ignorable words deleted: nothing else is
    removed, nothing is added or moved. *)
Inductive thinned (r : regex) : list Word -> list Word -> Prop :=
| thinned_nil : thinned r [] []
| thinned_keep (w : Word) (l l' : list Word) :
    thinned r l l' -> thinned r (w :: l) (w :: l')
| thinned_drop (w : Word) (l l' : list Word) :
    ignorable r w = true -> thinned r l l' -> thinned r (w :: l) l'.

(** A line as the cleanup leaves it: it has words, it starts and ends
    with a word that does not match, no matching word follows a matching
    word, and no bounds are cached. *)
Definition tidy_line (r : regex) (line : Line) : Prop :=
  _bounds line = None /\
  children line <> [] /\
  (forall w, hd_error (children line) = Some w -> ignorable r w = false) /\
  (forall w, hd_error (rev (children line)) = Some w ->
             ignorable r w = false) /\
  forallb negb (run_mask r false (children line)) = true.

Definition tidy_group (r : regex) (group : LineGroup) : Prop :=
  _bounds group = None /\ children group <> [] /\
  Forall (tidy_line r) (children group).

(** No group without lines and no line without words. *)
Definition no_empty (line_groups : list LineGroup) : Prop :=
  Forall (fun g : LineGroup =>
            children g <> [] /\
            Forall (fun l : Line => children l <> []) (children g))
         line_groups.

(** The bounds a group has cached are those its words give. *)
Definition coherent_group (g : LineGroup) : Prop :=
  forall b, _bounds g = Some b ->
            measure bounds (fresh_group (content g)) = Ok b.

(** Every cache of the state is current. *)
Definition caches_current (line_groups : list LineGroup) : Prop :=
  Forall (fun g : LineGroup =>
            coherent_group g /\ Forall coherent_line (children g))
         line_groups.

(** The state [__init__] leaves. *)
Definition first_state (first : Word) : list LineGroup :=
  [add new_LineGroup (add new_Line first)].

(** [v] is the least, or the greatest, of the values the property [m]
    reads on the words [ws]. *)
Definition least_of (m : Word -> result (Q * Word)) (ws : list Word)
           (v : Q) : Prop :=
  (forall w u, In w ws -> measure m w = Ok u -> (v <= u)%Q) /\
  (exists w u, In w ws /\ measure m w = Ok u /\ (u == v)%Q).

Definition greatest_of (m : Word -> result (Q * Word)) (ws : list Word)
           (v : Q) : Prop :=
  (forall w u, In w ws -> measure m w = Ok u -> (u <= v)%Q) /\
  (exists w u, In w ws /\ measure m w = Ok u /\ (u == v)%Q).

(** The strings of a list, one after the other. *)
Definition joined (l : list string) : string :=
  fold_right String.append String.EmptyString l.

(** What a word adds to the text of its line. *)
Definition word_piece (w : Word) : string :=
  String.append (text w) (break_text w).

(** *** The [slope] property of [Element] *)

(** [l[i]] and [a / b] on numbers. *)
Definition item (l : list Q) (i : nat) : result Q :=
  match nth_error l i with
  | Some v => Ok v
  | None => Raise IndexError
  end.

Definition div (a b : Q) : result Q :=
  if Qeq_bool b 0 then Raise ZeroDivisionError else Ok (a / b)%Q.

(** [Element.slope]; the module-level function has the name [slope]. *)
Definition element_slope {A : Type} `{Element A} (self : A)
  : result (Q * A) :=
  '(values, self) <- y_coordinates self ;;
  let lower := firstn 2 values in
  '(values, self) <- y_coordinates self ;;
  let upper := skipn 2 values in
  '(width, self) <- width self ;;
  l1 <- item lower 1 ;;
  l0 <- item lower 0 ;;
  lower_slope <- div (l1 - l0) width ;;
  u1 <- item upper 1 ;;
  u0 <- item upper 0 ;;
  upper_slope <- div (u1 - u0) width ;;
  Ok (((lower_slope + upper_slope) / 2)%Q, self).

End WordTools.

(* ===================================================================== *)
(** * Part II. Properties                                                 *)
(* ===================================================================== *)

(** ** The outline model *)

Section OutlineFacts.

Import Outline.

Lemma Qlt_bool_iff (a b : Q) : Qlt_bool a b = true <-> (a < b)%Q.
Proof.
  unfold Qlt_bool. rewrite Qlt_alt. destruct (a ?= b)%Q; split; congruence.
Qed.

Lemma Qlt_bool_false_iff (a b : Q) : Qlt_bool a b = false <-> (b <= a)%Q.
Proof.
  rewrite <- Bool.not_true_iff_false, Qlt_bool_iff. split.
  - apply Qnot_lt_le.
  - apply Qle_not_lt.
Qed.

Lemma Qlt_asym (a b : Q) : (a < b)%Q -> ~ (b < a)%Q.
Proof. intros H H'. apply (Qlt_irrefl a). eapply Qlt_trans; eauto. Qed.

(** C5: [is_before] is the lexicographic comparison on (page, block,
    paragraph, vertical top): it answers [True] exactly when [a] strictly
    precedes [b] on the first key that differs, [False] exactly when [b]
    strictly precedes [a], and [None] exactly when the four keys are
    equal. *)
Theorem is_before_lexicographic (a b : ContentsItem) :
  (is_before a b = Some true <-> precedes a b) /\
  (is_before a b = Some false <-> precedes b a) /\
  (is_before a b = None <-> same_position a b).
Proof.
  unfold is_before, precedes, same_position, Qneq_bool.
  destruct (Z.eqb_spec (page a) (page b)) as [Hp|Hp]; simpl;
    [|destruct (Z.ltb_spec (page a) (page b));
      intuition (try lia; try discriminate)].
  destruct (Z.eqb_spec (block a) (block b)) as [Hb|Hb]; simpl;
    [|destruct (Z.ltb_spec (block a) (block b));
      intuition (try lia; try discriminate)].
  destruct (Z.eqb_spec (paragraph a) (paragraph b)) as [Hq|Hq]; simpl;
    [|destruct (Z.ltb_spec (paragraph a) (paragraph b));
      intuition (try lia; try discriminate)].
  destruct (Qeq_bool (min_y a) (min_y b)) eqn:He; simpl.
  - apply Qeq_bool_iff in He.
    assert (~ (min_y a < min_y b)%Q) by (rewrite He; apply Qlt_irrefl).
    assert (~ (min_y b < min_y a)%Q) by (rewrite He; apply Qlt_irrefl).
    intuition (try lia; try discriminate).
  - apply Qeq_bool_neq in He.
    destruct (Qlt_bool (min_y a) (min_y b)) eqn:Hl.
    + apply Qlt_bool_iff in Hl. pose proof (Qlt_asym Hl).
      intuition (try lia; try discriminate).
    + apply Qlt_bool_false_iff in Hl.
      assert (Hg : (min_y b < min_y a)%Q).
      { apply Qle_lt_or_eq in Hl. destruct Hl as [Hl|Hl]; [exact Hl|].
        exfalso. apply He. symmetry. exact Hl. }
      pose proof (Qlt_asym Hg).
      intuition (try lia; try discriminate).
Qed.

(** C10, as amended: [p.add(c)] appends [c] after the children [p]
    already has, and assigns [c] the ordinal [len(p.children) + 1]
    exactly when its ordinal was absent or zero; otherwise [c] keeps the
    ordinal it came with.  Afterwards the ordinal is
    [len(p.children) + 1] exactly when it was absent, zero, or that
    number already. *)
Theorem add_appends_and_numbers (p c : ContentsItem) :
  exists c' : ContentsItem,
    children (add p c) = children p ++ [c'] /\
    class_of (add p c) = class_of p /\
    search_result (add p c) = search_result p /\
    number (add p c) = number p /\
    class_of c' = class_of c /\
    search_result c' = search_result c /\
    children c' = children c /\
    number c' =
      (if not_number (number c)
       then Some (Z.of_nat (length (children p)) + 1)
       else number c) /\
    (not_number (number c) = true <->
     number c = None \/ number c = Some 0) /\
    (number c' = Some (Z.of_nat (length (children p)) + 1) <->
     number c = None \/ number c = Some 0 \/
     number c = Some (Z.of_nat (length (children p)) + 1)).
Proof.
  exists (numbered p c). destruct c as [cc csr cn cch].
  unfold add, numbered. cbn [number class_of search_result children].
  repeat split; try (destruct (not_number cn); reflexivity).
  - destruct cn as [k|]; cbn [not_number]; [|intros _; left; reflexivity].
    rewrite Z.eqb_eq. intros ->. right. reflexivity.
  - intros [H|H]; rewrite H; reflexivity.
  - destruct cn as [k|]; cbn [not_number];
      [|intros _; left; reflexivity].
    destruct (Z.eqb_spec k 0) as [->|Hk];
      cbn [set_number number].
    + intros _. right. left. reflexivity.
    + intros H. right. right. exact H.
  - destruct cn as [k|]; cbn [not_number set_number number];
      [|reflexivity].
    destruct (Z.eqb_spec k 0) as [->|Hk]; cbn [number]; [reflexivity|].
    intros [H|[H|H]]; [discriminate H|congruence|exact H].
Qed.

(** C10, as the specification words it, fails on a child that comes with
    the very ordinal [add] would assign: added to a root without
    children, a part numbered 1 is numbered 1 afterwards, the number of
    children before the call plus one, although its ordinal was neither
    absent nor zero. *)
Lemma preset_ordinal_can_coincide :
  children (add sample_root sample_part) =
    children sample_root ++ [sample_part] /\
  number sample_part =
    Some (Z.of_nat (length (children sample_root)) + 1) /\
  number sample_part <> None /\ number sample_part <> Some 0.
Proof.
  repeat split; try reflexivity; discriminate.
Qed.

(** *** Spans *)

Lemma combine_adjacent {A} (l : list A) (i : nat) :
  nth_error (combine (removelast l) (tl l)) i =
  match nth_error l i, nth_error l (S i) with
  | Some a, Some b => Some (a, b)
  | _, _ => None
  end.
Proof.
  revert i. induction l as [|a l IH]; intros i.
  - destruct i; reflexivity.
  - destruct l as [|b l].
    + destruct i as [|[|i]]; reflexivity.
    + change (removelast (a :: b :: l)) with (a :: removelast (b :: l)).
      change (tl (a :: b :: l)) with (b :: l).
      destruct i as [|i]; [reflexivity|].
      change (combine (a :: removelast (b :: l)) (b :: l))
        with ((a, b) :: combine (removelast (b :: l)) (tl (b :: l))).
      simpl nth_error at 1. rewrite IH. reflexivity.
Qed.

Lemma combine_adjacent_length {A} (l : list A) :
  length (combine (removelast l) (tl l)) = (length l - 1)%nat.
Proof.
  induction l as [|a l IH]; [reflexivity|].
  destruct l as [|b l]; [reflexivity|].
  change (removelast (a :: b :: l)) with (a :: removelast (b :: l)).
  change (tl (a :: b :: l)) with (b :: l).
  change (combine (a :: removelast (b :: l)) (b :: l))
    with ((a, b) :: combine (removelast (b :: l)) (tl (b :: l))).
  simpl length in *. rewrite IH. lia.
Qed.

Lemma last_item_nth {A} (l : list A) (a : A) :
  last_item l = Ok a <-> nth_error l (length l - 1) = Some a /\ l <> [].
Proof.
  unfold last_item. destruct l as [|b l] using rev_ind.
  - simpl. split; [discriminate|intros [_ H]; congruence].
  - rewrite rev_app_distr. simpl. rewrite length_app. simpl.
    replace (length l + 1 - 1)%nat with (length l) by lia.
    rewrite nth_error_app2 by lia. rewrite Nat.sub_diag. simpl.
    split.
    + intros H; injection H as ->. split; [reflexivity|].
      destruct l; discriminate.
    + intros [H _]. injection H as ->. reflexivity.
Qed.

Lemma last_item_ok {A} (l : list A) :
  l <> [] -> exists a, last_item l = Ok a.
Proof.
  unfold last_item. destruct l as [|b l] using rev_ind; [congruence|].
  intros _. rewrite rev_app_distr. simpl. eauto.
Qed.

Lemma flatten_unfold (t : ContentsItem) :
  flatten t = t :: flat_map flatten (children t).
Proof. destruct t; reflexivity. Qed.

Lemma spans_nth (t : ContentsItem) (ss : list ContentItemSpan) :
  spans t = Ok ss ->
  length ss = length (flatten t) /\
  forall i s, nth_error ss i = Some s ->
    nth_error (flatten t) i = Some (start s) /\
    end_ s = nth_error (flatten t) (S i).
Proof.
  unfold spans.
  assert (Hne : flatten t <> []) by (rewrite flatten_unfold; discriminate).
  remember (flatten t) as items eqn:E. clear E.
  destruct (last_item items) as [a|e] eqn:Hlast; cbn [bind]; [|discriminate].
  intros H; injection H as <-.
  apply last_item_nth in Hlast. destruct Hlast as [Hlast _].
  assert (Hlen : (0 < length items)%nat) by (destruct items; simpl; [congruence|lia]).
  split.
  - rewrite length_app, length_map, combine_adjacent_length. simpl. lia.
  - intros i s Hs.
    destruct (Nat.lt_ge_cases i (length items - 1)) as [Hi|Hi].
    + rewrite nth_error_app1 in Hs
        by (rewrite length_map, combine_adjacent_length; exact Hi).
      rewrite nth_error_map, combine_adjacent in Hs.
      destruct (nth_error items i) as [u|] eqn:Eu; [|discriminate].
      destruct (nth_error items (S i)) as [v|] eqn:Ev; [|discriminate].
      cbn -[nth_error] in Hs. injection Hs as <-.
      cbn -[nth_error]. split; reflexivity.
    + rewrite nth_error_app2 in Hs
        by (rewrite length_map, combine_adjacent_length; exact Hi).
      rewrite length_map, combine_adjacent_length in Hs.
      destruct (i - (length items - 1))%nat as [|k] eqn:Ek.
      * cbn -[nth_error] in Hs. injection Hs as <-. cbn -[nth_error].
        assert (i = length items - 1)%nat by lia. subst i.
        split; [exact Hlast|].
        symmetry. apply nth_error_None. lia.
      * destruct k; discriminate.
Qed.

Lemma spans_ok (t : ContentsItem) : exists ss, spans t = Ok ss.
Proof.
  unfold spans.
  destruct (@last_item_ok _ (flatten t)) as [a Ha].
  - rewrite flatten_unfold; discriminate.
  - rewrite Ha. simpl. eauto.
Qed.

(** C7: the tree is flattened in pre-order and [run] builds one span per
    flattened node, in that order; a span starts at the bottom of its
    node's anchor box, ends at the top of the next node's box when both
    are on one page, has no end bound when the pages differ, and the span
    of the last node has no end. *)
Theorem spans_follow_preorder (t : ContentsItem) :
  flatten t = t :: flat_map flatten (children t) /\
  exists ss : list ContentItemSpan,
    spans t = Ok ss /\
    length ss = length (flatten t) /\
    forall i s, nth_error ss i = Some s ->
      nth_error (flatten t) i = Some (start s) /\
      end_ s = nth_error (flatten t) (S i) /\
      fst (y_bounds s) = max_y (start s) /\
      snd (y_bounds s) =
        match nth_error (flatten t) (S i) with
        | Some next =>
            if page (start s) =? page next then Some (min_y next) else None
        | None => None
        end.
Proof.
  split; [apply flatten_unfold|].
  destruct (spans_ok t) as [ss Hss]. exists ss.
  destruct (spans_nth _ Hss) as [Hlen Hnth].
  repeat split; try assumption.
  - apply (Hnth i s H).
  - apply (Hnth i s H).
  - unfold y_bounds. destruct (end_ s) as [e|]; [|reflexivity].
    destruct (negb _); reflexivity.
  - destruct (Hnth i s H) as [_ He]. rewrite <- He.
    unfold y_bounds. destruct (end_ s) as [e|]; [|reflexivity].
    destruct (page (start s) =? page e); reflexivity.
Qed.

(** *** Spans of one page *)

Lemma py_min_le (a : Q) (rest : list Q) : (py_min a rest <= a)%Q.
Proof.
  unfold py_min. revert a. induction rest as [|v rest IH]; intros a; simpl.
  - apply Qle_refl.
  - destruct (Qlt_bool v a) eqn:E.
    + apply Qlt_bool_iff in E. eapply Qle_trans; [apply IH|].
      apply Qlt_le_weak. exact E.
    + apply IH.
Qed.

Lemma py_max_ge (a : Q) (rest : list Q) : (a <= py_max a rest)%Q.
Proof.
  unfold py_max. revert a. induction rest as [|v rest IH]; intros a; simpl.
  - apply Qle_refl.
  - destruct (Qlt_bool a v) eqn:E.
    + apply Qlt_bool_iff in E. eapply Qle_trans; [|apply IH].
      apply Qlt_le_weak. exact E.
    + apply IH.
Qed.

Lemma min_y_le_max_y (i : ContentsItem) : (min_y i <= max_y i)%Q.
Proof.
  unfold min_y, max_y.
  eapply Qle_trans; [apply py_min_le|apply py_max_ge].
Qed.

(** C2, as the code has it: of two consecutive spans whose anchors are on
    one page, the earlier ends at the top of the anchor box of the node
    they share and the later starts at the bottom of that box, so the two
    never overlap and the box itself lies between them. *)
Theorem consecutive_spans_same_page
        (t : ContentsItem) (ss : list ContentItemSpan) (i : nat)
        (s1 s2 : ContentItemSpan) :
  spans t = Ok ss ->
  nth_error ss i = Some s1 ->
  nth_error ss (S i) = Some s2 ->
  page (start s1) = page (start s2) ->
  snd (y_bounds s1) = Some (min_y (start s2)) /\
  fst (y_bounds s2) = max_y (start s2) /\
  (min_y (start s2) <= max_y (start s2))%Q.
Proof.
  intros Hss H1 H2 Hpage.
  destruct (spans_nth _ Hss) as [_ Hnth].
  destruct (Hnth _ _ H1) as [_ Hend].
  destruct (Hnth _ _ H2) as [Hstart _].
  rewrite Hstart in Hend.
  repeat split.
  - unfold y_bounds. rewrite Hend, Hpage, Z.eqb_refl. reflexivity.
  - unfold y_bounds. destruct (end_ s2); [destruct (negb _)|]; reflexivity.
  - apply min_y_le_max_y.
Qed.

(** The theorem on the first two spans of the sample outline. *)
Lemma consecutive_spans_same_page_witness :
  exists ss s1 s2,
    spans sample_contents = Ok ss /\
    nth_error ss 0 = Some s1 /\
    nth_error ss 1 = Some s2 /\
    snd (y_bounds s1) = Some (min_y (start s2)) /\
    fst (y_bounds s2) = max_y (start s2) /\
    (min_y (start s2) <= max_y (start s2))%Q.
Proof.
  destruct (spans sample_contents) as [ss|e] eqn:Hss; [|discriminate Hss].
  destruct (nth_error ss 0) as [s1|] eqn:H1;
    [|vm_compute in Hss; injection Hss as <-; discriminate H1].
  destruct (nth_error ss 1) as [s2|] eqn:H2;
    [|vm_compute in Hss; injection Hss as <-; discriminate H2].
  exists ss, s1, s2.
  split; [reflexivity|]. split; [exact H1|]. split; [exact H2|].
  apply (@consecutive_spans_same_page sample_contents ss 0%nat s1 s2 Hss H1 H2).
  vm_compute in Hss. injection Hss as <-.
  injection H1 as <-. injection H2 as <-. reflexivity.
Defined.

(** C2, as the specification words it, fails on the sample outline: the
    span of the root ends at y = 30, the span of the first part starts at
    y = 40, both on page 0. *)
Lemma spans_leave_the_anchor_box_out :
  exists s0 s1 s2,
    spans sample_contents = Ok [s0; s1; s2] /\
    page (start s0) = page (start s1) /\
    y_bounds s0 = (20, Some 30)%Q /\
    y_bounds s1 = (40, Some 50)%Q /\
    ~ (30 == 40)%Q.
Proof.
  do 3 eexists. split; [vm_compute; reflexivity|].
  repeat split; try reflexivity.
  intros H. vm_compute in H. discriminate H.
Qed.

(** *** The search for a parent *)

Lemma find_parent_for_unfold (self d : ContentsItem) (ty : cls) :
  find_parent_for self d ty =
  match parent_candidate d (children self) with
  | None => Raise RuntimeError
  | Some (index, parent) =>
      if isinstance parent ty then Ok ([index], parent)
      else fmap (fun '(r, p) => (index :: r, p)) (find_parent_for parent d ty)
  end.
Proof.
  funelim (find_parent_for self d ty).
  - rewrite Hparent. reflexivity.
  - match goal with E : parent_candidate _ _ = None |- _ => rewrite E end.
    reflexivity.
Qed.

Lemma find_parent_for_total (self d : ContentsItem) (ty : cls) :
  find_parent_for self d ty = Raise RuntimeError \/
  exists r p, find_parent_for self d ty = Ok (r, p) /\
              isinstance p ty = true /\ node_at self r = Some p.
Proof.
  funelim (find_parent_for self d ty); [|left; reflexivity].
  destruct (isinstance parent parent_type) eqn:Ety.
  - right. exists [index], parent. repeat split; try assumption.
    simpl. rewrite (parent_candidate_size _ _ Hparent). reflexivity.
  - match goal with IH : _ \/ _ |- _ =>
      destruct IH as [Hr|(r & p & Hr & Hp & Hat)] end.
    + left. rewrite Hr. reflexivity.
    + right. exists (index :: r), p. rewrite Hr. repeat split; try assumption.
      simpl. rewrite (parent_candidate_size _ _ Hparent). exact Hat.
Qed.

Lemma dead_end_raises (self d : ContentsItem) (ty : cls) :
  dead_end d ty self <-> find_parent_for self d ty = Raise RuntimeError.
Proof.
  split.
  - induction 1 as [self H|self index p H Hty _ IH];
      rewrite find_parent_for_unfold, H; [reflexivity|].
    rewrite Hty, IH. reflexivity.
  - funelim (find_parent_for self d ty); intros Hr.
    + destruct (isinstance parent parent_type) eqn:Ety; [discriminate Hr|].
      eapply dead_end_below; eauto.
      match goal with IH : _ -> dead_end _ _ _ |- _ => apply IH end.
      destruct (find_parent_for parent descendant_item parent_type)
        as [[r p]|e]; [discriminate Hr|].
      simpl in Hr. exact Hr.
    + apply dead_end_here.
      match goal with E : parent_candidate _ _ = None |- _ => exact E end.
Qed.

Lemma cls_eqb_eq (a b : cls) : cls_eqb a b = true <-> a = b.
Proof. destruct a, b; simpl; split; congruence. Qed.

Lemma nth_error_update_nth {A} (f : A -> A) (l : list A) (n : nat) :
  nth_error (update_nth n f l) n = option_map f (nth_error l n).
Proof.
  revert n. induction l as [|a l IH]; intros [|n]; simpl; auto.
Qed.

Lemma node_at_add_at (root : ContentsItem) (r : ref) (p c : ContentsItem) :
  node_at root r = Some p -> node_at (add_at root r c) r = Some (add p c).
Proof.
  revert root. induction r as [|index r IH]; intros root; simpl.
  - intros H; injection H as ->. reflexivity.
  - rewrite nth_error_update_nth.
    destruct (nth_error (children root) index) as [child|]; simpl;
      [|discriminate].
    apply IH.
Qed.

(** C9: the parent search raises exactly when it comes to a dead end
    (in particular when [self] has no children) and raises nothing else;
    a parent it returns is a node of the tree of the required class; and
    [build_chapters] and [build_sections] attach an anchor under that
    node, or raise, and never attach it elsewhere. *)
Theorem find_parent_for_typed_or_error :
  (forall self d ty,
      dead_end d ty self <-> find_parent_for self d ty = Raise RuntimeError) /\
  (forall self d ty,
      children self = [] -> find_parent_for self d ty = Raise RuntimeError) /\
  (forall self d ty,
      find_parent_for self d ty = Raise RuntimeError \/
      exists r p, find_parent_for self d ty = Ok (r, p) /\
                  isinstance p ty = true /\ class_of p = ty /\
                  node_at self r = Some p) /\
  (forall contents sr,
      (build_chapter contents sr = Ok contents /\
       truthy (is_before (new Chapter sr) contents) = true) \/
      (build_chapter contents sr = Raise RuntimeError /\
       dead_end (new Chapter sr) Part contents) \/
      (exists r p,
          node_at contents r = Some p /\ class_of p = Part /\
          build_chapter contents sr =
            Ok (add_at contents r (new Chapter sr)) /\
          node_at (add_at contents r (new Chapter sr)) r =
            Some (add p (new Chapter sr)))) /\
  (forall contents sr,
      (build_section contents sr = Ok contents /\
       truthy (is_before (new Section_ sr) contents) = true) \/
      (build_section contents sr = Raise RuntimeError /\
       dead_end (new Section_ sr) Chapter contents) \/
      (exists r p,
          node_at contents r = Some p /\ class_of p = Chapter /\
          build_section contents sr =
            Ok (add_at contents r (new Section_ sr)) /\
          node_at (add_at contents r (new Section_ sr)) r =
            Some (add p (new Section_ sr)))).
Proof.
  split; [apply dead_end_raises|].
  split.
  { intros self d ty H. rewrite find_parent_for_unfold, H. reflexivity. }
  split.
  { intros self d ty.
    destruct (find_parent_for_total self d ty) as [H|(r & p & H & Hty & Hat)];
      [left; exact H|right].
    exists r, p. repeat split; try assumption. apply cls_eqb_eq. exact Hty. }
  split; intros contents sr.
  - unfold build_chapter.
    destruct (truthy (is_before (new Chapter sr) contents));
      [left; split; reflexivity|right].
    destruct (find_parent_for_total contents (new Chapter sr) Part)
      as [H|(r & p & H & Hty & Hat)]; rewrite H; simpl.
    + left. split; [reflexivity|]. apply dead_end_raises. exact H.
    + right. exists r, p. repeat split; try assumption.
      * apply cls_eqb_eq. exact Hty.
      * apply node_at_add_at. exact Hat.
  - unfold build_section.
    destruct (truthy (is_before (new Section_ sr) contents));
      [left; split; reflexivity|right].
    destruct (find_parent_for_total contents (new Section_ sr) Chapter)
      as [H|(r & p & H & Hty & Hat)]; rewrite H; simpl.
    + left. split; [reflexivity|]. apply dead_end_raises. exact H.
    + right. exists r, p. repeat split; try assumption.
      * apply cls_eqb_eq. exact Hty.
      * apply node_at_add_at. exact Hat.
Qed.

(** *** Anchors at one position *)

Lemma break_index_shift (d : ContentsItem) (cs : list ContentsItem) (k : nat) :
  break_index d cs (S k) = option_map S (break_index d cs k).
Proof.
  revert k. induction cs as [|c cs IH]; intros k; simpl; [reflexivity|].
  destruct (truthy (is_before d c)); [reflexivity|]. apply IH.
Qed.

Lemma break_index_range (d : ContentsItem) (cs : list ContentsItem)
      (k i : nat) :
  break_index d cs k = Some i -> (k <= i < k + length cs)%nat.
Proof.
  revert k. induction cs as [|c cs IH]; intros k; simpl; [discriminate|].
  destruct (truthy (is_before d c)).
  - intros H; injection H as <-. lia.
  - intros H. apply IH in H. lia.
Qed.

Lemma parent_candidate_skip (d c : ContentsItem) (rest : list ContentsItem) :
  truthy (is_before d c) = false ->
  parent_candidate d (c :: rest) =
  Some (match parent_candidate d rest with
        | Some (index, p) => (S index, p)
        | None => (0%nat, c)
        end).
Proof.
  intros H. unfold parent_candidate. simpl break_index. rewrite H.
  rewrite break_index_shift.
  destruct (break_index d rest 0) as [index|] eqn:Hb; simpl option_map.
  - apply break_index_range in Hb.
    change (0 <? S index)%nat with true. cbv iota.
    replace (S index - 1)%nat with index by lia.
    destruct index as [|index].
    + reflexivity.
    + change (0 <? S index)%nat with true. cbv iota.
      replace (S index - 1)%nat with index by lia.
      simpl nth_error at 1.
      destruct (nth_error rest index) eqn:En; [reflexivity|].
      apply nth_error_None in En. simpl in Hb. lia.
  - destruct rest as [|c' rest]; [reflexivity|].
    cbn [length]. rewrite !Nat.sub_succ, !Nat.sub_0_r.
    change (nth_error (c :: c' :: rest) (S (length rest)))
      with (nth_error (c' :: rest) (length rest)).
    destruct (nth_error (c' :: rest) (length rest)) eqn:En; [reflexivity|].
    apply nth_error_None in En. simpl in En. lia.
Qed.

(** C4, as the code has it: a child that ties with the new anchor on all
    four keys is passed over by the scan exactly as a child the anchor
    does not precede; the candidate parent is the one found among the
    later children, or the tied child itself when there is none. *)
Theorem tie_is_read_as_not_before
        (d c : ContentsItem) (rest : list ContentsItem) :
  is_before d c = None \/ is_before d c = Some false ->
  parent_candidate d (c :: rest) =
  Some (match parent_candidate d rest with
        | Some (index, p) => (S index, p)
        | None => (0%nat, c)
        end).
Proof.
  intros H. apply parent_candidate_skip.
  destruct H as [H|H]; rewrite H; reflexivity.
Qed.

(** The theorem on the chapter anchor that ties with the first part. *)
Lemma tie_is_read_as_not_before_witness :
  is_before (new Chapter tied_chapter) sample_part = None /\
  parent_candidate (new Chapter tied_chapter) [sample_part] =
  Some (0%nat, sample_part).
Proof.
  split; [reflexivity|].
  apply (@tie_is_read_as_not_before
           (new Chapter tied_chapter) sample_part []).
  left. reflexivity.
Defined.

(** C4, as the specification words it, fails on the sample outline: the
    chapter anchor that ties with the first part is given that part as
    its parent, as is the chapter anchor strictly after the part, and it
    is attached there without any error. *)
Lemma tie_is_not_surfaced :
  nth_error (children sample_contents) 0 = Some sample_part /\
  is_before (new Chapter tied_chapter) sample_part = None /\
  is_before (new Chapter later_chapter) sample_part = Some false /\
  find_parent_for sample_contents (new Chapter tied_chapter) Part =
    Ok ([0%nat], sample_part) /\
  find_parent_for sample_contents (new Chapter later_chapter) Part =
    Ok ([0%nat], sample_part) /\
  build_chapter sample_contents tied_chapter =
    Ok (add_at sample_contents [0%nat] (new Chapter tied_chapter)).
Proof.
  repeat split; vm_compute; reflexivity.
Qed.

End OutlineFacts.

(** ** The clustering engine *)

Section WordToolsFacts.

Import WordTools.

(** *** Elements without children *)

(** C8, as the code has it: on a grouped element without children,
    reading [bounds] does not fail; it returns, and caches, four vertices
    whose coordinates are all [None].  Reading the height, the width or a
    coordinate then raises [TypeError], before and after the bounds are
    cached. *)
Theorem empty_element_reads (A : Type) `{Element A} :
  let g : GroupedElement A := {| children := []; _bounds := None |} in
  let g' : GroupedElement A :=
    {| children := []; _bounds := Some empty_bounds |} in
  bounds g = Ok (empty_bounds, g') /\
  bounds g' = Ok (empty_bounds, g') /\
  height g = Raise TypeError /\ height g' = Raise TypeError /\
  width g = Raise TypeError /\ width g' = Raise TypeError /\
  min_x g = Raise TypeError /\ max_x g = Raise TypeError /\
  min_y g = Raise TypeError /\ max_y g = Raise TypeError /\
  center g = Raise TypeError.
Proof.
  repeat split; reflexivity.
Qed.

(** C8, as the specification words it, fails on a new line and on a new
    group: reading their bounds returns a box of [None] coordinates. *)
Lemma empty_bounds_are_returned :
  is_empty new_Line = true /\
  bounds new_Line =
    Ok (empty_bounds, {| children := []; _bounds := Some empty_bounds |}) /\
  is_empty new_LineGroup = true /\
  bounds new_LineGroup =
    Ok (empty_bounds, {| children := []; _bounds := Some empty_bounds |}).
Proof.
  repeat split; reflexivity.
Qed.

(** *** Removal by identity *)

Lemma remove_fresh {A} (pre l : list (nat * A)) (k : nat) (a : A) :
  (forall p, In p pre -> fst p <> k) ->
  remove k (pre ++ (k, a) :: l) = Ok (pre ++ l).
Proof.
  induction pre as [|[id b] pre IH]; intros Hpre; simpl.
  - rewrite Nat.eqb_refl. reflexivity.
  - destruct (Nat.eqb_spec id k) as [E|E].
    + exfalso. apply (Hpre (id, b)); [left; reflexivity|exact E].
    + rewrite IH; [reflexivity|].
      intros p Hp. apply Hpre. right. exact Hp.
Qed.

Lemma remove_each_select {A} (mask : list bool) (xs : list A) (k : nat)
      (pre : list (nat * A)) :
  length mask = length xs ->
  (forall p, In p pre -> (fst p < k)%nat) ->
  remove_each (select mask (seq k (length xs)))
              (pre ++ combine (seq k (length xs)) xs) =
  Ok (pre ++ select (map negb mask) (combine (seq k (length xs)) xs)).
Proof.
  revert xs k pre.
  induction mask as [|flag mask IH]; intros [|a xs] k pre Hlen Hpre;
    try discriminate; simpl.
  - reflexivity.
  - injection Hlen as Hlen. destruct flag; simpl.
    + rewrite remove_fresh.
      * simpl. apply IH; [exact Hlen|].
        intros p Hp. specialize (Hpre p Hp). lia.
      * intros p Hp. specialize (Hpre p Hp). lia.
    + specialize (IH xs (S k) (pre ++ [(k, a)]) Hlen).
      rewrite <- !app_assoc in IH. simpl in IH. apply IH.
      intros p Hp. apply in_app_or in Hp. destruct Hp as [Hp|[<-|[]]].
      * specialize (Hpre p Hp). lia.
      * simpl. lia.
Qed.

Lemma select_combine_snd {A} (mask : list bool) (xs : list A) (k : nat) :
  map snd (select mask (combine (seq k (length xs)) xs)) = select mask xs.
Proof.
  revert xs k. induction mask as [|flag mask IH]; intros [|a xs] k; simpl;
    try reflexivity.
  destruct flag; simpl; rewrite IH; reflexivity.
Qed.

(** Removing the marked objects leaves the others, in order. *)
Lemma remove_all_select {A} (mask : list bool) (xs : list A) :
  length mask = length xs ->
  remove_all (select mask (seq 0 (length xs))) xs =
  Ok (select (map negb mask) xs).
Proof.
  intros Hlen. unfold remove_all, enumerate.
  pose proof (@remove_each_select A mask xs 0%nat [] Hlen) as H.
  cbn [app] in H. rewrite H by (intros p []).
  cbn [fmap bind]. rewrite select_combine_snd. reflexivity.
Qed.

(** *** Trimming *)

Section Cleanup.

Variable r : regex.

Lemma trim_stack_drop (stack : list Word) :
  trim_stack (Some r) stack = Ok (drop_ignorable r stack).
Proof.
  induction stack as [|word stack IH]; [reflexivity|].
  cbn [trim_stack drop_ignorable fullmatch bind]. unfold ignorable.
  destruct (r (text word)); [exact IH|reflexivity].
Qed.

Lemma do_trim_line_words_drop (ws : list Word) :
  do_trim_line_words (Some r) ws = Ok (rev (drop_ignorable r (rev ws))).
Proof.
  unfold do_trim_line_words. rewrite trim_stack_drop. reflexivity.
Qed.

Lemma is_empty_nil {A} (g : GroupedElement A) :
  is_empty g = true <-> children g = [].
Proof.
  unfold is_empty. destruct (children g); simpl; split; congruence.
Qed.

Lemma trim_line_ends (line : Line) :
  trim_line (Some r) line =
  Ok (if is_empty line then line
      else {| children := trim_ends r (children line); _bounds := None |}).
Proof.
  unfold trim_line. destruct (is_empty line) eqn:E; [reflexivity|].
  rewrite do_trim_line_words_drop, rev_involutive. cbn [bind].
  unfold trim_ends.
  destruct (drop_ignorable r (children line)) as [|w ws] eqn:Ed.
  - reflexivity.
  - assert (Hne : is_empty (set_children line (rev (w :: ws))) = false).
    { unfold is_empty, set_children. cbn [children].
      rewrite length_rev. reflexivity. }
    rewrite Hne. cbn [negb]. rewrite do_trim_line_words_drop.
    rewrite rev_involutive. reflexivity.
Qed.

Lemma words_to_remove_mask (ws : list Word) (k : nat) (matched : bool) :
  words_to_remove (Some r) (combine (seq k (length ws)) ws) matched =
  Ok (select (run_mask r matched ws) (seq k (length ws))).
Proof.
  revert k matched. induction ws as [|word ws IH]; intros k matched;
    [reflexivity|].
  cbn [length seq combine words_to_remove run_mask fullmatch bind].
  unfold ignorable. destruct (r (text word)).
  - rewrite IH. cbn [bind select]. destruct matched; reflexivity.
  - rewrite IH. reflexivity.
Qed.

Lemma run_mask_length (ws : list Word) (matched : bool) :
  length (run_mask r matched ws) = length ws.
Proof.
  revert matched. induction ws as [|word ws IH]; intros matched; simpl;
    [reflexivity|].
  destruct (ignorable r word); simpl; rewrite IH; reflexivity.
Qed.

Lemma select_run_mask (ws : list Word) (matched : bool) :
  select (map negb (run_mask r matched ws)) ws = collapse_runs r matched ws.
Proof.
  revert matched. induction ws as [|word ws IH]; intros matched; simpl;
    [reflexivity|].
  destruct (ignorable r word); simpl.
  - destruct matched; simpl; rewrite IH; reflexivity.
  - rewrite IH. reflexivity.
Qed.

Lemma clean_line_cleaned (line : Line) :
  clean_line (Some r) line =
  Ok (if is_empty line then (line, true)
      else (cleaned_line r line, is_empty (cleaned_line r line))).
Proof.
  unfold clean_line. destruct (is_empty line) eqn:E; [reflexivity|].
  rewrite trim_line_ends, E. cbn [bind children]. unfold enumerate.
  rewrite words_to_remove_mask. cbn [bind].
  rewrite remove_all_select by apply run_mask_length.
  cbn [bind]. rewrite select_run_mask. reflexivity.
Qed.

Lemma clean_each_map {A} (body : A -> result (A * bool))
      (f : A -> A * bool) (xs : list A) (k : nat) :
  (forall a, body a = Ok (f a)) ->
  clean_each body (combine (seq k (length xs)) xs) =
  Ok (map (fun a => fst (f a)) xs,
      select (map (fun a => snd (f a)) xs) (seq k (length xs))).
Proof.
  intros Hbody. revert k. induction xs as [|a xs IH]; intros k;
    [reflexivity|].
  cbn [length seq combine clean_each map select].
  rewrite Hbody, IH. destruct (f a) as [a' flag]. cbn [bind fst snd].
  destruct flag; reflexivity.
Qed.

Lemma cleaned_line_of_empty (line : Line) :
  is_empty line = true -> nonempty (cleaned_line r line) = false.
Proof.
  intros H. apply is_empty_nil in H. unfold nonempty, cleaned_line, is_empty.
  cbn [children]. rewrite H. reflexivity.
Qed.

Lemma select_kept_lines (ls : list Line) :
  let f := fun line : Line =>
             if is_empty line then (line, true)
             else (cleaned_line r line, is_empty (cleaned_line r line)) in
  select (map negb (map (fun a => snd (f a)) ls))
         (map (fun a => fst (f a)) ls) =
  filter nonempty (map (cleaned_line r) ls).
Proof.
  cbv zeta. induction ls as [|line ls IH]; [reflexivity|].
  cbn [map select filter].
  destruct (is_empty line) eqn:E; cbn [fst snd negb].
  - rewrite (cleaned_line_of_empty _ E). exact IH.
  - unfold nonempty at 1.
    destruct (is_empty (cleaned_line r line)); cbn [negb]; rewrite IH;
      reflexivity.
Qed.

Lemma clean_group_cleaned (group : LineGroup) :
  clean_group (Some r) group =
  Ok (cleaned_group r group, is_empty (cleaned_group r group)).
Proof.
  unfold clean_group, enumerate.
  rewrite (@clean_each_map _ _ _ (children group) 0%nat clean_line_cleaned). cbn [bind].
  match goal with
  | |- context [remove_all (select ?m (seq 0 (length ?xs))) ?ys] =>
      replace (length xs) with (length ys) by (rewrite length_map; reflexivity);
      rewrite (@remove_all_select _ m ys)
        by (rewrite !length_map; reflexivity)
  end.
  cbn [bind]. rewrite select_kept_lines. reflexivity.
Qed.

Lemma select_kept_groups (gs : list LineGroup) :
  let f := fun g : LineGroup =>
             (cleaned_group r g, is_empty (cleaned_group r g)) in
  select (map negb (map (fun a => snd (f a)) gs))
         (map (fun a => fst (f a)) gs) =
  filter nonempty (map (cleaned_group r) gs).
Proof.
  cbv zeta. induction gs as [|g gs IH]; [reflexivity|].
  cbn [map select filter]. cbv beta. cbn [fst snd]. unfold nonempty at 1.
  destruct (is_empty (cleaned_group r g)); cbn [negb select];
    [exact IH|f_equal; exact IH].
Qed.

Lemma clean_words_cleaned (groups : list LineGroup) :
  clean_words (Some r) groups =
  Ok (filter nonempty (map (cleaned_group r) groups)).
Proof.
  unfold clean_words, enumerate.
  rewrite (@clean_each_map _ _ _ groups 0%nat clean_group_cleaned). cbn [bind].
  match goal with
  | |- context [remove_all (select ?m (seq 0 (length ?xs))) ?ys] =>
      replace (length xs) with (length ys) by (rewrite length_map; reflexivity);
      rewrite (@remove_all_select _ m ys)
        by (rewrite !length_map; reflexivity)
  end.
  rewrite select_kept_groups. reflexivity.
Qed.

(** What trimming removes and what it leaves. *)

Lemma drop_ignorable_split (l : list Word) :
  exists pre, l = pre ++ drop_ignorable r l /\
              forallb (ignorable r) pre = true.
Proof.
  induction l as [|w l (pre & IH & Hpre)]; [exists []; split; reflexivity|].
  cbn [drop_ignorable]. destruct (ignorable r w) eqn:E.
  - exists (w :: pre). cbn [app forallb]. rewrite E, Hpre, <- IH.
    split; reflexivity.
  - exists []. split; reflexivity.
Qed.

Lemma drop_ignorable_head (l : list Word) (w : Word) :
  hd_error (drop_ignorable r l) = Some w -> ignorable r w = false.
Proof.
  induction l as [|a l IH]; [discriminate|].
  cbn [drop_ignorable]. destruct (ignorable r a) eqn:E; [exact IH|].
  intros H; injection H as <-. exact E.
Qed.

Lemma forallb_rev {A} (f : A -> bool) (l : list A) :
  forallb f (rev l) = forallb f l.
Proof.
  induction l as [|a l IH]; [reflexivity|].
  cbn [rev forallb]. rewrite forallb_app, IH. cbn [forallb].
  destruct (f a), (forallb f l); reflexivity.
Qed.

Lemma trim_ends_split (l : list Word) :
  exists pre post,
    l = pre ++ trim_ends r l ++ post /\
    forallb (ignorable r) pre = true /\
    forallb (ignorable r) post = true /\
    (forall w, hd_error (trim_ends r l) = Some w -> ignorable r w = false) /\
    (forall w, hd_error (rev (trim_ends r l)) = Some w ->
               ignorable r w = false).
Proof.
  unfold trim_ends.
  destruct (drop_ignorable_split l) as (pre & Hl & Hpre).
  destruct (drop_ignorable_split (rev (drop_ignorable r l)))
    as (post & Hd & Hpost).
  exists pre, (rev post).
  assert (Hd' : drop_ignorable r l =
                rev (drop_ignorable r (rev (drop_ignorable r l))) ++ rev post).
  { rewrite <- rev_app_distr, <- Hd, rev_involutive. reflexivity. }
  repeat split.
  - rewrite <- Hd'. exact Hl.
  - exact Hpre.
  - rewrite forallb_rev. exact Hpost.
  - intros w Hw. apply (drop_ignorable_head l).
    rewrite Hd'.
    destruct (rev (drop_ignorable r (rev (drop_ignorable r l))));
      [discriminate|exact Hw].
  - intros w. rewrite rev_involutive. apply drop_ignorable_head.
Qed.

Lemma collapse_runs_keeps_words (matched : bool) (l : list Word) :
  filter (fun w => negb (ignorable r w)) (collapse_runs r matched l) =
  filter (fun w => negb (ignorable r w)) l.
Proof.
  revert matched. induction l as [|w l IH]; intros matched; [reflexivity|].
  cbn [collapse_runs filter]. destruct (ignorable r w) eqn:E; cbn [negb].
  - destruct matched; cbn [filter]; rewrite ?E; cbn [negb]; apply IH.
  - cbn [filter]. rewrite E. cbn [negb]. rewrite IH. reflexivity.
Qed.

End Cleanup.

(** C1, as the code has it: the cleanup pass trims each line from both
    ends inward until a word that does not match the ignore pattern
    stands at each end, then removes, inside the line, every matching
    word that directly follows a matching word, so that a run of matching
    words is reduced to its first word; the other words are kept in
    order.  Lines left empty are removed from their group and groups left
    without lines from the output. *)
Theorem clean_words_trims_and_collapses (r : regex) :
  (forall groups : list LineGroup,
      clean_words (Some r) groups =
      Ok (filter nonempty (map (cleaned_group r) groups))) /\
  (forall group : LineGroup,
      children (cleaned_group r group) =
      filter nonempty (map (cleaned_line r) (children group))) /\
  (forall line : Line,
      children (cleaned_line r line) =
      collapse_runs r false (trim_ends r (children line))) /\
  (forall l : list Word,
      exists pre post,
        l = pre ++ trim_ends r l ++ post /\
        forallb (ignorable r) pre = true /\
        forallb (ignorable r) post = true /\
        (forall w, hd_error (trim_ends r l) = Some w ->
                   ignorable r w = false) /\
        (forall w, hd_error (rev (trim_ends r l)) = Some w ->
                   ignorable r w = false)) /\
  (forall l : list Word,
      filter (fun w => negb (ignorable r w)) (collapse_runs r false l) =
      filter (fun w => negb (ignorable r w)) l).
Proof.
  split; [apply clean_words_cleaned|].
  split; [reflexivity|].
  split; [reflexivity|].
  split; [apply trim_ends_split|].
  apply collapse_runs_keeps_words.
Qed.

(** C1, as the specification words it, fails on the line
    [Intro . . 5]: nothing is trimmed at its ends, the two dot leaders
    are not at an end of the line, and the second one is removed. *)
Lemma interior_run_is_collapsed :
  map (ignorable GROUP_IGNORE) dotted_line = [false; true; true; false] /\
  trim_ends GROUP_IGNORE dotted_line = dotted_line /\
  clean_words (Some GROUP_IGNORE) [fresh_group [dotted_line]] =
    Ok [fresh_group [[w_intro; w_dot1; w_five]]] /\
  group_words 100 100 dotted_line (Some GROUP_IGNORE) None =
    Ok [fresh_group [[w_intro; w_dot1; w_five]]].
Proof.
  repeat split; vm_compute; reflexivity.
Qed.


(** *** Reading bounds *)

#[export] Instance Word_Stable : @Stable Word _.
Proof. intros a b a' H. injection H as <- <-. reflexivity. Qed.

#[export] Instance Bounds_Stable : @Stable Bounds _.
Proof. intros a b a' H. injection H as <- <-. reflexivity. Qed.

#[export] Instance Grouped_Stable (A : Type) `{Element A}
  : @Stable (GroupedElement A) _.
Proof.
  intros a b a' H0. cbn [bounds GroupedElement_Element] in *.
  unfold grouped_bounds in *.
  destruct (_bounds a) as [c|] eqn:E.
  - injection H0 as <- <-. rewrite E. reflexivity.
  - destruct (each min_x (children a)) as [[vs1 cs1]|]; [|discriminate].
    cbn [bind] in H0.
    destruct (each max_x cs1) as [[vs2 cs2]|]; [|discriminate].
    cbn [bind] in H0.
    destruct (each min_y cs2) as [[vs3 cs3]|]; [|discriminate].
    cbn [bind] in H0.
    destruct (each max_y cs3) as [[vs4 cs4]|]; [|discriminate].
    cbn [bind] in H0. injection H0 as <- <-. reflexivity.
Qed.

Section Factor.

Context {A : Type} `{Stable A}.

Lemma solid_numbers (axis : Axis) (b : Bounds) :
  solid b -> exists vs, numbers (map (get axis) (vertices b)) = Some vs.
Proof.
  destruct b as [[[v0 v1] v2] v3]. unfold solid; cbn [vertices].
  intros Hs.
  repeat match goal with
         | Hs : Forall _ (_ :: _) |- _ => inversion Hs; subst; clear Hs
         end.
  repeat match goal with
         | Hv : solid_vertex _ |- _ => destruct Hv as [[? ?] [? ?]]
         end.
  destruct axis; cbn [map get numbers];
    repeat match goal with E : _ = Some _ |- _ => rewrite E; clear E end;
    cbn [numbers option_map]; eauto.
Qed.

Lemma factors_coordinates (axis : Axis) :
  factors (coordinates axis) (coordinates axis).
Proof.
  repeat split.
  - intros a. unfold coordinates at 1.
    destruct (bounds a) as [[b a']|e]; [|reflexivity]. cbn [bind].
    unfold measure, coordinates. cbn [bounds Bounds_Element bind fmap].
    destruct (sorted (map (get axis) (vertices b))); reflexivity.
  - intros b v b'. unfold coordinates. cbn [bounds Bounds_Element bind].
    destruct (sorted (map (get axis) (vertices b))); cbn [bind];
      [|discriminate].
    intros E; injection E as _ <-. reflexivity.
  - intros b Hs. unfold coordinates. cbn [bounds Bounds_Element bind].
    unfold sorted. destruct (solid_numbers axis Hs) as [vs ->].
    cbn [bind]. eauto.
Qed.

Lemma factors_map {X Y} (g : X -> Y) (m : A -> result (X * A))
      (mb : Bounds -> result (X * Bounds)) :
  factors m mb ->
  factors (fun a => '(x, a) <- m a ;; Ok (g x, a))
          (fun b => '(x, b) <- mb b ;; Ok (g x, b)).
Proof.
  intros (Hm & Hb & Ht). repeat split.
  - intros a. rewrite Hm.
    destruct (bounds a) as [[b a']|e]; [|reflexivity]. cbn [bind].
    unfold measure, fmap.
    destruct (mb b) as [[x b']|e]; reflexivity.
  - intros b v b'. destruct (mb b) as [[x b1]|e] eqn:E; cbn [bind];
      [|discriminate].
    intros E'; injection E' as _ <-. eapply Hb; eauto.
  - intros b Hs. destruct (Ht b Hs) as [x ->]. cbn [bind]. eauto.
Qed.

Lemma factors_pair {X Y Z} (f : X -> Y -> Z)
      (m1 : A -> result (X * A)) (mb1 : Bounds -> result (X * Bounds))
      (m2 : A -> result (Y * A)) (mb2 : Bounds -> result (Y * Bounds)) :
  factors m1 mb1 -> factors m2 mb2 ->
  factors (fun a => '(x, a) <- m1 a ;; '(y, a) <- m2 a ;; Ok (f x y, a))
          (fun b => '(x, b) <- mb1 b ;; '(y, b) <- mb2 b ;; Ok (f x y, b)).
Proof.
  intros (Hm1 & Hb1 & Ht1) (Hm2 & Hb2 & Ht2). repeat split.
  - intros a. rewrite Hm1.
    destruct (bounds a) as [[b a']|e] eqn:Ea; [|reflexivity]. cbn [bind].
    apply stable in Ea.
    unfold measure, fmap.
    destruct (mb1 b) as [[x b1]|e] eqn:E1; cbn [bind fst]; [|reflexivity].
    apply Hb1 in E1. subst b1.
    rewrite Hm2, Ea. cbn [bind]. unfold measure, fmap.
    destruct (mb2 b) as [[y b2]|e]; reflexivity.
  - intros b v b'. destruct (mb1 b) as [[x b1]|e] eqn:E1; cbn [bind];
      [|discriminate].
    apply Hb1 in E1. subst b1.
    destruct (mb2 b) as [[y b2]|e] eqn:E2; cbn [bind]; [|discriminate].
    apply Hb2 in E2. subst b2.
    intros E'; injection E' as _ <-. reflexivity.
  - intros b Hs. destruct (Ht1 b Hs) as [x ->]. cbn [bind].
    destruct (Ht2 b Hs) as [y ->]. cbn [bind]. eauto.
Qed.

Lemma factors_min_x : factors min_x min_x.
Proof.
  exact (factors_map (fun vs => (sum (firstn 2 vs) / 2)%Q)
                     (factors_coordinates AxisX)).
Qed.

Lemma factors_max_x : factors max_x max_x.
Proof.
  exact (factors_map (fun vs => (sum (skipn 2 vs) / 2)%Q)
                     (factors_coordinates AxisX)).
Qed.

Lemma factors_min_y : factors min_y min_y.
Proof.
  exact (factors_map (fun vs => (sum (firstn 2 vs) / 2)%Q)
                     (factors_coordinates AxisY)).
Qed.

Lemma factors_max_y : factors max_y max_y.
Proof.
  exact (factors_map (fun vs => (sum (skipn 2 vs) / 2)%Q)
                     (factors_coordinates AxisY)).
Qed.

Lemma factors_height : factors height height.
Proof.
  exact (factors_pair (fun hi lo => Qabs (hi - lo))
                      factors_max_y factors_min_y).
Qed.

Lemma factors_width : factors width width.
Proof.
  exact (factors_pair (fun hi lo => Qabs (hi - lo))
                      factors_max_x factors_min_x).
Qed.

Lemma factors_center_x : factors center_x center_x.
Proof.
  exact (factors_pair (fun lo w => (lo + w / 2)%Q)
                      factors_min_x factors_width).
Qed.

Lemma factors_center_y : factors center_y center_y.
Proof.
  exact (factors_pair (fun lo h => (lo + h / 2)%Q)
                      factors_min_y factors_height).
Qed.

Lemma factors_center : factors center center.
Proof.
  exact (factors_pair (fun cx cy => (cx, cy))
                      factors_center_x factors_center_y).
Qed.

(** What a read gives once the bounds are known. *)
Lemma factors_read {X} (m : A -> result (X * A))
      (mb : Bounds -> result (X * Bounds)) (a a' : A) (b : Bounds) :
  factors m mb -> bounds a = Ok (b, a') -> solid b ->
  exists v, measure mb b = Ok v /\ m a = Ok (v, a').
Proof.
  intros (Hm & _ & Ht) Ha Hs. destruct (Ht b Hs) as [v Hv].
  exists v. rewrite Hm, Ha. cbn [bind]. unfold measure, fmap.
  rewrite Hv. split; reflexivity.
Qed.

End Factor.

(** *** The bounds of words, lines and groups *)

Lemma word_solid (w : Word) : solid (word_bounds w).
Proof.
  unfold word_bounds. destruct (word_vertices w) as [[[a b] c] d].
  unfold solid; cbn [vertices].
  repeat constructor; cbn [vertex_of get_x get_y]; eauto.
Qed.

Lemma word_read {X} (m : Word -> result (X * Word))
      (mb : Bounds -> result (X * Bounds)) (w : Word) :
  factors m mb ->
  exists v, measure mb (word_bounds w) = Ok v /\ m w = Ok (v, w).
Proof.
  intros Hf. apply (factors_read w Hf); [reflexivity|apply word_solid].
Qed.

Lemma each_words (m : Word -> result (Q * Word))
      (mb : Bounds -> result (Q * Bounds)) (ws : list Word) :
  factors m mb ->
  exists vs, each m ws = Ok (vs, ws) /\ length vs = length ws.
Proof.
  intros Hf. induction ws as [|w ws (vs & IH & Hlen)].
  - exists []. split; reflexivity.
  - destruct (word_read w Hf) as (v & _ & Hv).
    exists (v :: vs). cbn [each]. rewrite Hv. cbn [bind]. rewrite IH.
    cbn [bind length]. rewrite Hlen. split; reflexivity.
Qed.

Lemma list_min_some (vs : list Q) :
  vs <> [] -> exists q, list_min vs = Some q.
Proof. destruct vs as [|a [|b vs]]; [congruence| |]; cbn; eauto. Qed.

Lemma list_max_some (vs : list Q) :
  vs <> [] -> exists q, list_max vs = Some q.
Proof. destruct vs as [|a [|b vs]]; [congruence| |]; cbn; eauto. Qed.

Lemma box_of_solid (v1 v2 v3 v4 : list Q) :
  v1 <> [] -> v2 <> [] -> v3 <> [] -> v4 <> [] -> solid (box_of v1 v2 v3 v4).
Proof.
  intros H1 H2 H3 H4.
  destruct (list_min_some H1) as [q1 E1], (list_max_some H2) as [q2 E2],
    (list_min_some H3) as [q3 E3], (list_max_some H4) as [q4 E4].
  unfold box_of, solid. rewrite E1, E2, E3, E4. cbn [vertices].
  repeat constructor; cbn [get_x get_y]; eauto.
Qed.

Lemma length_nonnil {X Y} (l : list X) (l' : list Y) :
  length l = length l' -> l' <> [] -> l <> [].
Proof. destruct l, l'; simpl; congruence. Qed.

Lemma fresh_line_bounds (ws : list Word) :
  ws <> [] ->
  exists b, solid b /\
            bounds (fresh_line ws) =
            Ok (b, {| children := ws; _bounds := Some b |}).
Proof.
  intros Hne.
  destruct (each_words ws factors_min_x) as (v1 & E1 & L1).
  destruct (each_words ws factors_max_x) as (v2 & E2 & L2).
  destruct (each_words ws factors_min_y) as (v3 & E3 & L3).
  destruct (each_words ws factors_max_y) as (v4 & E4 & L4).
  exists (box_of v1 v2 v3 v4). split.
  - apply box_of_solid; eapply length_nonnil; eauto.
  - cbn [bounds GroupedElement_Element]. unfold grouped_bounds, fresh_line.
    cbn [_bounds children]. rewrite E1. cbn [bind]. rewrite E2. cbn [bind].
    rewrite E3. cbn [bind]. rewrite E4. reflexivity.
Qed.

Lemma measure_ok {A X} (m : A -> result (X * A)) (a a' : A) (v : X) :
  m a = Ok (v, a') -> measure m a = Ok v.
Proof. unfold measure, fmap. intros ->. reflexivity. Qed.

Lemma measure_inv {A X} (m : A -> result (X * A)) (a : A) (v : X) :
  measure m a = Ok v -> exists a', m a = Ok (v, a').
Proof.
  unfold measure, fmap. destruct (m a) as [[x a']|e]; cbn [bind fst];
    [|discriminate].
  intros E; injection E as <-. eauto.
Qed.

Lemma line_read (l : Line) :
  sound_line l ->
  exists b, solid b /\
            measure bounds (fresh_line (children l)) = Ok b /\
            bounds l = Ok (b, {| children := children l; _bounds := Some b |}).
Proof.
  intros [Hne Hco]. destruct (fresh_line_bounds Hne) as (b0 & Hs & Hb).
  destruct l as [ws [b|]]; cbn [children] in *.
  - assert (Hm0 : measure bounds (fresh_line ws) = Ok b0)
      by (eapply measure_ok; exact Hb).
    specialize (Hco b eq_refl). cbn [children] in Hco.
    rewrite Hm0 in Hco. injection Hco as <-.
    exists b0. repeat split; assumption.
  - exists b0. repeat split; try assumption. eapply measure_ok; eauto.
Qed.

Lemma line_filled (l : Line) :
  sound_line l ->
  exists b, solid b /\ bounds l = Ok (b, filled l) /\
            measure bounds (fresh_line (children l)) = Ok b /\
            filled l = {| children := children l; _bounds := Some b |}.
Proof.
  intros Hs. destruct (line_read Hs) as (b & Hb & Hm & Hl).
  exists b. unfold filled. rewrite Hl. repeat split; assumption.
Qed.

Lemma filled_sound (l : Line) : sound_line l -> sound_line (filled l).
Proof.
  intros Hs. destruct (line_filled Hs) as (b & _ & _ & Hm & ->).
  destruct Hs as [Hne _]. split; cbn [children]; [exact Hne|].
  intros b' E. cbn [_bounds] in E. injection E as <-. exact Hm.
Qed.

Lemma filled_children (l : Line) :
  sound_line l -> children (filled l) = children l.
Proof.
  intros Hs. destruct (line_filled Hs) as (b & _ & _ & _ & ->). reflexivity.
Qed.

Lemma filled_filled (l : Line) : sound_line l -> filled (filled l) = filled l.
Proof.
  intros Hs. destruct (line_filled Hs) as (b & _ & Hb & _ & _).
  apply stable in Hb. unfold filled at 1. rewrite Hb. reflexivity.
Qed.

Lemma fresh_line_sound (ws : list Word) : ws <> [] -> sound_line (fresh_line ws).
Proof. intros H. split; [exact H|]. intros b E. discriminate E. Qed.

(** A property read on a sound line gives what its words give. *)
Lemma line_measure {X} (m : Line -> result (X * Line))
      (mb : Bounds -> result (X * Bounds)) (l : Line) :
  factors m mb -> sound_line l ->
  exists v, measure m (fresh_line (children l)) = Ok v /\
            m l = Ok (v, filled l).
Proof.
  intros Hf Hs. destruct (line_filled Hs) as (b & Hb & Hl & Hm & _).
  destruct (factors_read l Hf Hl Hb) as (v & Hv & Hr).
  exists v. split; [|exact Hr].
  apply measure_inv in Hm. destruct Hm as [l' Hl'].
  destruct (factors_read _ Hf Hl' Hb) as (v' & Hv' & Hr').
  rewrite Hv in Hv'. injection Hv' as <-.
  eapply measure_ok; eauto.
Qed.

Lemma each_lines (m : Line -> result (Q * Line))
      (mb : Bounds -> result (Q * Bounds)) (ls : list Line) :
  factors m mb -> Forall sound_line ls ->
  exists vs, each m ls = Ok (vs, map filled ls) /\
             Forall2 (fun ws v => measure m (fresh_line ws) = Ok v)
                     (map children ls) vs.
Proof.
  intros Hf Hs. induction Hs as [|l ls Hl _ (vs & IH & Hvs)].
  - exists []. split; [reflexivity|constructor].
  - destruct (line_measure Hf Hl) as (v & Hv & Hr).
    exists (v :: vs). cbn [each map]. rewrite Hr. cbn [bind]. rewrite IH.
    cbn [bind]. split; [reflexivity|]. constructor; assumption.
Qed.

Lemma values_agree {X Y} (R : X -> Y -> Prop) (xs : list X) (vs vs' : list Y) :
  (forall x v v', R x v -> R x v' -> v = v') ->
  Forall2 R xs vs -> Forall2 R xs vs' -> vs = vs'.
Proof.
  intros HR H. revert vs'. induction H as [|x v xs vs Hxv _ IH];
    intros vs' H'; inversion H'; subst; [reflexivity|].
  f_equal; [eapply HR; eauto|apply IH; assumption].
Qed.

Lemma Forall2_nonnil {X Y} (R : X -> Y -> Prop) (xs : list X) (vs : list Y) :
  Forall2 R xs vs -> xs <> [] -> vs <> [].
Proof. intros [|]; congruence. Qed.

Lemma map_filled_sound (ls : list Line) :
  Forall sound_line ls -> Forall sound_line (map filled ls).
Proof.
  intros H. apply Forall_map. eapply Forall_impl; [|exact H].
  apply filled_sound.
Qed.

Lemma map_filled_filled (ls : list Line) :
  Forall sound_line ls -> map filled (map filled ls) = map filled ls.
Proof.
  intros H. rewrite map_map. apply map_ext_Forall.
  eapply Forall_impl; [|exact H]. apply filled_filled.
Qed.

Lemma map_filled_children (ls : list Line) :
  Forall sound_line ls -> map children (map filled ls) = map children ls.
Proof.
  intros H. rewrite map_map. apply map_ext_Forall.
  eapply Forall_impl; [|exact H]. apply filled_children.
Qed.

(** The bounds computed for a group whose lines are sound. *)
Lemma lines_bounds (ls : list Line) :
  ls <> [] -> Forall sound_line ls ->
  exists v1 v2 v3 v4,
    Forall2 (fun ws v => measure min_x (fresh_line ws) = Ok v)
            (map children ls) v1 /\
    Forall2 (fun ws v => measure max_x (fresh_line ws) = Ok v)
            (map children ls) v2 /\
    Forall2 (fun ws v => measure min_y (fresh_line ws) = Ok v)
            (map children ls) v3 /\
    Forall2 (fun ws v => measure max_y (fresh_line ws) = Ok v)
            (map children ls) v4 /\
    solid (box_of v1 v2 v3 v4) /\
    bounds {| children := ls; _bounds := None |} =
    Ok (box_of v1 v2 v3 v4,
        {| children := map filled ls;
           _bounds := Some (box_of v1 v2 v3 v4) |}).
Proof.
  intros Hne Hs.
  pose proof (map_filled_sound Hs) as Hs'.
  pose proof (map_filled_filled Hs) as Hff.
  pose proof (map_filled_children Hs) as Hfc.
  destruct (each_lines factors_min_x Hs) as (v1 & E1 & F1).
  destruct (each_lines factors_max_x Hs') as (v2 & E2 & F2).
  destruct (each_lines factors_min_y Hs') as (v3 & E3 & F3).
  destruct (each_lines factors_max_y Hs') as (v4 & E4 & F4).
  rewrite Hff in E2, E3, E4. rewrite Hfc in F2, F3, F4.
  exists v1, v2, v3, v4. repeat (split; [assumption|]).
  assert (Hm : map children ls <> []) by (destruct ls; [congruence|discriminate]).
  split.
  - apply box_of_solid; eapply Forall2_nonnil; eauto.
  - cbn [bounds GroupedElement_Element]. unfold grouped_bounds.
    cbn [_bounds children]. rewrite E1. cbn [bind]. rewrite E2. cbn [bind].
    rewrite E3. cbn [bind]. rewrite E4. reflexivity.
Qed.

Lemma Ok_inj {X} (a b : X) : Ok a = Ok b -> a = b.
Proof. intros E; injection E as ->; reflexivity. Qed.

Lemma group_read (g : LineGroup) :
  _bounds g = None -> children g <> [] -> Forall sound_line (children g) ->
  exists b, solid b /\
            measure bounds (fresh_group (content g)) = Ok b /\
            bounds g = Ok (b, {| children := map filled (children g);
                                 _bounds := Some b |}).
Proof.
  intros Hc Hne Hs. destruct g as [ls cache]. cbn [_bounds children] in *.
  subst cache.
  destruct (lines_bounds Hne Hs) as (v1 & v2 & v3 & v4 & F1 & F2 & F3 & F4 & Hb & Hr).
  exists (box_of v1 v2 v3 v4). split; [exact Hb|]. split; [|exact Hr].
  unfold fresh_group, content. cbn [children].
  assert (Hs' : Forall sound_line (map fresh_line (map children ls))).
  { apply Forall_map. apply Forall_map.
    eapply Forall_impl; [|exact Hs].
    intros l [Hl _]. apply fresh_line_sound. exact Hl. }
  assert (Hne' : map fresh_line (map children ls) <> [])
    by (destruct ls; [congruence|discriminate]).
  destruct (lines_bounds Hne' Hs')
    as (u1 & u2 & u3 & u4 & G1 & G2 & G3 & G4 & _ & Hr').
  assert (Hcc : map children (map fresh_line (map children ls)) =
                map children ls).
  { rewrite map_map. exact (map_id (map children ls)). }
  rewrite Hcc in G1, G2, G3, G4.
  assert (Hfun : forall (m : Line -> result (Q * Line)) ws v v',
             measure m (fresh_line ws) = Ok v ->
             measure m (fresh_line ws) = Ok v' -> v = v')
    by (intros m ws v v' -> E; apply Ok_inj in E; exact E).
  rewrite (values_agree (Hfun min_x) G1 F1), (values_agree (Hfun max_x) G2 F2),
    (values_agree (Hfun min_y) G3 F3), (values_agree (Hfun max_y) G4 F4) in Hr'.
  eapply measure_ok. exact Hr'.
Qed.

(** *** The tests of the grouping loop *)

Lemma Qlt_bool_negb (a b : Q) : Qlt_bool a b = negb (Qle_bool b a).
Proof.
  destruct (Qle_bool b a) eqn:E; cbn [negb].
  - apply Qlt_bool_false_iff. apply Qle_bool_iff. exact E.
  - apply Qlt_bool_iff. apply Qnot_le_lt. intros H.
    apply Qle_bool_iff in H. congruence.
Qed.

Lemma line_get {X} (m : Line -> result (X * Line))
      (mb : Bounds -> result (X * Bounds)) (l : Line) (v : X) :
  factors m mb -> sound_line l ->
  measure m (fresh_line (children l)) = Ok v ->
  m l = Ok (v, filled l) /\ m (filled l) = Ok (v, filled l).
Proof.
  intros Hf Hs Hv.
  destruct (line_measure Hf Hs) as (v1 & Hv1 & Hr1).
  rewrite Hv in Hv1. injection Hv1 as <-. split; [exact Hr1|].
  destruct (line_measure Hf (filled_sound Hs)) as (v2 & Hv2 & Hr2).
  rewrite (filled_children Hs), Hv in Hv2. injection Hv2 as <-.
  rewrite (filled_filled Hs) in Hr2. exact Hr2.
Qed.

Lemma word_get {X} (m : Word -> result (X * Word))
      (mb : Bounds -> result (X * Bounds)) (w : Word) (v : X) :
  factors m mb -> measure m w = Ok v -> m w = Ok (v, w).
Proof.
  intros Hf Hv. destruct (word_read w Hf) as (v' & _ & Hr).
  rewrite (measure_ok _ _ Hr) in Hv. injection Hv as <-. exact Hr.
Qed.

Lemma word_measure {X} (m : Word -> result (X * Word))
      (mb : Bounds -> result (X * Bounds)) (w : Word) :
  factors m mb -> exists v, measure m w = Ok v.
Proof.
  intros Hf. destruct (word_read w Hf) as (v & _ & Hr).
  exists v. eapply measure_ok; eauto.
Qed.

Lemma word_in_line_run (th : Thresholds) (word : Word) (l : Line)
      (lc wc : point) (wh lh wx lx : Q) :
  sound_line l ->
  measure center (fresh_line (children l)) = Ok lc ->
  measure center word = Ok wc ->
  measure height word = Ok wh ->
  measure height (fresh_line (children l)) = Ok lh ->
  measure min_x word = Ok wx ->
  measure max_x (fresh_line (children l)) = Ok lx ->
  word_in_line th word l =
  match slope lc wc with
  | Ok s => Ok (joins_line th s wh lh wx lx, word, filled l)
  | Raise e => Raise e
  end.
Proof.
  intros Hs Hlc Hwc Hwh Hlh Hwx Hlx.
  destruct (line_get factors_center Hs Hlc) as [Hc1 _].
  destruct (line_get factors_height Hs Hlh) as [_ Hh2].
  destruct (line_get factors_max_x Hs Hlx) as [_ Hx2].
  pose proof (word_get _ factors_center Hwc) as Hc.
  pose proof (word_get _ factors_height Hwh) as Hh.
  pose proof (word_get _ factors_min_x Hwx) as Hx.
  unfold word_in_line, is_in_line.
  rewrite Hc1. cbn [bind]. rewrite Hc. cbn [bind].
  destruct (slope lc wc) as [s|e]; [|reflexivity]. cbn [bind].
  unfold joins_line. rewrite !Qlt_bool_negb.
  destruct (Qle_bool s (th_line_slope th)); cbn [negb andb bind];
    [|reflexivity].
  rewrite Hh. cbn [bind]. rewrite Hh2. cbn [bind].
  rewrite Qlt_bool_negb.
  destruct (Qle_bool (Qabs (wh - lh)) (th_height th)); cbn [negb andb bind];
    [|reflexivity].
  rewrite Hx. cbn [bind]. rewrite Hx2. cbn [bind].
  rewrite Qlt_bool_negb. reflexivity.
Qed.

Lemma group_filled (g : LineGroup) :
  _bounds g = None -> children g <> [] -> Forall sound_line (children g) ->
  exists b, solid b /\ bounds g = Ok (b, filled g) /\
            measure bounds (fresh_group (content g)) = Ok b /\
            filled g = {| children := map filled (children g);
                          _bounds := Some b |}.
Proof.
  intros Hc Hne Hs. destruct (group_read g Hc Hne Hs) as (b & Hb & Hm & Hr).
  exists b. unfold filled. rewrite Hr. repeat split; assumption.
Qed.

(** A property read on a group whose lines are sound gives what the
    words of the group give. *)
Lemma group_get {X} (m : LineGroup -> result (X * LineGroup))
      (mb : Bounds -> result (X * Bounds)) (g : LineGroup) (v : X) :
  factors m mb ->
  _bounds g = None -> children g <> [] -> Forall sound_line (children g) ->
  measure m (fresh_group (content g)) = Ok v ->
  m g = Ok (v, filled g).
Proof.
  intros Hf Hc Hne Hs Hv.
  destruct (group_filled g Hc Hne Hs) as (b & Hb & Hr & Hm & _).
  destruct (factors_read g Hf Hr Hb) as (v1 & Hv1 & Hr1).
  apply measure_inv in Hm. destruct Hm as [g' Hg'].
  destruct (factors_read _ Hf Hg' Hb) as (v2 & Hv2 & Hr2).
  rewrite (measure_ok _ _ Hr2) in Hv. injection Hv as <-.
  rewrite Hv1 in Hv2. injection Hv2 as <-. exact Hr1.
Qed.

Lemma group_measure {X} (m : LineGroup -> result (X * LineGroup))
      (mb : Bounds -> result (X * Bounds)) (g : LineGroup) :
  factors m mb ->
  _bounds g = None -> children g <> [] -> Forall sound_line (children g) ->
  exists v, measure m (fresh_group (content g)) = Ok v.
Proof.
  intros Hf Hc Hne Hs.
  destruct (group_filled g Hc Hne Hs) as (b & Hb & _ & Hm & _).
  apply measure_inv in Hm. destruct Hm as [g' Hg'].
  destruct (factors_read _ Hf Hg' Hb) as (v & _ & Hr).
  exists v. eapply measure_ok; eauto.
Qed.

Lemma line_in_group_run (th : Thresholds) (word : Word) (g : LineGroup)
      (ny gy : Q) :
  _bounds g = None -> children g <> [] -> Forall sound_line (children g) ->
  measure min_y (fresh_line [word]) = Ok ny ->
  measure max_y (fresh_group (content g)) = Ok gy ->
  line_in_group th (fresh_line [word]) g =
  Ok (joins_group th ny gy, filled (fresh_line [word]), filled g).
Proof.
  intros Hc Hne Hs Hny Hgy.
  assert (Hw : sound_line (fresh_line [word]))
    by (apply fresh_line_sound; discriminate).
  destruct (line_get factors_min_y Hw Hny) as [Hy _].
  pose proof (group_get g factors_max_y Hc Hne Hs Hgy) as Hg.
  unfold line_in_group. rewrite Hy. cbn [bind]. rewrite Hg. cbn [bind].
  unfold joins_group. rewrite Qlt_bool_negb.
  destruct (Qle_bool (Qabs (ny - gy)) (th_group th)); reflexivity.
Qed.

Lemma split_last_app {X} (l : list X) (a : X) :
  split_last (l ++ [a]) = Ok (l, a).
Proof.
  unfold split_last. rewrite rev_app_distr. cbn [rev app].
  rewrite rev_involutive. reflexivity.
Qed.

Lemma Forall_app_last {X} (P : X -> Prop) (l : list X) (a : X) :
  Forall P (l ++ [a]) <-> Forall P l /\ P a.
Proof.
  rewrite Forall_app. split; intros [H1 H2]; split; try assumption.
  - inversion H2; assumption.
  - constructor; [assumption|constructor].
Qed.

(** One turn of the loop, once the values it reads are named. *)
Lemma group_step_run (th : Thresholds) (groups : list LineGroup)
      (group : LineGroup) (lines : list Line) (last_line : Line)
      (word : Word) (lc wc : point) (wh lh wx lx ny gy : Q) :
  children group = lines ++ [last_line] ->
  _bounds group = None ->
  Forall sound_line (lines ++ [last_line]) ->
  measure center (fresh_line (children last_line)) = Ok lc ->
  measure center word = Ok wc ->
  measure height word = Ok wh ->
  measure height (fresh_line (children last_line)) = Ok lh ->
  measure min_x word = Ok wx ->
  measure max_x (fresh_line (children last_line)) = Ok lx ->
  measure min_y (fresh_line [word]) = Ok ny ->
  measure max_y (fresh_group (content group)) = Ok gy ->
  group_step th (groups ++ [group]) word =
  match slope lc wc with
  | Ok s => Ok (after_step (joins_line th s wh lh wx lx)
                           (joins_group th ny gy)
                           groups group lines last_line word)
  | Raise e => Raise e
  end.
Proof.
  intros Hch Hc Hs Hlc Hwc Hwh Hlh Hwx Hlx Hny Hgy.
  pose proof Hs as Hs0. apply Forall_app_last in Hs0.
  destruct Hs0 as [Hlines Hlast].
  unfold group_step. rewrite split_last_app. cbn [bind].
  rewrite Hch, split_last_app. cbn [bind].
  rewrite (word_in_line_run th word Hlast Hlc Hwc Hwh Hlh Hwx Hlx).
  destruct (slope lc wc) as [s|e]; [|reflexivity]. cbn [bind].
  unfold after_step.
  destruct (joins_line th s wh lh wx lx); [reflexivity|].
  change (add new_Line word) with (fresh_line [word]).
  set (group1 := set_children group (lines ++ [filled last_line])).
  assert (Hc1 : _bounds group1 = None) by exact Hc.
  assert (Hne1 : children group1 <> [])
    by (cbn [group1 set_children children]; destruct lines; discriminate).
  assert (Hs1 : Forall sound_line (children group1)).
  { cbn [group1 set_children children]. apply Forall_app_last.
    split; [exact Hlines|apply filled_sound; exact Hlast]. }
  assert (Hct : content group1 = content group).
  { unfold content. cbn [group1 set_children children].
    rewrite Hch, !map_app. cbn [map].
    rewrite (filled_children Hlast). reflexivity. }
  rewrite <- Hct in Hgy.
  rewrite (line_in_group_run th word group1 Hc1 Hne1 Hs1 Hny Hgy). cbn [bind].
  destruct (joins_group th ny gy); reflexivity.
Qed.

Lemma filled_group_content (g : LineGroup) :
  _bounds g = None -> children g <> [] -> Forall sound_line (children g) ->
  content (filled g) = content g /\
  children (filled g) = map filled (children g).
Proof.
  intros Hc Hne Hs. destruct (group_filled g Hc Hne Hs) as (b & _ & _ & _ & ->).
  unfold content. cbn [children]. split; [|reflexivity].
  apply map_filled_children. exact Hs.
Qed.

Lemma fresh_word_line (word : Word) :
  sound_line (filled (fresh_line [word])) /\
  children (filled (fresh_line [word])) = [word].
Proof.
  assert (Hw : sound_line (fresh_line [word]))
    by (apply fresh_line_sound; discriminate).
  split; [apply filled_sound; exact Hw|].
  rewrite (filled_children Hw). reflexivity.
Qed.

Section AfterStep.

Variables (groups : list LineGroup) (group : LineGroup) (lines : list Line)
          (last_line : Line) (word : Word).

Hypothesis Hcache : _bounds group = None.
Hypothesis Hsound : Forall sound_line (lines ++ [last_line]).

Let group1 : LineGroup :=
  set_children group (lines ++ [filled last_line]).

Lemma group1_facts :
  _bounds group1 = None /\ children group1 <> [] /\
  Forall sound_line (children group1) /\
  content group1 = map children lines ++ [children last_line].
Proof.
  apply Forall_app_last in Hsound. destruct Hsound as [Hlines Hlast].
  unfold group1, content. cbn [set_children _bounds children].
  repeat split.
  - exact Hcache.
  - destruct lines; discriminate.
  - apply Forall_app_last. split; [exact Hlines|].
    apply filled_sound. exact Hlast.
  - rewrite map_app. cbn [map]. rewrite (filled_children Hlast). reflexivity.
Qed.

Lemma after_step_content (in_line in_group : bool) :
  map content (after_step in_line in_group groups group lines last_line word) =
  if in_line
  then map content groups ++
       [map children lines ++ [children last_line ++ [word]]]
  else if in_group
       then map content groups ++
            [map children lines ++ [children last_line; [word]]]
       else map content groups ++
            [map children lines ++ [children last_line]; [[word]]].
Proof.
  destruct group1_facts as (Hc1 & Hne1 & Hs1 & Hct1).
  destruct (filled_group_content group1 Hc1 Hne1 Hs1) as [Hfc Hfch].
  destruct (fresh_word_line word) as [_ Hw].
  pose proof Hsound as Hs0. apply Forall_app_last in Hs0.
  destruct Hs0 as [_ Hlast].
  pose proof Hfc as Hcf. rewrite Hct1 in Hcf. unfold content in Hcf.
  unfold after_step. fold group1.
  destruct in_line; [|destruct in_group]; rewrite map_app; cbn [map];
    f_equal.
  - unfold content. cbn [set_children children].
    rewrite map_app. cbn [map children add reset_bounds].
    rewrite (filled_children Hlast). reflexivity.
  - unfold content at 1. cbn [add reset_bounds children].
    rewrite map_app. cbn [map]. rewrite Hw, Hcf, <- app_assoc. reflexivity.
  - unfold content.
    cbn [add reset_bounds children new_LineGroup new_grouped app map].
    rewrite Hw, Hcf. reflexivity.
Qed.

Lemma after_step_invariant (in_line in_group : bool) :
  loop_invariant
    (after_step in_line in_group groups group lines last_line word).
Proof.
  destruct group1_facts as (Hc1 & Hne1 & Hs1 & Hct1).
  destruct (filled_group_content group1 Hc1 Hne1 Hs1) as [Hfc Hfch].
  destruct (fresh_word_line word) as [Hws Hw].
  pose proof Hsound as Hs0. apply Forall_app_last in Hs0.
  destruct Hs0 as [Hlines Hlast].
  unfold after_step. fold group1.
  destruct in_line; [|destruct in_group].
  - exists groups, (set_children group
                      (lines ++ [add (filled last_line) word])).
    split; [reflexivity|]. cbn [set_children _bounds children].
    split; [exact Hcache|]. split; [destruct lines; discriminate|].
    apply Forall_app_last. split; [exact Hlines|].
    split.
    + cbn [add children reset_bounds]. destruct (children (filled last_line));
        discriminate.
    + intros b E. discriminate E.
  - exists groups, (add (filled group1) (filled (fresh_line [word]))).
    split; [reflexivity|]. cbn [add _bounds children reset_bounds].
    split; [reflexivity|].
    split; [destruct (children (filled group1)); discriminate|].
    apply Forall_app_last. split; [|exact Hws].
    rewrite Hfch. apply map_filled_sound. exact Hs1.
  - exists (groups ++ [filled group1]),
      (add new_LineGroup (filled (fresh_line [word]))).
    split; [rewrite <- app_assoc; reflexivity|].
    cbn [add _bounds children reset_bounds new_LineGroup new_grouped app].
    split; [reflexivity|]. split; [discriminate|].
    constructor; [exact Hws|constructor].
Qed.

End AfterStep.

(** X21: one turn of the grouping loop, on a state in which the last
    group has no bounds cached and its lines are sound, when the slope
    between the two centers is defined.  With [lc] and
    [wc] the centers of the last line and of the word, [s] the slope
    between them, [wh] and [lh] their heights, [wx] the left edge of the
    word, [lx] the right edge of the line, [ny] the top of the one-word
    line and [gy] the bottom of the group, each as the words give it:
    the word is appended to the last line of the last group exactly when
    the three tests of [joins_line] hold; otherwise a one-word line is
    appended to the last group exactly when the test of [joins_group]
    holds; otherwise a group made of that line is appended.  The state
    left satisfies the loop invariant again. *)
Theorem group_step_decision
        (th : Thresholds) (groups : list LineGroup) (group : LineGroup)
        (lines : list Line) (last_line : Line) (word : Word)
        (lc wc : point) (s wh lh wx lx ny gy : Q) :
  children group = lines ++ [last_line] ->
  _bounds group = None ->
  Forall sound_line (lines ++ [last_line]) ->
  measure center (fresh_line (children last_line)) = Ok lc ->
  measure center word = Ok wc ->
  slope lc wc = Ok s ->
  measure height word = Ok wh ->
  measure height (fresh_line (children last_line)) = Ok lh ->
  measure min_x word = Ok wx ->
  measure max_x (fresh_line (children last_line)) = Ok lx ->
  measure min_y (fresh_line [word]) = Ok ny ->
  measure max_y (fresh_group (content group)) = Ok gy ->
  exists line_groups : list LineGroup,
    group_step th (groups ++ [group]) word = Ok line_groups /\
    loop_invariant line_groups /\
    map content line_groups =
      if joins_line th s wh lh wx lx
      then map content groups ++
           [map children lines ++ [children last_line ++ [word]]]
      else if joins_group th ny gy
           then map content groups ++
                [map children lines ++ [children last_line; [word]]]
           else map content groups ++
                [map children lines ++ [children last_line]; [[word]]].
Proof.
  intros Hch Hc Hs Hlc Hwc Hslope Hwh Hlh Hwx Hlx Hny Hgy.
  eexists. split.
  - rewrite (@group_step_run th groups group lines last_line word lc wc
               wh lh wx lx ny gy Hch Hc Hs Hlc Hwc Hwh Hlh Hwx Hlx Hny Hgy).
    rewrite Hslope. reflexivity.
  - split.
    + apply after_step_invariant; assumption.
    + apply after_step_content; assumption.
Qed.

Ltac value_of r :=
  let x := eval vm_compute in r in
  match x with Ok ?v => v end.

(** The theorem on the line [Intro] and the word that follows it: the
    word joins the line. *)
Lemma group_step_decision_witness :
  exists line_groups : list LineGroup,
    group_step DEFAULT_PROXIMITY_THRESHOLDS [fresh_group [[w_intro]]] w_dot1 =
      Ok line_groups /\
    map content line_groups = [[[w_intro; w_dot1]]].
Proof.
  let lc := value_of (measure center (fresh_line [w_intro])) in
  let wc := value_of (measure center w_dot1) in
  let s := value_of (slope lc wc) in
  let wh := value_of (measure height w_dot1) in
  let lh := value_of (measure height (fresh_line [w_intro])) in
  let wx := value_of (measure min_x w_dot1) in
  let lx := value_of (measure max_x (fresh_line [w_intro])) in
  let ny := value_of (measure min_y (fresh_line [w_dot1])) in
  let gy := value_of (measure max_y (fresh_group [[w_intro]])) in
  destruct (@group_step_decision DEFAULT_PROXIMITY_THRESHOLDS []
              (fresh_group [[w_intro]]) [] (fresh_line [w_intro]) w_dot1
              lc wc s wh lh wx lx ny gy) as (lg & H1 & _ & H3);
    try reflexivity.
  - constructor; [|constructor]. apply fresh_line_sound. discriminate.
  - exists lg. split; [exact H1|]. rewrite H3. reflexivity.
Defined.

(** *** A turn that fails *)

Lemma slope_vertical (a b : point) :
  (fst a == fst b)%Q -> ~ (snd a == snd b)%Q ->
  slope a b = Raise ZeroDivisionError.
Proof.
  intros Hx Hy. unfold slope, point_eqb.
  destruct (Qeq_bool (snd a) (snd b)) eqn:E.
  - exfalso. apply Hy. apply Qeq_bool_iff. exact E.
  - rewrite andb_false_r.
    assert (Hz : Qeq_bool (fst b - fst a) 0 = true).
    { apply Qeq_bool_iff. rewrite Hx. unfold Qminus. apply Qplus_opp_r. }
    rewrite Hz. reflexivity.
Qed.

(** C6: the loop body does not decide for every word.  On a state in
    which the last group has no bounds cached and its lines are sound,
    when the center [wc] of the word is right above or right below the
    center [lc] of the last line (same x, different y), the slope test
    divides by zero: the turn raises [ZeroDivisionError]; the word is
    put in no line, old or new. *)
Theorem group_step_raises_on_aligned_centers
        (th : Thresholds) (groups : list LineGroup) (group : LineGroup)
        (lines : list Line) (last_line : Line) (word : Word)
        (lc wc : point) :
  children group = lines ++ [last_line] ->
  _bounds group = None ->
  Forall sound_line (lines ++ [last_line]) ->
  measure center (fresh_line (children last_line)) = Ok lc ->
  measure center word = Ok wc ->
  (fst lc == fst wc)%Q -> ~ (snd lc == snd wc)%Q ->
  group_step th (groups ++ [group]) word = Raise ZeroDivisionError.
Proof.
  intros Hch Hc Hs Hlc Hwc Hx Hy.
  pose proof Hs as Hs0. apply Forall_app_last in Hs0.
  destruct Hs0 as [_ Hlast].
  destruct (line_measure factors_height Hlast) as (lh & Hlh & _).
  destruct (line_measure factors_max_x Hlast) as (lx & Hlx & _).
  destruct (word_measure word factors_height) as (wh & Hwh).
  destruct (word_measure word factors_min_x) as (wx & Hwx).
  assert (Hw : sound_line (fresh_line [word]))
    by (apply fresh_line_sound; discriminate).
  destruct (line_measure factors_min_y Hw) as (ny & Hny & _).
  assert (Hne : children group <> [])
    by (rewrite Hch; destruct lines; discriminate).
  assert (Hs' : Forall sound_line (children group)) by (rewrite Hch; exact Hs).
  destruct (group_measure group factors_max_y Hc Hne Hs') as (gy & Hgy).
  rewrite (@group_step_run th groups group lines last_line word lc wc
             wh lh wx lx ny gy Hch Hc Hs Hlc Hwc Hwh Hlh Hwx Hlx Hny Hgy).
  rewrite (slope_vertical lc wc Hx Hy). reflexivity.
Qed.

(** The theorem on the line [Intro] and a word right below it. *)
Lemma group_step_raises_on_aligned_centers_witness :
  group_step DEFAULT_PROXIMITY_THRESHOLDS [fresh_group [[w_intro]]] w_below =
    Raise ZeroDivisionError.
Proof.
  let lc := value_of (measure center (fresh_line [w_intro])) in
  let wc := value_of (measure center w_below) in
  apply (@group_step_raises_on_aligned_centers DEFAULT_PROXIMITY_THRESHOLDS []
           (fresh_group [[w_intro]]) [] (fresh_line [w_intro]) w_below lc wc);
    try reflexivity.
  - constructor; [|constructor]. apply fresh_line_sound. discriminate.
  - intros H. vm_compute in H. discriminate H.
Defined.

(** *** The run never fails otherwise *)

Lemma slope_raises (a b : point) (e : exn) :
  slope a b = Raise e ->
  e = ZeroDivisionError /\ point_eqb a b = false /\ (fst b - fst a == 0)%Q.
Proof.
  unfold slope. destruct (point_eqb a b); [discriminate|].
  destruct (Qeq_bool (fst b - fst a) 0) eqn:E; [|discriminate].
  intros H; injection H as <-. repeat split. apply Qeq_bool_iff. exact E.
Qed.

Lemma group_step_total (th : Thresholds) (line_groups : list LineGroup)
      (word : Word) :
  loop_invariant line_groups ->
  (exists line_groups', group_step th line_groups word = Ok line_groups' /\
                        loop_invariant line_groups') \/
  group_step th line_groups word = Raise ZeroDivisionError.
Proof.
  intros (groups & group & -> & Hc & Hne & Hs).
  destruct (exists_last Hne) as (lines & last_line & Hch).
  rewrite Hch in Hs. pose proof Hs as Hs0. apply Forall_app_last in Hs0.
  destruct Hs0 as [_ Hlast].
  destruct (line_measure factors_center Hlast) as (lc & Hlc & _).
  destruct (line_measure factors_height Hlast) as (lh & Hlh & _).
  destruct (line_measure factors_max_x Hlast) as (lx & Hlx & _).
  destruct (word_measure word factors_center) as (wc & Hwc).
  destruct (word_measure word factors_height) as (wh & Hwh).
  destruct (word_measure word factors_min_x) as (wx & Hwx).
  assert (Hw : sound_line (fresh_line [word]))
    by (apply fresh_line_sound; discriminate).
  destruct (line_measure factors_min_y Hw) as (ny & Hny & _).
  assert (Hs' : Forall sound_line (children group)) by (rewrite Hch; exact Hs).
  destruct (group_measure group factors_max_y Hc Hne Hs') as (gy & Hgy).
  rewrite (@group_step_run th groups group lines last_line word lc wc
             wh lh wx lx ny gy Hch Hc Hs Hlc Hwc Hwh Hlh Hwx Hlx Hny Hgy).
  destruct (slope lc wc) as [s|e] eqn:Hslope.
  - left. eexists. split; [reflexivity|].
    apply after_step_invariant; assumption.
  - right. apply slope_raises in Hslope. destruct Hslope as [-> _].
    reflexivity.
Qed.

Lemma group_loop_total (th : Thresholds) (words : list Word)
      (line_groups : list LineGroup) :
  loop_invariant line_groups ->
  (exists line_groups', group_loop th words line_groups = Ok line_groups' /\
                        loop_invariant line_groups') \/
  group_loop th words line_groups = Raise ZeroDivisionError.
Proof.
  revert line_groups. induction words as [|word words IH];
    intros line_groups Hinv; cbn [group_loop].
  - left. eauto.
  - destruct (group_step_total th word Hinv) as [(lg & -> & Hinv')| ->];
      cbn [bind]; [apply IH; exact Hinv'|right; reflexivity].
Qed.

Lemma init_invariant (pw ph : Q) (first : Word) (rest : list Word)
      (re : option regex) (up : option ThresholdUpdate) :
  exists self, init pw ph (first :: rest) re up = Ok self /\
               words self = rest /\ ignore_regex self = re /\
               map content (line_groups self) = [[[first]]] /\
               loop_invariant (line_groups self).
Proof.
  eexists. split; [reflexivity|]. cbn [words ignore_regex line_groups].
  repeat split.
  exists [], (add new_LineGroup (add new_Line first)).
  repeat split; try discriminate.
  constructor; [|constructor]. split; [discriminate|].
  intros b E. discriminate E.
Qed.

(** X22: for a word sequence that is not empty and an ignore pattern
    that is present, constructing the engine and running it returns a
    list of groups, unless a slope test divides by zero; no other error
    is raised. *)
Theorem group_words_returns
        (page_width page_height : Q) (words : list Word) (r : regex)
        (thresholds : option ThresholdUpdate) :
  words <> [] ->
  group_words page_width page_height words (Some r) thresholds
    <> Raise ZeroDivisionError ->
  exists line_groups : list LineGroup,
    group_words page_width page_height words (Some r) thresholds
    = Ok line_groups.
Proof.
  intros Hne. destruct words as [|first rest]; [congruence|]. clear Hne.
  unfold group_words.
  destruct (init_invariant page_width page_height first rest (Some r)
                           thresholds)
    as (self & -> & Hw & Hr & _ & Hinv).
  cbn [bind]. unfold group. rewrite Hw, Hr.
  destruct (group_loop_total (proximity_thresholds self) rest Hinv)
    as [(lg & -> & _)| ->]; cbn [bind].
  - intros _. rewrite clean_words_cleaned. eauto.
  - congruence.
Qed.

(** The theorem on the line [Intro . . 5]. *)
Lemma group_words_returns_witness :
  exists line_groups : list LineGroup,
    group_words 100 100 dotted_line (Some GROUP_IGNORE) None = Ok line_groups.
Proof.
  apply (@group_words_returns 100 100 dotted_line GROUP_IGNORE None).
  - discriminate.
  - vm_compute. discriminate.
Defined.

(** C3: the run fails on well-formed input.  With no ignore pattern,
    the default of the constructor, the cleanup raises [TypeError] on a
    single word; with the caller's pattern, two words one above the
    other make the slope test divide by zero.  (On an empty word
    sequence the constructor raises [IndexError]; the caller never
    passes one.) *)
Lemma group_words_fails :
  group_words 100 100 [] (Some GROUP_IGNORE) None = Raise IndexError /\
  group_words 100 100 [w_intro] None None = Raise TypeError /\
  group_words 100 100 [w_intro; w_below] (Some GROUP_IGNORE) None =
    Raise ZeroDivisionError.
Proof.
  repeat split; vm_compute; reflexivity.
Qed.

End WordToolsFacts.

(** ** More on the outline model *)

Section OutlineOrder.

Import Outline.

Lemma is_before_cases (a b : ContentsItem) :
  (is_before a b = Some true /\ precedes a b) \/
  (is_before a b = Some false /\ precedes b a) \/
  (is_before a b = None /\ same_position a b).
Proof.
  unfold is_before, precedes, same_position, Qneq_bool.
  destruct (Z.eqb_spec (page a) (page b)) as [Hp|Hp]; cbn [negb].
  2:{ destruct (Z.ltb_spec (page a) (page b));
      [left|right; left]; split; try reflexivity; left; lia. }
  destruct (Z.eqb_spec (block a) (block b)) as [Hb|Hb]; cbn [negb].
  2:{ destruct (Z.ltb_spec (block a) (block b));
      [left|right; left]; split; try reflexivity; right;
      (split; [lia|]); left; lia. }
  destruct (Z.eqb_spec (paragraph a) (paragraph b)) as [Hq|Hq]; cbn [negb].
  2:{ destruct (Z.ltb_spec (paragraph a) (paragraph b));
      [left|right; left]; split; try reflexivity; right;
      (split; [lia|]); right; (split; [lia|]); left; lia. }
  destruct (Qeq_bool (min_y a) (min_y b)) eqn:He; cbn [negb].
  - right. right. apply Qeq_bool_iff in He. repeat split; assumption.
  - apply Qeq_bool_neq in He.
    destruct (Qlt_bool (min_y a) (min_y b)) eqn:Hl.
    + left. apply Qlt_bool_iff in Hl. split; [reflexivity|].
      right. split; [lia|]. right. split; [lia|]. right. split; [lia|].
      exact Hl.
    + right. left. apply Qlt_bool_false_iff in Hl. split; [reflexivity|].
      right. split; [lia|]. right. split; [lia|]. right. split; [lia|].
      apply Qle_lt_or_eq in Hl. destruct Hl as [Hl|Hl]; [exact Hl|].
      exfalso. apply He. symmetry. exact Hl.
Qed.

Lemma precedes_not_same (a b : ContentsItem) :
  precedes a b -> ~ same_position a b /\ ~ same_position b a.
Proof.
  unfold precedes, same_position.
  intros H; split; intros (H1 & H2 & H3 & H4);
    destruct H as [H|(E1 & [H|(E2 & [H|(E3 & H)])])]; try lia.
  - rewrite H4 in H. exact (Qlt_irrefl _ H).
  - rewrite H4 in H. exact (Qlt_irrefl _ H).
Qed.

Lemma precedes_trans (a b c : ContentsItem) :
  precedes a b -> precedes b c -> precedes a c.
Proof.
  unfold precedes.
  intros [H|(E1 & [H|(E2 & [H|(E3 & H)])])]
         [G|(F1 & [G|(F2 & [G|(F3 & G)])])];
    try (left; lia);
    try (right; split; [lia|]; left; lia);
    try (right; split; [lia|]; right; split; [lia|]; left; lia).
  right; split; [lia|]; right; split; [lia|]; right; split; [lia|].
  eapply Qlt_trans; eauto.
Qed.

Lemma precedes_asym (a b : ContentsItem) : precedes a b -> ~ precedes b a.
Proof.
  unfold precedes.
  intros [H|(E1 & [H|(E2 & [H|(E3 & H)])])]
         [G|(F1 & [G|(F2 & [G|(F3 & G)])])]; try lia.
  apply (Qlt_irrefl (min_y a)). eapply Qlt_trans; eauto.
Qed.

Lemma is_before_true (a b : ContentsItem) :
  is_before a b = Some true <-> precedes a b.
Proof.
  destruct (is_before_cases a b) as [[E H]|[[E H]|[E H]]]; rewrite E;
    split; intros G; try discriminate; try assumption; try reflexivity.
  - exfalso. exact (precedes_asym H G).
  - exfalso. apply precedes_not_same in G. tauto.
Qed.

Lemma is_before_false (a b : ContentsItem) :
  is_before a b = Some false <-> precedes b a.
Proof.
  destruct (is_before_cases a b) as [[E H]|[[E H]|[E H]]]; rewrite E;
    split; intros G; try discriminate; try assumption; try reflexivity.
  - exfalso. exact (precedes_asym H G).
  - exfalso. apply precedes_not_same in G. tauto.
Qed.

Lemma is_before_none (a b : ContentsItem) :
  is_before a b = None <-> same_position a b.
Proof.
  destruct (is_before_cases a b) as [[E H]|[[E H]|[E H]]]; rewrite E;
    split; intros G; try discriminate; try assumption; try reflexivity;
    exfalso; apply precedes_not_same in H; tauto.
Qed.

Lemma same_position_sym (a b : ContentsItem) :
  same_position a b -> same_position b a.
Proof.
  unfold same_position. intros (H1 & H2 & H3 & H4).
  repeat split; try lia. symmetry. exact H4.
Qed.

(** X1: [is_before] is a strict order on anchors: no anchor is before
    itself (the answer is [None]); [a] is before [b] exactly when [b]
    answers [False] for [a]; the answer [None] is symmetric; and it is
    transitive. *)
Theorem is_before_strict_order :
  (forall a, is_before a a = None) /\
  (forall a b, is_before a b = Some true <-> is_before b a = Some false) /\
  (forall a b, is_before a b = None <-> is_before b a = None) /\
  (forall a b c, is_before a b = Some true -> is_before b c = Some true ->
                 is_before a c = Some true).
Proof.
  split; [|split; [|split]].
  - intros a. apply is_before_none. unfold same_position.
    repeat split; reflexivity.
  - intros a b. rewrite is_before_true, is_before_false. reflexivity.
  - intros a b. rewrite !is_before_none.
    split; apply same_position_sym.
  - intros a b c H G. apply is_before_true. apply is_before_true in H, G.
    eapply precedes_trans; eauto.
Qed.

End OutlineOrder.

Section OutlineSearch.

Import Outline.

Lemma break_index_some (d : ContentsItem) (cs : list ContentsItem)
      (k i : nat) :
  break_index d cs k = Some i ->
  exists pre c post,
    cs = pre ++ c :: post /\ i = (k + length pre)%nat /\
    Forall (fun x => truthy (is_before d x) = false) pre /\
    truthy (is_before d c) = true.
Proof.
  revert k. induction cs as [|a cs IH]; intros k; cbn [break_index];
    [discriminate|].
  destruct (truthy (is_before d a)) eqn:E.
  - intros H; injection H as <-. exists [], a, cs.
    cbn [app length]. repeat split; [lia|constructor|exact E].
  - intros H. destruct (IH _ H) as (pre & c & post & -> & -> & Hpre & Hc).
    exists (a :: pre), c, post. cbn [app length].
    repeat split; [lia| |exact Hc]. constructor; assumption.
Qed.

Lemma break_index_none (d : ContentsItem) (cs : list ContentsItem) (k : nat) :
  break_index d cs k = None ->
  Forall (fun x => truthy (is_before d x) = false) cs.
Proof.
  revert k. induction cs as [|a cs IH]; intros k; cbn [break_index];
    [constructor|].
  destruct (truthy (is_before d a)) eqn:E; [discriminate|].
  intros H. constructor; [exact E|eapply IH; eauto].
Qed.

Lemma nth_error_middle {X} (pre post : list X) (a : X) :
  nth_error (pre ++ a :: post) (length pre) = Some a.
Proof.
  rewrite nth_error_app2 by lia. rewrite Nat.sub_diag. reflexivity.
Qed.

Lemma parent_candidate_cases (d : ContentsItem) (cs : list ContentsItem) :
  match parent_candidate d cs with
  | None =>
      cs = [] \/
      exists c rest, cs = c :: rest /\ truthy (is_before d c) = true
  | Some (index, p) =>
      exists pre post,
        cs = pre ++ p :: post /\ index = length pre /\
        Forall (fun x => truthy (is_before d x) = false) (pre ++ [p]) /\
        match post with
        | [] => True
        | c :: _ => truthy (is_before d c) = true
        end
  end.
Proof.
  unfold parent_candidate.
  destruct (break_index d cs 0) as [index|] eqn:Hb.
  - destruct (break_index_some _ _ _ Hb)
      as (pre0 & c & post0 & -> & -> & Hpre & Hc).
    cbn [Nat.add]. destruct pre0 as [|a pre0] using rev_ind.
    + cbn [length Nat.ltb Nat.leb]. right. exists c, post0.
      split; [reflexivity|exact Hc].
    + clear IHpre0. rewrite length_app. cbn [length].
      replace (0 <? length pre0 + 1)%nat with true
        by (symmetry; apply Nat.ltb_lt; lia).
      replace (length pre0 + 1 - 1)%nat with (length pre0) by lia.
      rewrite <- app_assoc. cbn [app]. rewrite nth_error_middle.
      cbn [option_map]. exists pre0, (c :: post0).
      repeat split; assumption.
  - apply break_index_none in Hb.
    destruct cs as [|c cs]; [left; reflexivity|]. cbv beta iota.
    destruct (@exists_last _ (c :: cs)) as (pre & p & E); [discriminate|].
    rewrite E in *. rewrite length_app. cbn [length].
    replace (length pre + 1 - 1)%nat with (length pre) by lia.
    rewrite nth_error_middle. cbn [option_map].
    exists pre, []. repeat split. exact Hb.
Qed.

(** X2: the candidate parent among the children of a node is the child
    right before the first child the new anchor is before, or the last
    child when the anchor is before none; the anchor is before none of
    the children up to the candidate.  There is no candidate exactly
    when the node has no children or the anchor is before the first. *)
Theorem parent_candidate_is_last_not_after
        (d : ContentsItem) (cs : list ContentsItem) :
  match parent_candidate d cs with
  | None =>
      cs = [] \/
      exists c rest, cs = c :: rest /\ truthy (is_before d c) = true
  | Some (index, p) =>
      exists pre post,
        cs = pre ++ p :: post /\ index = length pre /\
        Forall (fun x => truthy (is_before d x) = false) (pre ++ [p]) /\
        match post with
        | [] => True
        | c :: _ => truthy (is_before d c) = true
        end
  end.
Proof. apply parent_candidate_cases. Qed.

Lemma parent_candidate_not_before (d : ContentsItem)
      (cs : list ContentsItem) (index : nat) (p : ContentsItem) :
  parent_candidate d cs = Some (index, p) ->
  truthy (is_before d p) = false.
Proof.
  intros H. pose proof (parent_candidate_cases d cs) as Hc.
  rewrite H in Hc. destruct Hc as (pre & post & _ & _ & Hall & _).
  apply Forall_app in Hall. destruct Hall as [_ Hp].
  inversion Hp; assumption.
Qed.

Lemma find_parent_for_path (self d : ContentsItem) (ty : cls)
      (r : ref) (p : ContentsItem) :
  find_parent_for self d ty = Ok (r, p) ->
  r <> [] /\
  forall k q, (0 < k <= length r)%nat ->
              node_at self (firstn k r) = Some q ->
              truthy (is_before d q) = false /\
              isinstance q ty = (k =? length r)%nat.
Proof.
  revert r p. funelim (find_parent_for self d ty); [|discriminate].
  intros r p. pose proof (parent_candidate_not_before _ _ Hparent) as Hnb.
  pose proof (parent_candidate_size _ _ Hparent) as Hnth.
  destruct (isinstance parent parent_type) eqn:Ety.
  - intros E; injection E as <- <-. split; [discriminate|].
    intros k q Hk. cbn [length] in Hk. assert (k = 1)%nat by lia. subst k.
    cbn [firstn node_at]. rewrite Hnth. intros E; injection E as <-.
    split; [exact Hnb|exact Ety].
  - destruct (find_parent_for parent descendant_item parent_type)
      as [[r' p']|e] eqn:Er; [|discriminate].
    cbn [fmap bind]. intros E; injection E as <- <-.
    split; [discriminate|].
    match goal with IH : forall r p, _ -> _ |- _ =>
      destruct (IH r' p' eq_refl) as [Hne IHk] end.
    intros k q Hk. cbn [length] in Hk.
    destruct k as [|k]; [lia|]. cbn [firstn node_at]. rewrite Hnth.
    destruct k as [|k].
    + cbn [firstn node_at]. intros E; injection E as <-.
      split; [exact Hnb|]. rewrite Ety. symmetry. apply Nat.eqb_neq.
      cbn [length]. destruct r'; [congruence|cbn [length]; lia].
    + intros Hq. cbn [length Nat.eqb]. apply (IHk (S k) q); [lia|exact Hq].
Qed.

(** X3: a parent [find_parent_for] returns is never [self], and the
    anchor is before neither the parent nor any node on the way down to
    it; the parent is the first node of the required class on that
    way. *)
Theorem find_parent_for_not_after
        (self d : ContentsItem) (ty : cls) (r : ref) (p : ContentsItem) :
  find_parent_for self d ty = Ok (r, p) ->
  r <> [] /\
  truthy (is_before d p) = false /\
  forall k q, (0 < k <= length r)%nat ->
              node_at self (firstn k r) = Some q ->
              truthy (is_before d q) = false /\
              isinstance q ty = (k =? length r)%nat.
Proof.
  intros H. destruct (find_parent_for_path _ _ _ H) as [Hne Hk].
  split; [exact Hne|]. split; [|exact Hk].
  destruct (find_parent_for_total self d ty) as [E|(r0 & p0 & E & _ & Hat)];
    rewrite E in H; [discriminate|]. injection H as -> ->.
  apply (Hk (length r) p).
  - destruct r; [congruence|cbn [length]; lia].
  - rewrite firstn_all. exact Hat.
Qed.

(** The theorem on the sample outline and the chapter after its first
    part. *)
Lemma find_parent_for_not_after_witness :
  truthy (is_before (new Chapter later_chapter) sample_part) = false.
Proof.
  apply (@find_parent_for_not_after sample_contents
           (new Chapter later_chapter) Part [0%nat] sample_part).
  vm_compute. reflexivity.
Defined.

End OutlineSearch.

Section OutlineBuild.

Import Outline.

Lemma anchors_unfold (t : ContentsItem) :
  anchors t = search_result t :: flat_map anchors (children t).
Proof.
  destruct t as [c s n cs]. unfold anchors. cbn [flatten map search_result children].
  f_equal. induction cs as [|a cs IH]; [reflexivity|].
  cbn [flat_map]. rewrite map_app, IH. reflexivity.
Qed.

Lemma anchors_numbered (p c : ContentsItem) :
  anchors (numbered p c) = anchors c.
Proof.
  rewrite !anchors_unfold. unfold numbered.
  destruct (not_number (number c)); reflexivity.
Qed.

Lemma anchors_add (p c : ContentsItem) :
  anchors (add p c) = anchors p ++ anchors c.
Proof.
  rewrite (anchors_unfold (add p c)), (anchors_unfold p).
  cbn [add search_result children]. rewrite flat_map_app. cbn [flat_map].
  rewrite anchors_numbered, app_nil_r. reflexivity.
Qed.

Lemma update_nth_middle {X} (f : X -> X) (pre post : list X) (a : X) :
  update_nth (length pre) f (pre ++ a :: post) = pre ++ f a :: post.
Proof.
  induction pre as [|b pre IH]; [reflexivity|].
  cbn [length app update_nth]. rewrite IH. reflexivity.
Qed.

Lemma anchors_add_at (root : ContentsItem) (r : ref) (p c : ContentsItem) :
  node_at root r = Some p ->
  exists l1 l2,
    l1 <> [] /\
    anchors root = l1 ++ l2 /\
    anchors (add_at root r c) = l1 ++ anchors c ++ l2.
Proof.
  revert root. induction r as [|index r IH]; intros root; cbn [node_at add_at].
  - intros _. exists (anchors root), []. rewrite anchors_add, !app_nil_r.
    split; [rewrite anchors_unfold; discriminate|]. split; reflexivity.
  - destruct (nth_error (children root) index) as [child|] eqn:E;
      [|discriminate].
    intros Hp. destruct (IH _ Hp) as (l1 & l2 & _ & H1 & H2).
    apply nth_error_split in E. destruct E as (pre & post & Hcs & Hlen).
    subst index.
    rewrite (anchors_unfold root),
      (anchors_unfold (Item (class_of root) (search_result root)
                            (number root) _)).
    cbn [search_result children]. rewrite Hcs, update_nth_middle.
    rewrite !flat_map_app. cbn [flat_map]. rewrite H1, H2.
    exists (search_result root :: flat_map anchors pre ++ l1),
      (l2 ++ flat_map anchors post).
    split; [discriminate|].
    cbn [app]. rewrite <- !app_assoc. split; reflexivity.
Qed.

Lemma attach_keeps_anchors (contents d : ContentsItem) (ty : cls) :
  match '(parent, _) <- find_parent_for contents d ty ;;
        Ok (add_at contents parent d) with
  | Ok contents' =>
      exists l1 l2,
        l1 <> [] /\
        anchors contents = l1 ++ l2 /\
        anchors contents' = l1 ++ anchors d ++ l2
  | Raise e => e = RuntimeError /\ dead_end d ty contents
  end.
Proof.
  destruct (find_parent_for_total contents d ty)
    as [E|(r & p & E & _ & Hat)]; rewrite E; cbn [bind].
  - split; [reflexivity|]. apply dead_end_raises. exact E.
  - apply (@anchors_add_at contents r p d Hat).
Qed.

(** X4: attaching a chapter or a section.  A result that is before the
    root leaves the tree as it is.  For any other result the build step
    either raises [RuntimeError], at a dead end of the parent search, or
    returns a tree that keeps every anchor in the same flattened order
    and has the new anchor inserted once, somewhere after the root. *)
Theorem build_keeps_anchors :
  (forall contents sr,
      if truthy (is_before (new Chapter sr) contents)
      then build_chapter contents sr = Ok contents
      else match build_chapter contents sr with
           | Ok contents' =>
               exists l1 l2,
                 l1 <> [] /\
                 anchors contents = l1 ++ l2 /\
                 anchors contents' = l1 ++ sr :: l2
           | Raise e =>
               e = RuntimeError /\ dead_end (new Chapter sr) Part contents
           end) /\
  (forall contents sr,
      if truthy (is_before (new Section_ sr) contents)
      then build_section contents sr = Ok contents
      else match build_section contents sr with
           | Ok contents' =>
               exists l1 l2,
                 l1 <> [] /\
                 anchors contents = l1 ++ l2 /\
                 anchors contents' = l1 ++ sr :: l2
           | Raise e =>
               e = RuntimeError /\
               dead_end (new Section_ sr) Chapter contents
           end).
Proof.
  split; intros contents sr.
  - unfold build_chapter.
    destruct (truthy (is_before (new Chapter sr) contents)); [reflexivity|].
    exact (attach_keeps_anchors contents (new Chapter sr) Part).
  - unfold build_section.
    destruct (truthy (is_before (new Section_ sr) contents)); [reflexivity|].
    exact (attach_keeps_anchors contents (new Section_ sr) Chapter).
Qed.

(** *** Levels and ordinals of a built outline *)

Lemma Forall_update_nth {X} (P : X -> Prop) (f : X -> X) (l : list X)
      (n : nat) :
  Forall P l ->
  (forall a, nth_error l n = Some a -> P a -> P (f a)) ->
  Forall P (update_nth n f l).
Proof.
  intros H. revert n. induction H as [|a l Ha Hl IH]; intros [|n] Hf;
    cbn [update_nth]; constructor; try assumption.
  - apply Hf; [reflexivity|exact Ha].
  - apply IH. intros b Hb. apply Hf. exact Hb.
Qed.

Lemma map_update_nth_same {X Y} (g : X -> Y) (f : X -> X) (l : list X)
      (n : nat) :
  (forall a, g (f a) = g a) -> map g (update_nth n f l) = map g l.
Proof.
  intros Hg. revert n. induction l as [|a l IH]; intros [|n];
    cbn [update_nth map]; try reflexivity.
  - rewrite Hg. reflexivity.
  - rewrite IH. reflexivity.
Qed.

Lemma length_update_nth {X} (f : X -> X) (l : list X) (n : nat) :
  length (update_nth n f l) = length l.
Proof.
  revert n. induction l as [|a l IH]; intros [|n]; cbn [update_nth length];
    try reflexivity.
  rewrite IH. reflexivity.
Qed.

Lemma class_of_add_at (root : ContentsItem) (r : ref) (c : ContentsItem) :
  class_of (add_at root r c) = class_of root.
Proof. destruct r; reflexivity. Qed.

Lemma number_add_at (root : ContentsItem) (r : ref) (c : ContentsItem) :
  number (add_at root r c) = number root.
Proof. destruct r; reflexivity. Qed.

Lemma search_result_add_at (root : ContentsItem) (r : ref)
      (c : ContentsItem) :
  search_result (add_at root r c) = search_result root.
Proof. destruct r; reflexivity. Qed.

Lemma leveled_numbered (p c : ContentsItem) :
  leveled c ->
  leveled (numbered p c) /\ class_of (numbered p c) = class_of c.
Proof.
  intros H. unfold numbered. destruct (not_number (number c)); [|tauto].
  split; [|reflexivity]. destruct c as [cc s n cs]. inversion H; subst.
  constructor. assumption.
Qed.

Lemma leveled_add (p c : ContentsItem) :
  leveled p -> child_class (class_of p) = Some (class_of c) -> leveled c ->
  leveled (add p c).
Proof.
  intros Hp Hc Hl. destruct p as [pc s n cs]. inversion Hp; subst.
  unfold add. cbn [class_of search_result number children] in *.
  constructor. apply Forall_app. split; [assumption|].
  destruct (leveled_numbered (Item pc s n cs) Hl) as [H1 H2].
  constructor; [|constructor]. rewrite H2. split; assumption.
Qed.

Lemma leveled_add_at (root : ContentsItem) (r : ref) (p c : ContentsItem) :
  leveled root -> node_at root r = Some p ->
  child_class (class_of p) = Some (class_of c) -> leveled c ->
  leveled (add_at root r c).
Proof.
  intros Hroot Hat Hc Hl. revert root Hroot Hat.
  induction r as [|index r IH]; intros root Hroot Hat;
    cbn [node_at add_at] in *.
  - injection Hat as ->. apply leveled_add; assumption.
  - destruct root as [rc s n cs]. inversion Hroot; subst.
    cbn [class_of search_result number children] in *.
    constructor. apply Forall_update_nth; [assumption|].
    intros a Ha [Hca Hla]. rewrite Ha in Hat.
    rewrite class_of_add_at. split; [exact Hca|].
    apply IH; assumption.
Qed.

Lemma leveled_new (c : cls) (s : SearchResult) : leveled (new c s).
Proof. constructor. constructor. Qed.

Lemma ordinals_succ (n : nat) :
  ordinals (n + 1) = ordinals n ++ [Some (Z.of_nat n + 1)].
Proof.
  unfold ordinals. rewrite seq_app, map_app. cbn [seq map].
  do 3 f_equal. lia.
Qed.

Lemma numbered_set (p c : ContentsItem) :
  numbered_in_order c -> numbered_in_order (numbered p c).
Proof.
  intros H. unfold numbered. destruct (not_number (number c)); [|exact H].
  destruct c as [cc s n cs]. inversion H; subst.
  constructor; assumption.
Qed.

Lemma numbered_add (p c : ContentsItem) :
  numbered_in_order p -> not_number (number c) = true ->
  numbered_in_order c -> numbered_in_order (add p c).
Proof.
  intros Hp Hn Hc. destruct p as [pc s n cs]. inversion Hp; subst.
  unfold add. cbn [class_of search_result number children].
  constructor.
  - rewrite map_app, length_app. cbn [map length].
    rewrite ordinals_succ. f_equal; [assumption|].
    unfold numbered. rewrite Hn. reflexivity.
  - apply Forall_app. split; [assumption|].
    constructor; [|constructor]. apply numbered_set. exact Hc.
Qed.

Lemma numbered_add_at (root : ContentsItem) (r : ref) (p c : ContentsItem) :
  numbered_in_order root -> node_at root r = Some p ->
  not_number (number c) = true -> numbered_in_order c ->
  numbered_in_order (add_at root r c).
Proof.
  intros Hroot Hat Hn Hc. revert root Hroot Hat.
  induction r as [|index r IH]; intros root Hroot Hat;
    cbn [node_at add_at] in *.
  - injection Hat as ->. apply numbered_add; assumption.
  - destruct root as [rc s n cs]. inversion Hroot; subst.
    cbn [class_of search_result number children] in *.
    constructor.
    + rewrite length_update_nth.
      rewrite map_update_nth_same by (intros a; apply number_add_at).
      assumption.
    + apply Forall_update_nth; [assumption|].
      intros a Ha Hna. rewrite Ha in Hat. apply IH; assumption.
Qed.

Lemma numbered_new (c : cls) (s : SearchResult) : numbered_in_order (new c s).
Proof. constructor; [reflexivity|constructor]. Qed.

Lemma built_build_part (contents : ContentsItem) (r : SearchResult) :
  built contents -> built (build_part contents r).
Proof.
  intros (Hc & Hl & Hn). unfold build_part.
  destruct (truthy (is_before (new Part r) contents));
    [split; [|split]; assumption|].
  split; [|split].
  - exact Hc.
  - apply leveled_add; [exact Hl|rewrite Hc; reflexivity|apply leveled_new].
  - apply numbered_add; [exact Hn|reflexivity|apply numbered_new].
Qed.

Lemma built_build_parts (contents : ContentsItem) (rs : list SearchResult) :
  built contents -> built (build_parts contents rs).
Proof.
  unfold build_parts. revert contents.
  induction rs as [|r rs IH]; intros contents H; cbn [fold_left];
    [exact H|].
  apply IH. apply built_build_part. exact H.
Qed.

Lemma built_attach (contents item : ContentsItem) (ty : cls)
      (contents' : ContentsItem) :
  built contents ->
  child_class ty = Some (class_of item) -> item = new (class_of item)
                                                     (search_result item) ->
  ('(parent, _) <- find_parent_for contents item ty ;;
   Ok (add_at contents parent item)) = Ok contents' ->
  built contents'.
Proof.
  intros (Hc & Hl & Hn) Hty Hnew.
  destruct (find_parent_for_total contents item ty)
    as [E|(r & p & E & Hp & Hat)]; rewrite E; cbn [bind]; [discriminate|].
  intros H; injection H as <-. apply cls_eqb_eq in Hp.
  split; [|split].
  - rewrite class_of_add_at. exact Hc.
  - apply (@leveled_add_at contents r p item Hl Hat).
    + rewrite Hp. exact Hty.
    + rewrite Hnew. apply leveled_new.
  - apply (@numbered_add_at contents r p item Hn Hat).
    + rewrite Hnew. reflexivity.
    + rewrite Hnew. apply numbered_new.
Qed.

Lemma built_build_chapter (contents : ContentsItem) (r : SearchResult)
      (contents' : ContentsItem) :
  built contents -> build_chapter contents r = Ok contents' ->
  built contents'.
Proof.
  intros Hb. unfold build_chapter.
  destruct (truthy (is_before (new Chapter r) contents));
    [intros E; injection E as <-; exact Hb|].
  apply built_attach; [exact Hb|reflexivity|reflexivity].
Qed.

Lemma built_build_section (contents : ContentsItem) (r : SearchResult)
      (contents' : ContentsItem) :
  built contents -> build_section contents r = Ok contents' ->
  built contents'.
Proof.
  intros Hb. unfold build_section.
  destruct (truthy (is_before (new Section_ r) contents));
    [intros E; injection E as <-; exact Hb|].
  apply built_attach; [exact Hb|reflexivity|reflexivity].
Qed.

Lemma for_each_keeps {S A} (I : S -> Prop) (body : S -> A -> result S)
      (l : list A) (s s' : S) :
  (forall s a s', I s -> body s a = Ok s' -> I s') ->
  I s -> for_each body l s = Ok s' -> I s'.
Proof.
  intros Hbody. revert s. induction l as [|a l IH]; intros s Hs;
    cbn [for_each].
  - intros E; injection E as <-. exact Hs.
  - destruct (body s a) as [s1|e] eqn:E; cbn [bind]; [|discriminate].
    apply IH. eapply Hbody; eauto.
Qed.

Lemma built_build_contents (results parts chapters sections :
                              list SearchResult) (t : ContentsItem) :
  build_contents results parts chapters sections = Ok t -> built t.
Proof.
  unfold build_contents. destruct results as [|first _]; [discriminate|].
  assert (H0 : built (new TableOfContents first)).
  { split; [reflexivity|]. split; [apply leveled_new|apply numbered_new]. }
  apply (built_build_parts parts) in H0.
  unfold build_chapters, build_sections.
  destruct (for_each build_chapter chapters
                     (build_parts (new TableOfContents first) parts))
    as [t1|e] eqn:E1; cbn [bind]; [|discriminate].
  intros E2.
  eapply (@for_each_keeps _ _ built build_section);
    [exact built_build_section| |exact E2].
  eapply (@for_each_keeps _ _ built build_chapter);
    [exact built_build_chapter|exact H0|exact E1].
Qed.

(** X5: in an outline [run] has built, the root is the table of
    contents, its children are parts, the children of a part are
    chapters, those of a chapter are sections, and a section has no
    children. *)
Theorem built_outline_is_leveled
        (results parts chapters sections : list SearchResult)
        (t : ContentsItem) :
  build_contents results parts chapters sections = Ok t ->
  class_of t = TableOfContents /\ leveled t.
Proof.
  intros H. apply built_build_contents in H. destruct H as (H1 & H2 & _).
  split; assumption.
Qed.

(** The theorem on the sample outline. *)
Lemma built_outline_is_leveled_witness :
  exists t, sample_outline = Ok t /\
            class_of t = TableOfContents /\ leveled t.
Proof.
  destruct sample_outline as [t|e] eqn:E; [|vm_compute in E; discriminate E].
  exists t. split; [reflexivity|].
  exact (built_outline_is_leveled _ _ _ _ E).
Defined.

(** X6: in an outline [run] has built, the children of every node carry
    the ordinals 1, 2, 3, ... in the order they were attached. *)
Theorem built_outline_is_numbered
        (results parts chapters sections : list SearchResult)
        (t : ContentsItem) :
  build_contents results parts chapters sections = Ok t ->
  numbered_in_order t.
Proof.
  intros H. apply built_build_contents in H. apply H.
Qed.

(** The theorem on the sample outline. *)
Lemma built_outline_is_numbered_witness :
  exists t, sample_outline = Ok t /\ numbered_in_order t.
Proof.
  destruct sample_outline as [t|e] eqn:E; [|vm_compute in E; discriminate E].
  exists t. split; [reflexivity|].
  exact (built_outline_is_numbered _ _ _ _ E).
Defined.

(** *** The parts *)

Lemma is_before_same_anchor (a b b' : ContentsItem) :
  search_result b = search_result b' -> is_before a b = is_before a b'.
Proof.
  intros H. unfold is_before, page, block, paragraph, min_y, ys.
  rewrite H. reflexivity.
Qed.

Lemma build_parts_from (root acc : ContentsItem) (rs : list SearchResult) :
  search_result acc = search_result root ->
  let kept := filter (fun r => negb (truthy (is_before (new Part r) root)))
                     rs in
  children (fold_left build_part rs acc) =
    children acc ++ number_parts (length (children acc)) kept /\
  search_result (fold_left build_part rs acc) = search_result root /\
  class_of (fold_left build_part rs acc) = class_of acc /\
  number (fold_left build_part rs acc) = number acc.
Proof.
  cbv zeta. revert acc. induction rs as [|r rs IH]; intros acc Hacc;
    cbn [fold_left filter].
  - cbn [number_parts]. rewrite app_nil_r. repeat split. exact Hacc.
  - unfold build_part at 2 4 6 8.
    rewrite (is_before_same_anchor (new Part r) acc root Hacc).
    destruct (truthy (is_before (new Part r) root)); cbn [negb].
    + apply IH. exact Hacc.
    + destruct (IH (add acc (new Part r)) Hacc) as (H1 & H2 & H3 & H4).
      rewrite H1, H2, H3, H4. cbn [add children class_of number].
      rewrite length_app. cbn [length number_parts].
      rewrite <- app_assoc. cbn [app].
      replace (length (children acc) + 1)%nat
        with (S (length (children acc))) by lia.
      repeat split.
Qed.

(** X7: [build_parts] appends to the root one part per result that is
    not before the root, in the order of the results (they are never
    sorted), with the ordinals that follow those of the children the
    root had; nothing else of the root changes. *)
Theorem build_parts_appends_in_order
        (root : ContentsItem) (rs : list SearchResult) :
  children (build_parts root rs) =
    children root ++
    number_parts (length (children root))
      (filter (fun r => negb (truthy (is_before (new Part r) root))) rs) /\
  search_result (build_parts root rs) = search_result root /\
  class_of (build_parts root rs) = class_of root /\
  number (build_parts root rs) = number root.
Proof.
  apply (build_parts_from root root rs eq_refl).
Qed.

End OutlineBuild.

(** ** More on the clustering engine *)

Section CleanupShape.

Import WordTools.

Variable r : regex.

Lemma drop_ignorable_fixed (l : list Word) :
  (forall w, hd_error l = Some w -> ignorable r w = false) ->
  drop_ignorable r l = l.
Proof.
  destruct l as [|a l]; [reflexivity|]. intros H.
  cbn [drop_ignorable]. rewrite (H a eq_refl). reflexivity.
Qed.

Lemma trim_ends_ends (l : list Word) :
  (forall w, hd_error (trim_ends r l) = Some w -> ignorable r w = false) /\
  (forall w, hd_error (rev (trim_ends r l)) = Some w ->
             ignorable r w = false).
Proof.
  destruct (trim_ends_split r l) as (pre & post & _ & _ & _ & H1 & H2).
  split; assumption.
Qed.

Lemma trim_ends_fixed (l : list Word) :
  (forall w, hd_error l = Some w -> ignorable r w = false) ->
  (forall w, hd_error (rev l) = Some w -> ignorable r w = false) ->
  trim_ends r l = l.
Proof.
  intros H1 H2. unfold trim_ends.
  rewrite (drop_ignorable_fixed l H1), (drop_ignorable_fixed (rev l) H2).
  apply rev_involutive.
Qed.

Lemma collapse_runs_head (l : list Word) :
  hd_error (collapse_runs r false l) = hd_error l.
Proof.
  destruct l as [|a l]; [reflexivity|]. cbn [collapse_runs].
  destruct (ignorable r a); reflexivity.
Qed.

Lemma collapse_runs_last (m : bool) (l : list Word) (w : Word) :
  ignorable r w = false ->
  collapse_runs r m (l ++ [w]) = collapse_runs r m l ++ [w].
Proof.
  intros Hw. revert m. induction l as [|a l IH]; intros m;
    cbn [app collapse_runs].
  - rewrite Hw. reflexivity.
  - destruct (ignorable r a); [destruct m|]; rewrite IH; reflexivity.
Qed.

Lemma collapse_runs_rev_head (l : list Word) :
  (forall w, hd_error (rev l) = Some w -> ignorable r w = false) ->
  hd_error (rev (collapse_runs r false l)) = hd_error (rev l).
Proof.
  destruct l as [|a l] using rev_ind; [reflexivity|]. intros H.
  rewrite rev_app_distr in *. cbn [rev app hd_error] in *.
  rewrite (collapse_runs_last false l (H a eq_refl)).
  rewrite rev_app_distr. reflexivity.
Qed.

Lemma collapse_runs_twice (m : bool) (l : list Word) :
  collapse_runs r m (collapse_runs r m l) = collapse_runs r m l.
Proof.
  revert m. induction l as [|a l IH]; intros m; [reflexivity|].
  cbn [collapse_runs]. destruct (ignorable r a) eqn:E.
  - destruct m; [apply IH|].
    cbn [collapse_runs]. rewrite E, IH. reflexivity.
  - cbn [collapse_runs]. rewrite E, IH. reflexivity.
Qed.

Lemma collapse_runs_no_run (m : bool) (l : list Word) :
  forallb negb (run_mask r m (collapse_runs r m l)) = true.
Proof.
  revert m. induction l as [|a l IH]; intros m; [reflexivity|].
  cbn [collapse_runs]. destruct (ignorable r a) eqn:E.
  - destruct m; [apply IH|].
    cbn [run_mask]. rewrite E. cbn [forallb negb andb]. apply IH.
  - cbn [run_mask]. rewrite E. cbn [forallb negb andb]. apply IH.
Qed.

Lemma collapse_runs_nil (l : list Word) :
  collapse_runs r false l = [] -> l = [].
Proof.
  destruct l as [|a l]; [reflexivity|]. cbn [collapse_runs].
  destruct (ignorable r a); discriminate.
Qed.

(** The words of a cleaned line, when there are any. *)
Lemma cleaned_line_ends (line : Line) :
  (forall w, hd_error (children (cleaned_line r line)) = Some w ->
             ignorable r w = false) /\
  (forall w, hd_error (rev (children (cleaned_line r line))) = Some w ->
             ignorable r w = false).
Proof.
  destruct (trim_ends_ends (children line)) as [H1 H2].
  unfold cleaned_line. cbn [children].
  rewrite collapse_runs_head, (collapse_runs_rev_head _ H2).
  split; assumption.
Qed.

Lemma cleaned_line_twice (line : Line) :
  cleaned_line r (cleaned_line r line) = cleaned_line r line.
Proof.
  destruct (cleaned_line_ends line) as [H1 H2].
  unfold cleaned_line at 1. rewrite (trim_ends_fixed _ H1 H2).
  unfold cleaned_line. cbn [children]. rewrite collapse_runs_twice.
  reflexivity.
Qed.

Lemma filter_map_twice {X} (p : X -> bool) (f : X -> X) (l : list X) :
  (forall x, f (f x) = f x) ->
  filter p (map f (filter p (map f l))) = filter p (map f l).
Proof.
  intros Hf. induction l as [|a l IH]; [reflexivity|].
  cbn [map filter]. destruct (p (f a)) eqn:E.
  - cbn [map filter]. rewrite Hf, E, IH. reflexivity.
  - exact IH.
Qed.

Lemma cleaned_group_twice (group : LineGroup) :
  cleaned_group r (cleaned_group r group) = cleaned_group r group.
Proof.
  unfold cleaned_group. cbn [children].
  rewrite (filter_map_twice nonempty _ _ cleaned_line_twice). reflexivity.
Qed.

(** X8: the cleanup pass is idempotent: run on its own result, it
    returns that result. *)
Theorem clean_words_idempotent (line_groups : list LineGroup) :
  (cleaned <- clean_words (Some r) line_groups ;;
   clean_words (Some r) cleaned) =
  clean_words (Some r) line_groups.
Proof.
  rewrite clean_words_cleaned. cbn [bind]. rewrite clean_words_cleaned.
  f_equal. apply filter_map_twice. apply cleaned_group_twice.
Qed.

Lemma cleaned_line_tidy (line : Line) :
  nonempty (cleaned_line r line) = true -> tidy_line r (cleaned_line r line).
Proof.
  intros Hne. destruct (cleaned_line_ends line) as [H1 H2].
  repeat split; try assumption.
  - intros E. unfold nonempty in Hne.
    rewrite (proj2 (is_empty_nil _) E) in Hne. discriminate Hne.
  - unfold cleaned_line. cbn [children]. apply collapse_runs_no_run.
Qed.

Lemma cleaned_group_tidy (group : LineGroup) :
  nonempty (cleaned_group r group) = true ->
  tidy_group r (cleaned_group r group).
Proof.
  intros Hne. repeat split.
  - intros E. unfold nonempty in Hne.
    rewrite (proj2 (is_empty_nil _) E) in Hne. discriminate Hne.
  - unfold cleaned_group. cbn [children].
    apply Forall_forall. intros l Hl. apply filter_In in Hl.
    destruct Hl as [Hl Hn]. apply in_map_iff in Hl.
    destruct Hl as (l0 & <- & _). apply cleaned_line_tidy. exact Hn.
Qed.

Lemma cleaned_groups_tidy (line_groups : list LineGroup) :
  Forall (tidy_group r)
         (filter nonempty (map (cleaned_group r) line_groups)).
Proof.
  apply Forall_forall. intros g Hg. apply filter_In in Hg.
  destruct Hg as [Hg Hn]. apply in_map_iff in Hg.
  destruct Hg as (g0 & <- & _). apply cleaned_group_tidy. exact Hn.
Qed.

(** X9: with an ignore pattern, the cleanup pass always returns, and in
    what it returns no group is without lines, no line without words,
    every line starts and ends with a word that does not match the
    pattern, no matching word follows a matching word, and no bounds are
    cached. *)
Theorem clean_words_leaves_tidy (line_groups : list LineGroup) :
  exists cleaned : list LineGroup,
    clean_words (Some r) line_groups = Ok cleaned /\
    Forall (tidy_group r) cleaned.
Proof.
  eexists. split; [apply clean_words_cleaned|apply cleaned_groups_tidy].
Qed.

End CleanupShape.

Section CleanupWords.

Import WordTools.

Variable r : regex.

Lemma thinned_refl (l : list Word) : thinned r l l.
Proof. induction l; constructor; assumption. Qed.

Lemma thinned_all (l : list Word) :
  forallb (ignorable r) l = true -> thinned r l [].
Proof.
  induction l as [|a l IH]; cbn [forallb]; [constructor|].
  intros H. apply andb_prop in H. destruct H as [Ha Hl].
  apply thinned_drop; [exact Ha|apply IH; exact Hl].
Qed.

Lemma thinned_app (a a' b b' : list Word) :
  thinned r a a' -> thinned r b b' -> thinned r (a ++ b) (a' ++ b').
Proof.
  intros Ha Hb. induction Ha; cbn [app]; [exact Hb| |];
    constructor; assumption.
Qed.

Lemma thinned_trans (a b c : list Word) :
  thinned r a b -> thinned r b c -> thinned r a c.
Proof.
  intros Hab. revert c. induction Hab as [|w l l' _ IH|w l l' Hw _ IH];
    intros c Hbc.
  - exact Hbc.
  - inversion Hbc; subst.
    + apply thinned_keep. apply IH. assumption.
    + apply thinned_drop; [assumption|]. apply IH. assumption.
  - apply thinned_drop; [exact Hw|]. apply IH. exact Hbc.
Qed.

Lemma thinned_filter (l l' : list Word) :
  thinned r l l' ->
  filter (fun w => negb (ignorable r w)) l' =
  filter (fun w => negb (ignorable r w)) l.
Proof.
  induction 1 as [|w l l' _ IH|w l l' Hw _ IH]; cbn [filter].
  - reflexivity.
  - rewrite IH. reflexivity.
  - rewrite Hw. cbn [negb]. exact IH.
Qed.

Lemma thinned_trim (l : list Word) : thinned r l (trim_ends r l).
Proof.
  destruct (trim_ends_split r l) as (pre & post & Hl & Hpre & Hpost & _).
  assert (H : thinned r (pre ++ trim_ends r l ++ post)
                      ([] ++ trim_ends r l ++ [])).
  { apply thinned_app; [apply thinned_all; exact Hpre|].
    apply thinned_app; [apply thinned_refl|apply thinned_all; exact Hpost]. }
  rewrite app_nil_r in H. cbn [app] in H. rewrite <- Hl in H. exact H.
Qed.

Lemma thinned_collapse (m : bool) (l : list Word) :
  thinned r l (collapse_runs r m l).
Proof.
  revert m. induction l as [|a l IH]; intros m; cbn [collapse_runs];
    [constructor|].
  destruct (ignorable r a) eqn:E; [destruct m|].
  - apply thinned_drop; [exact E|apply IH].
  - apply thinned_keep. apply IH.
  - apply thinned_keep. apply IH.
Qed.

Lemma thinned_cleaned_line (line : Line) :
  thinned r (children line) (children (cleaned_line r line)).
Proof.
  unfold cleaned_line. cbn [children].
  eapply thinned_trans; [apply thinned_trim|apply thinned_collapse].
Qed.

Lemma nonempty_false {A} (g : GroupedElement A) :
  nonempty g = false -> children g = [].
Proof.
  unfold nonempty. intros H. apply is_empty_nil.
  destruct (is_empty g); [reflexivity|discriminate H].
Qed.

Lemma thinned_cleaned_lines (ls : list Line) :
  thinned r (concat (map children ls))
          (concat (map children (filter nonempty (map (cleaned_line r) ls)))).
Proof.
  induction ls as [|l ls IH]; [constructor|].
  cbn [map concat filter].
  destruct (nonempty (cleaned_line r l)) eqn:E.
  - cbn [map concat]. apply thinned_app;
      [apply thinned_cleaned_line|exact IH].
  - apply nonempty_false in E.
    replace (concat (map children
                         (filter nonempty (map (cleaned_line r) ls))))
      with ([] ++ concat (map children
                              (filter nonempty (map (cleaned_line r) ls))))
      by reflexivity.
    apply thinned_app; [|exact IH].
    rewrite <- E. apply thinned_cleaned_line.
Qed.

Lemma thinned_cleaned_group (g : LineGroup) :
  thinned r (concat (content g)) (concat (content (cleaned_group r g))).
Proof.
  unfold content, cleaned_group. cbn [children].
  apply thinned_cleaned_lines.
Qed.

Lemma thinned_cleaned_groups (gs : list LineGroup) :
  thinned r (all_words gs)
          (all_words (filter nonempty (map (cleaned_group r) gs))).
Proof.
  unfold all_words. induction gs as [|g gs IH]; [constructor|].
  cbn [map concat filter]. rewrite concat_app.
  destruct (nonempty (cleaned_group r g)) eqn:E.
  - cbn [map concat]. rewrite concat_app.
    apply thinned_app; [apply thinned_cleaned_group|exact IH].
  - apply nonempty_false in E.
    pose proof (thinned_cleaned_group g) as H.
    unfold content at 2 in H. rewrite E in H. cbn [map concat] in H.
    match goal with |- thinned _ _ ?x => change x with ([] ++ x) end.
    apply thinned_app; [exact H|exact IH].
Qed.

(** X10: the cleanup pass only deletes words that match the ignore
    pattern: the words of its result are the words of its argument, in
    the same order, without some matching words; every word that does
    not match is kept. *)
Theorem clean_words_only_deletes_ignorable (line_groups : list LineGroup) :
  exists cleaned : list LineGroup,
    clean_words (Some r) line_groups = Ok cleaned /\
    thinned r (all_words line_groups) (all_words cleaned) /\
    filter (fun w => negb (ignorable r w)) (all_words cleaned) =
    filter (fun w => negb (ignorable r w)) (all_words line_groups).
Proof.
  eexists. split; [apply clean_words_cleaned|].
  split; [apply thinned_cleaned_groups|].
  apply thinned_filter. apply thinned_cleaned_groups.
Qed.

End CleanupWords.

Section GroupingWords.

Import WordTools.

Lemma no_empty_content (line_groups : list LineGroup) :
  no_empty line_groups <->
  Forall (fun c : list (list Word) =>
            c <> [] /\ Forall (fun l : list Word => l <> []) c)
         (map content line_groups).
Proof.
  unfold no_empty. rewrite Forall_map.
  induction line_groups as [|g gs IH].
  - split; constructor.
  - split; intros H; inversion H as [|? ? [H1 H2] H3]; subst;
      (constructor; [|apply IH; exact H3]); unfold content in *.
    + split; [destruct (children g); [congruence|discriminate]|].
      rewrite Forall_map. exact H2.
    + split; [destruct (children g); [exfalso; apply H1; reflexivity
                                     |discriminate]|].
      rewrite Forall_map in H2. exact H2.
Qed.

Lemma content_last (groups : list LineGroup) (group : LineGroup)
      (lines : list Line) (last_line : Line) :
  children group = lines ++ [last_line] ->
  map content (groups ++ [group]) =
  map content groups ++ [map children lines ++ [children last_line]].
Proof.
  intros H. rewrite map_app. cbn [map]. unfold content at 2.
  rewrite H, map_app. reflexivity.
Qed.

Lemma concat_last {X} (l : list (list X)) (a : list X) :
  concat (l ++ [a]) = concat l ++ a.
Proof. rewrite concat_app. cbn [concat]. rewrite app_nil_r. reflexivity. Qed.

(** One turn of the loop, if it returns: the invariant holds again, the
    word is the last word of the new state, and no line or group is left
    empty. *)
Lemma group_step_words (th : Thresholds) (line_groups : list LineGroup)
      (word : Word) (line_groups' : list LineGroup) :
  loop_invariant line_groups ->
  group_step th line_groups word = Ok line_groups' ->
  loop_invariant line_groups' /\
  all_words line_groups' = all_words line_groups ++ [word] /\
  (no_empty line_groups -> no_empty line_groups').
Proof.
  intros (groups & group & -> & Hc & Hne & Hs) Hstep.
  destruct (exists_last Hne) as (lines & last_line & Hch).
  rewrite Hch in Hs. pose proof Hs as Hs0. apply Forall_app_last in Hs0.
  destruct Hs0 as [_ Hlast].
  destruct (line_measure factors_center Hlast) as (lc & Hlc & _).
  destruct (line_measure factors_height Hlast) as (lh & Hlh & _).
  destruct (line_measure factors_max_x Hlast) as (lx & Hlx & _).
  destruct (word_measure word factors_center) as (wc & Hwc).
  destruct (word_measure word factors_height) as (wh & Hwh).
  destruct (word_measure word factors_min_x) as (wx & Hwx).
  assert (Hw : sound_line (fresh_line [word]))
    by (apply fresh_line_sound; discriminate).
  destruct (line_measure factors_min_y Hw) as (ny & Hny & _).
  assert (Hs' : Forall sound_line (children group)) by (rewrite Hch; exact Hs).
  destruct (group_measure group factors_max_y Hc Hne Hs') as (gy & Hgy).
  rewrite (@group_step_run th groups group lines last_line word lc wc
             wh lh wx lx ny gy Hch Hc Hs Hlc Hwc Hwh Hlh Hwx Hlx Hny Hgy)
    in Hstep.
  destruct (slope lc wc) as [s|e]; [|discriminate Hstep].
  injection Hstep as <-.
  set (in_line := joins_line th s wh lh wx lx).
  set (in_group := joins_group th ny gy).
  pose proof (@after_step_content groups group lines last_line word Hc Hs
                                  in_line in_group) as Hcontent.
  pose proof (content_last groups group lines last_line Hch) as Hbefore.
  split; [apply after_step_invariant; assumption|]. split.
  - unfold all_words. rewrite Hcontent, Hbefore.
    destruct in_line; [|destruct in_group];
      repeat first [rewrite concat_app | rewrite app_nil_r
                   | progress cbn [concat app]];
      rewrite <- ?app_assoc; reflexivity.
  - rewrite !no_empty_content, Hcontent, Hbefore.
    intros H. apply Forall_app_last in H.
    destruct H as (Hg & _ & Hl). apply Forall_app_last in Hl.
    destruct Hl as [Hl Hll].
    destruct in_line; [|destruct in_group].
    + rewrite Forall_app_last. split; [exact Hg|].
      split; [destruct (map children lines); discriminate|].
      apply Forall_app_last. split; [exact Hl|].
      destruct (children last_line); discriminate.
    + rewrite Forall_app_last. split; [exact Hg|].
      split; [destruct (map children lines); discriminate|].
      apply Forall_app. split; [exact Hl|].
      constructor; [exact Hll|]. constructor; [discriminate|constructor].
    + apply Forall_app. split; [exact Hg|].
      constructor.
      * split; [destruct (map children lines); discriminate|].
        apply Forall_app_last. split; assumption.
      * constructor; [|constructor]. split; [discriminate|].
        constructor; [discriminate|constructor].
Qed.

Lemma group_loop_words (th : Thresholds) (words : list Word)
      (line_groups line_groups' : list LineGroup) :
  loop_invariant line_groups ->
  group_loop th words line_groups = Ok line_groups' ->
  loop_invariant line_groups' /\
  all_words line_groups' = all_words line_groups ++ words /\
  (no_empty line_groups -> no_empty line_groups').
Proof.
  revert line_groups. induction words as [|word words IH];
    intros line_groups Hinv; cbn [group_loop].
  - intros H; injection H as <-. rewrite app_nil_r. auto.
  - destruct (group_step th line_groups word) as [lg|e] eqn:Hstep;
      cbn [bind]; [|discriminate].
    intros Hloop.
    destruct (group_step_words th word Hinv Hstep) as (Hinv1 & Hw1 & Hn1).
    destruct (IH lg Hinv1 Hloop) as (Hinv2 & Hw2 & Hn2).
    split; [exact Hinv2|]. split; [|auto].
    rewrite Hw2, Hw1, <- app_assoc. reflexivity.
Qed.

Lemma first_state_facts (first : Word) :
  loop_invariant (first_state first) /\
  all_words (first_state first) = [first] /\
  no_empty (first_state first).
Proof.
  split; [|split].
  - exists [], (add new_LineGroup (add new_Line first)).
    repeat split; try discriminate.
    constructor; [|constructor]. split; [discriminate|].
    intros b E. discriminate E.
  - reflexivity.
  - constructor; [|constructor]. split; [discriminate|].
    constructor; [discriminate|constructor].
Qed.

(** X11: the grouping loop, started on the state the constructor leaves
    for the first word, only distributes the words: if it returns, the
    words of its state, read group by group and line by line, are the
    first word followed by the words it was given, each once and in the
    same order; no group is left without lines and no line without
    words. *)
Theorem group_loop_distributes_words
        (th : Thresholds) (first : Word) (words : list Word)
        (line_groups : list LineGroup) :
  group_loop th words (first_state first) = Ok line_groups ->
  all_words line_groups = first :: words /\ no_empty line_groups.
Proof.
  intros Hloop.
  destruct (first_state_facts first) as (Hinv & Hw & Hn).
  destruct (group_loop_words th words Hinv Hloop) as (_ & Hw' & Hn').
  split; [rewrite Hw', Hw; reflexivity|auto].
Qed.

(** The theorem on the line [Intro . . 5]. *)
Lemma group_loop_distributes_words_witness :
  exists line_groups : list LineGroup,
    group_loop DEFAULT_PROXIMITY_THRESHOLDS [w_dot1; w_dot2; w_five]
               (first_state w_intro) = Ok line_groups /\
    all_words line_groups = dotted_line /\ no_empty line_groups.
Proof.
  eexists. split; [vm_compute; reflexivity|].
  apply (@group_loop_distributes_words DEFAULT_PROXIMITY_THRESHOLDS w_intro
           [w_dot1; w_dot2; w_five]).
  vm_compute. reflexivity.
Defined.

Lemma init_first_state (pw ph : Q) (first : Word) (rest : list Word)
      (re : option regex) (up : option ThresholdUpdate) :
  exists self, init pw ph (first :: rest) re up = Ok self /\
               words self = rest /\ ignore_regex self = re /\
               line_groups self = first_state first.
Proof. eexists. split; [reflexivity|]. repeat split. Qed.

(** X12: what a run returns, for an ignore pattern that is present: the
    words of the result are the words given, in the same order, without
    some words that match the pattern; every word that does not match is
    there; every group and line of the result is as the cleanup leaves
    it. *)
Theorem group_words_only_drops_ignorable
        (page_width page_height : Q) (words : list Word) (r : regex)
        (thresholds : option ThresholdUpdate) (out : list LineGroup) :
  group_words page_width page_height words (Some r) thresholds = Ok out ->
  thinned r words (all_words out) /\
  filter (fun w => negb (ignorable r w)) (all_words out) =
  filter (fun w => negb (ignorable r w)) words /\
  Forall (tidy_group r) out.
Proof.
  destruct words as [|first rest]; [discriminate|].
  unfold group_words.
  destruct (init_first_state page_width page_height first rest (Some r)
                             thresholds)
    as (self & -> & Hw & Hr & Hlg).
  cbn [bind]. unfold group. rewrite Hw, Hr, Hlg.
  destruct (group_loop (proximity_thresholds self) rest (first_state first))
    as [lg|e] eqn:Hloop; cbn [bind]; [|discriminate].
  destruct (first_state_facts first) as (Hinv & Hf & _).
  destruct (group_loop_words _ rest Hinv Hloop) as (_ & Hall & _).
  rewrite Hf in Hall. cbn [app] in Hall.
  rewrite clean_words_cleaned. intros H; injection H as <-.
  rewrite <- Hall. split; [apply thinned_cleaned_groups|].
  split; [apply thinned_filter; apply thinned_cleaned_groups|].
  apply cleaned_groups_tidy.
Qed.

(** The theorem on the line [Intro . . 5]: the second dot is dropped. *)
Lemma group_words_only_drops_ignorable_witness :
  exists out : list LineGroup,
    group_words 100 100 dotted_line (Some GROUP_IGNORE) None = Ok out /\
    all_words out = [w_intro; w_dot1; w_five] /\
    thinned GROUP_IGNORE dotted_line (all_words out).
Proof.
  eexists. split; [vm_compute; reflexivity|].
  split; [vm_compute; reflexivity|].
  apply (@group_words_only_drops_ignorable 100 100 dotted_line GROUP_IGNORE
           None).
  vm_compute. reflexivity.
Defined.

Lemma clean_words_no_pattern (g : LineGroup) (gs : list LineGroup)
      (l : Line) (ls : list Line) :
  children g = l :: ls -> children l <> [] ->
  clean_words None (g :: gs) = Raise TypeError.
Proof.
  intros Hg Hl. unfold clean_words, enumerate.
  cbn [length seq combine clean_each].
  unfold clean_group at 1. rewrite Hg. unfold enumerate.
  cbn [length seq combine clean_each].
  unfold clean_line at 1, is_empty.
  destruct (children l) as [|w ws] eqn:E; [congruence|].
  cbn [length Nat.eqb]. unfold trim_line, is_empty. rewrite E.
  cbn [length Nat.eqb]. unfold do_trim_line_words at 1.
  rewrite rev_involutive. cbn [trim_stack fullmatch bind fmap]. reflexivity.
Qed.

(** X13: without an ignore pattern a run never returns: on a word
    sequence that is not empty it ends in the [TypeError] of the first
    pattern match of the cleanup, unless a slope test of the loop has
    divided by zero before. *)
Theorem group_words_needs_pattern
        (page_width page_height : Q) (words : list Word)
        (thresholds : option ThresholdUpdate) :
  words <> [] ->
  group_words page_width page_height words None thresholds
    = Raise TypeError \/
  group_words page_width page_height words None thresholds
    = Raise ZeroDivisionError.
Proof.
  intros Hne. destruct words as [|first rest]; [congruence|]. clear Hne.
  unfold group_words.
  destruct (init_first_state page_width page_height first rest None
                             thresholds)
    as (self & -> & Hw & Hr & Hlg).
  cbn [bind]. unfold group. rewrite Hw, Hr, Hlg.
  destruct (first_state_facts first) as (Hinv & _ & Hn).
  destruct (group_loop_total (proximity_thresholds self) rest Hinv)
    as [(lg & Hloop & _)| ->]; cbn [bind]; [|right; reflexivity].
  destruct (group_loop_words _ rest Hinv Hloop) as (Hinv' & _ & Hn').
  specialize (Hn' Hn). rewrite Hloop. cbn [bind]. left.
  destruct Hinv' as (gs & g & Hlg' & _).
  destruct lg as [|g0 gs0]; [destruct gs; discriminate Hlg'|].
  inversion Hn' as [|? ? [Hg0 Hl0] _]; subst.
  destruct (children g0) as [|l ls] eqn:E; [congruence|].
  inversion Hl0; subst.
  eapply clean_words_no_pattern; eassumption.
Qed.

(** The theorem on the line [Intro . . 5]. *)
Lemma group_words_needs_pattern_witness :
  group_words 100 100 dotted_line None None = Raise TypeError \/
  group_words 100 100 dotted_line None None = Raise ZeroDivisionError.
Proof.
  apply (@group_words_needs_pattern 100 100 dotted_line None).
  discriminate.
Defined.

End GroupingWords.

Section OutlineFailure.

Import Outline.

Lemma parent_candidate_none (d : ContentsItem) (cs : list ContentsItem) :
  parent_candidate d cs = None <-> no_candidate d cs.
Proof.
  pose proof (parent_candidate_cases d cs) as Hc.
  destruct (parent_candidate d cs) as [[index p]|].
  - split; [discriminate|]. intros Hn. exfalso.
    destruct Hc as (pre & post & -> & _ & Hall & _).
    destruct pre as [|a pre]; cbn [app no_candidate] in *;
      inversion Hall; congruence.
  - split; [|reflexivity]. intros _.
    destruct Hc as [->|(c & rest & -> & Hc)]; [exact I|exact Hc].
Qed.

Lemma no_candidate_same (d : ContentsItem) (cs cs' : list ContentsItem) :
  map search_result cs = map search_result cs' ->
  no_candidate d cs <-> no_candidate d cs'.
Proof.
  destruct cs as [|c cs], cs' as [|c' cs']; cbn [map no_candidate];
    try discriminate; [reflexivity|].
  intros H. injection H as H _.
  rewrite (is_before_same_anchor d c c' H). reflexivity.
Qed.

(** The search on a node whose children are all of the required class
    stops at the first level. *)
Lemma find_parent_for_one_level (self d : ContentsItem) (ty : cls) :
  Forall (fun p => class_of p = ty) (children self) ->
  find_parent_for self d ty =
  match parent_candidate d (children self) with
  | None => Raise RuntimeError
  | Some (index, p) => Ok ([index], p)
  end.
Proof.
  intros Hall. funelim (find_parent_for self d ty).
  - rewrite Hparent.
    pose proof (parent_candidate_size _ _ Hparent) as Hnth.
    apply nth_error_In in Hnth.
    rewrite Forall_forall in Hall. specialize (Hall _ Hnth).
    unfold isinstance. rewrite Hall.
    rewrite (proj2 (cls_eqb_eq parent_type parent_type) eq_refl).
    reflexivity.
  - match goal with E : parent_candidate _ _ = None |- _ => rewrite E end.
    reflexivity.
Qed.

Lemma build_chapter_step (contents : ContentsItem) (r : SearchResult) :
  Forall (fun p => class_of p = Part) (children contents) ->
  match build_chapter contents r with
  | Ok contents' =>
      search_result contents' = search_result contents /\
      map search_result (children contents') =
        map search_result (children contents) /\
      Forall (fun p => class_of p = Part) (children contents') /\
      (truthy (is_before (new Chapter r) contents) = true \/
       ~ no_candidate (new Chapter r) (children contents))
  | Raise e =>
      e = RuntimeError /\
      truthy (is_before (new Chapter r) contents) = false /\
      no_candidate (new Chapter r) (children contents)
  end.
Proof.
  intros Hall. unfold build_chapter.
  destruct (truthy (is_before (new Chapter r) contents)) eqn:Hb.
  - repeat split; auto.
  - rewrite (find_parent_for_one_level contents (new Chapter r) Hall).
    pose proof (parent_candidate_none (new Chapter r) (children contents))
      as Hnone.
    destruct (parent_candidate (new Chapter r) (children contents))
      as [[index p]|]; cbn [bind].
    + split; [reflexivity|].
      destruct contents as [c s n cs]. cbn [add_at children class_of
                                             search_result number] in *.
      split; [|split].
      * apply map_update_nth_same. intros a. reflexivity.
      * apply Forall_update_nth; [exact Hall|].
        intros a _ Ha. exact Ha.
      * right. intros Hn. apply Hnone in Hn. discriminate Hn.
    + repeat split. apply Hnone. reflexivity.
Qed.

Lemma is_before_root_same (d c c' : ContentsItem) :
  search_result c = search_result c' ->
  truthy (is_before d c) = truthy (is_before d c').
Proof. intros H. rewrite (is_before_same_anchor d c c' H). reflexivity. Qed.

(** X14: on a root whose children are parts, [build_chapters] fails, with
    [RuntimeError], exactly when some chapter anchor that is not before
    the root has no part to go to: the root has no parts, or the anchor
    is before the first part.  Otherwise it returns. *)
Theorem build_chapters_raises_exactly
        (contents : ContentsItem) (chapter_results : list SearchResult) :
  Forall (fun p => class_of p = Part) (children contents) ->
  match build_chapters contents chapter_results with
  | Ok _ =>
      Forall (fun r =>
                truthy (is_before (new Chapter r) contents) = true \/
                ~ no_candidate (new Chapter r) (children contents))
             chapter_results
  | Raise e =>
      e = RuntimeError /\
      Exists (fun r =>
                truthy (is_before (new Chapter r) contents) = false /\
                no_candidate (new Chapter r) (children contents))
             chapter_results
  end.
Proof.
  unfold build_chapters. revert contents.
  induction chapter_results as [|r rs IH]; intros contents Hall;
    cbn [for_each]; [constructor|].
  pose proof (build_chapter_step contents r Hall) as Hstep.
  destruct (build_chapter contents r) as [contents'|e]; cbn [bind].
  - destruct Hstep as (Hsr & Hcs & Hall' & Hr).
    specialize (IH contents' Hall').
    assert (Hsame : forall r0 : SearchResult,
               (truthy (is_before (new Chapter r0) contents') =
                truthy (is_before (new Chapter r0) contents)) /\
               (no_candidate (new Chapter r0) (children contents') <->
                no_candidate (new Chapter r0) (children contents))).
    { intros r0. split; [apply is_before_root_same; exact Hsr|].
      apply no_candidate_same. exact Hcs. }
    destruct (for_each build_chapter rs contents') as [out|e].
    + constructor; [exact Hr|].
      eapply Forall_impl; [|exact IH]. intros r0.
      destruct (Hsame r0) as [-> ->]. auto.
    + destruct IH as [-> IH]. split; [reflexivity|].
      apply Exists_cons_tl. eapply Exists_impl; [|exact IH].
      intros r0. destruct (Hsame r0) as [-> ->]. auto.
  - destruct Hstep as (-> & Hb & Hn). split; [reflexivity|].
    apply Exists_cons_hd. split; assumption.
Qed.

(** The theorem on the sample outline and a chapter anchor between the
    root and the first part: the run fails. *)
Lemma build_chapters_raises_exactly_witness :
  build_chapters sample_contents [later_chapter; early_chapter] =
    Raise RuntimeError /\
  Exists (fun r =>
            truthy (is_before (new Chapter r) sample_contents) = false /\
            no_candidate (new Chapter r) (children sample_contents))
         [later_chapter; early_chapter].
Proof.
  split; [vm_compute; reflexivity|].
  assert (H : Forall (fun p => class_of p = Part) (children sample_contents))
    by (repeat constructor).
  pose proof (@build_chapters_raises_exactly sample_contents
                [later_chapter; early_chapter] H) as Hx.
  replace (build_chapters sample_contents [later_chapter; early_chapter])
    with (@Raise ContentsItem RuntimeError) in Hx
    by (vm_compute; reflexivity).
  exact (proj2 Hx).
Defined.

End OutlineFailure.

Section BoxGeometry.

Import WordTools.

Ltac order_facts :=
  repeat match goal with
         | H : Qlt_bool _ _ = true |- _ => apply Qlt_bool_iff in H
         | H : Qlt_bool _ _ = false |- _ => apply Qlt_bool_false_iff in H
         end.

Ltac run_sort :=
  unfold sort; cbn [fold_left insert_sorted];
  repeat match goal with
         | |- context [Qlt_bool ?a ?b] =>
             destruct (Qlt_bool a b) eqn:?; cbn [fold_left insert_sorted]
         end;
  order_facts.

(** [sorted] puts four numbers in order. *)
Lemma sort_four (x1 x2 x3 x4 : Q) :
  exists a b c d : Q,
    sort [x1; x2; x3; x4] = [a; b; c; d] /\
    (a <= b)%Q /\ (b <= c)%Q /\ (c <= d)%Q.
Proof.
  run_sort; do 4 eexists; (split; [reflexivity|]); repeat split; lra.
Qed.

Lemma word_coordinates (axis : Axis) (w : Word) :
  exists a b c d : Q,
    coordinates axis w = Ok ([a; b; c; d], w) /\
    (a <= b)%Q /\ (b <= c)%Q /\ (c <= d)%Q.
Proof.
  destruct w as [t [[[[x1 y1] [x2 y2]] [x3 y3]] [x4 y4]] br].
  unfold coordinates. cbn [bounds Word_Element bind]. unfold word_bounds.
  cbn [word_vertices vertices map vertex_of fst snd].
  destruct axis; unfold sorted;
    cbn [map get get_x get_y vertex_of fst snd numbers option_map].
  - destruct (sort_four x1 x2 x3 x4) as (a & b & c & d & -> & H).
    cbn [bind]. exists a, b, c, d. split; [reflexivity|exact H].
  - destruct (sort_four y1 y2 y3 y4) as (a & b & c & d & -> & H).
    cbn [bind]. exists a, b, c, d. split; [reflexivity|exact H].
Qed.

Lemma halves_ordered (a b c d : Q) :
  (a <= b)%Q -> (b <= c)%Q -> (c <= d)%Q ->
  (sum (firstn 2 [a; b; c; d]) / 2 <= sum (skipn 2 [a; b; c; d]) / 2)%Q.
Proof.
  intros. unfold sum, Qdiv. cbn [firstn skipn fold_left].
  change (/ 2)%Q with (1 # 2)%Q. lra.
Qed.

Lemma span_of_ordered (lo hi : Q) :
  (lo <= hi)%Q ->
  (Qabs (hi - lo) == hi - lo)%Q /\
  (lo + Qabs (hi - lo) / 2 == (lo + hi) / 2)%Q.
Proof.
  intros H. assert (E : (Qabs (hi - lo) == hi - lo)%Q)
    by (apply Qabs_pos; lra).
  split; [exact E|]. rewrite E. field.
Qed.

Lemma word_box (w : Word) :
  exists lo_x hi_x lo_y hi_y : Q,
    measure min_x w = Ok lo_x /\ measure max_x w = Ok hi_x /\
    measure min_y w = Ok lo_y /\ measure max_y w = Ok hi_y /\
    (lo_x <= hi_x)%Q /\ (lo_y <= hi_y)%Q /\
    (exists wd : Q, measure width w = Ok wd /\ (wd == hi_x - lo_x)%Q) /\
    (exists h : Q, measure height w = Ok h /\ (h == hi_y - lo_y)%Q) /\
    (exists c : point,
        measure center w = Ok c /\
        (fst c == (lo_x + hi_x) / 2)%Q /\ (snd c == (lo_y + hi_y) / 2)%Q).
Proof.
  destruct (word_coordinates AxisX w) as (a & b & c & d & Hx & Hab & Hbc & Hcd).
  destruct (word_coordinates AxisY w)
    as (a' & b' & c' & d' & Hy & Hab' & Hbc' & Hcd').
  pose proof (halves_ordered Hab Hbc Hcd) as Hxo.
  pose proof (halves_ordered Hab' Hbc' Hcd') as Hyo.
  destruct (span_of_ordered Hxo) as [Hw Hcx].
  destruct (span_of_ordered Hyo) as [Hh Hcy].
  exists (sum (firstn 2 [a; b; c; d]) / 2)%Q,
    (sum (skipn 2 [a; b; c; d]) / 2)%Q,
    (sum (firstn 2 [a'; b'; c'; d']) / 2)%Q,
    (sum (skipn 2 [a'; b'; c'; d']) / 2)%Q.
  unfold measure, center, center_x, center_y, width, height,
    min_x, max_x, min_y, max_y, x_coordinates, y_coordinates.
  repeat (rewrite ?Hx, ?Hy; cbn [bind fmap fst]).
  repeat (split; [first [reflexivity|assumption]|]).
  split; [eexists; split; [reflexivity|exact Hw]|].
  split; [eexists; split; [reflexivity|exact Hh]|].
  eexists. split; [reflexivity|]. cbn [fst snd]. split; assumption.
Qed.


(** X15: the box of a word.  Whatever the order of its four vertices,
    the left edge read is not right of the right edge and the top edge
    not below the bottom edge; the width and the height are their
    differences, and the center is the midpoint of the box. *)
Theorem word_box_geometry (w : Word) :
  exists lo_x hi_x lo_y hi_y : Q,
    measure min_x w = Ok lo_x /\ measure max_x w = Ok hi_x /\
    measure min_y w = Ok lo_y /\ measure max_y w = Ok hi_y /\
    (lo_x <= hi_x)%Q /\ (lo_y <= hi_y)%Q /\
    (exists wd : Q, measure width w = Ok wd /\ (wd == hi_x - lo_x)%Q) /\
    (exists h : Q, measure height w = Ok h /\ (h == hi_y - lo_y)%Q) /\
    (exists c : point,
        measure center w = Ok c /\
        (fst c == (lo_x + hi_x) / 2)%Q /\ (snd c == (lo_y + hi_y) / 2)%Q).
Proof. exact (word_box w). Qed.

Lemma word_edges_ordered (w : Word) (lo_x hi_x lo_y hi_y : Q) :
  measure min_x w = Ok lo_x -> measure max_x w = Ok hi_x ->
  measure min_y w = Ok lo_y -> measure max_y w = Ok hi_y ->
  (lo_x <= hi_x)%Q /\ (lo_y <= hi_y)%Q.
Proof.
  destruct (word_box w)
    as (a & b & c & d & -> & -> & -> & -> & Hx & Hy & _).
  intros E1 E2 E3 E4.
  injection E1 as <-. injection E2 as <-. injection E3 as <-.
  injection E4 as <-. split; assumption.
Qed.

Lemma py_min_spec (a : Q) (rest : list Q) :
  Forall (fun v => (py_min a rest <= v)%Q) (a :: rest) /\
  In (py_min a rest) (a :: rest).
Proof.
  unfold py_min. revert a. induction rest as [|v rest IH]; intros a;
    cbn [fold_left].
  - split; [constructor; [apply Qle_refl|constructor]|left; reflexivity].
  - destruct (IH (if Qlt_bool v a then v else a)) as [Hall Hin].
    inversion Hall as [|? ? Hhd Htl]; subst.
    destruct (Qlt_bool v a) eqn:E; order_facts.
    + split.
      * constructor; [lra|]. constructor; assumption.
      * right. exact Hin.
    + split.
      * constructor; [assumption|]. constructor; [lra|assumption].
      * destruct Hin as [Hin|Hin]; [left; exact Hin|right; right; exact Hin].
Qed.

Lemma py_max_spec (a : Q) (rest : list Q) :
  Forall (fun v => (v <= py_max a rest)%Q) (a :: rest) /\
  In (py_max a rest) (a :: rest).
Proof.
  unfold py_max. revert a. induction rest as [|v rest IH]; intros a;
    cbn [fold_left].
  - split; [constructor; [apply Qle_refl|constructor]|left; reflexivity].
  - destruct (IH (if Qlt_bool a v then v else a)) as [Hall Hin].
    inversion Hall as [|? ? Hhd Htl]; subst.
    destruct (Qlt_bool a v) eqn:E; order_facts.
    + split.
      * constructor; [lra|]. constructor; assumption.
      * right. exact Hin.
    + split.
      * constructor; [assumption|]. constructor; [lra|assumption].
      * destruct Hin as [Hin|Hin]; [left; exact Hin|right; right; exact Hin].
Qed.

Lemma list_min_spec (vs : list Q) (m : Q) :
  list_min vs = Some m -> Forall (fun v => (m <= v)%Q) vs /\ In m vs.
Proof.
  destruct vs as [|a [|b vs]]; cbn [list_min]; [discriminate| |];
    intros E; injection E as <-.
  - split; [constructor; [apply Qle_refl|constructor]|left; reflexivity].
  - exact (@py_min_spec a (b :: vs)).
Qed.

Lemma list_max_spec (vs : list Q) (m : Q) :
  list_max vs = Some m -> Forall (fun v => (v <= m)%Q) vs /\ In m vs.
Proof.
  destruct vs as [|a [|b vs]]; cbn [list_max]; [discriminate| |];
    intros E; injection E as <-.
  - split; [constructor; [apply Qle_refl|constructor]|left; reflexivity].
  - exact (@py_max_spec a (b :: vs)).
Qed.

Lemma each_words_values (m : Word -> result (Q * Word))
      (mb : Bounds -> result (Q * Bounds)) (ws : list Word) :
  factors m mb ->
  exists vs, each m ws = Ok (vs, ws) /\
             Forall2 (fun w v => measure m w = Ok v) ws vs.
Proof.
  intros Hf. induction ws as [|w ws (vs & IH & Hvs)].
  - exists []. split; [reflexivity|constructor].
  - destruct (word_read w Hf) as (v & _ & Hv).
    exists (v :: vs). cbn [each]. rewrite Hv. cbn [bind]. rewrite IH.
    cbn [bind]. split; [reflexivity|].
    constructor; [eapply measure_ok; exact Hv|exact Hvs].
Qed.

Lemma Forall2_In_l {X Y} (R : X -> Y -> Prop) (xs : list X) (ys : list Y)
      (x : X) :
  Forall2 R xs ys -> In x xs -> exists y, In y ys /\ R x y.
Proof.
  induction 1 as [|a b xs ys Hab _ IH]; cbn [In]; [tauto|].
  intros [<-|Hin]; [eauto|].
  destruct (IH Hin) as (y & Hy & Hr). eauto.
Qed.

Lemma Forall2_In_r {X Y} (R : X -> Y -> Prop) (xs : list X) (ys : list Y)
      (y : Y) :
  Forall2 R xs ys -> In y ys -> exists x, In x xs /\ R x y.
Proof.
  induction 1 as [|a b xs ys Hab _ IH]; cbn [In]; [tauto|].
  intros [<-|Hin]; [eauto|].
  destruct (IH Hin) as (x & Hx & Hr). eauto.
Qed.

Lemma least_of_values (m : Word -> result (Q * Word)) (ws : list Word)
      (vs : list Q) (mn v : Q) :
  Forall2 (fun w u => measure m w = Ok u) ws vs ->
  list_min vs = Some mn -> (v == mn)%Q -> least_of m ws v.
Proof.
  intros Hvs Hmin Hv. apply list_min_spec in Hmin.
  destruct Hmin as [Hall Hin]. split.
  - intros w u Hw Hu.
    destruct (Forall2_In_l w Hvs Hw) as (u' & Hu' & Hr).
    rewrite Hu in Hr. injection Hr as <-.
    rewrite Forall_forall in Hall. specialize (Hall u Hu'). lra.
  - destruct (Forall2_In_r mn Hvs Hin) as (w & Hw & Hr).
    exists w, mn. repeat split; [assumption..|]. symmetry. exact Hv.
Qed.

Lemma greatest_of_values (m : Word -> result (Q * Word)) (ws : list Word)
      (vs : list Q) (mx v : Q) :
  Forall2 (fun w u => measure m w = Ok u) ws vs ->
  list_max vs = Some mx -> (v == mx)%Q -> greatest_of m ws v.
Proof.
  intros Hvs Hmax Hv. apply list_max_spec in Hmax.
  destruct Hmax as [Hall Hin]. split.
  - intros w u Hw Hu.
    destruct (Forall2_In_l w Hvs Hw) as (u' & Hu' & Hr).
    rewrite Hu in Hr. injection Hr as <-.
    rewrite Forall_forall in Hall. specialize (Hall u Hu'). lra.
  - destruct (Forall2_In_r mx Hvs Hin) as (w & Hw & Hr).
    exists w, mx. repeat split; [assumption..|]. symmetry. exact Hv.
Qed.

(** The sorted coordinates of a box whose corners are listed as
    [grouped_bounds] lists them. *)
Lemma box_sorted_x (m M : Q) :
  (m <= M)%Q ->
  exists a b c d : Q,
    sort [m; m; M; M] = [a; b; c; d] /\
    (sum (firstn 2 [a; b; c; d]) / 2 == m)%Q /\
    (sum (skipn 2 [a; b; c; d]) / 2 == M)%Q.
Proof.
  intros H. run_sort; do 4 eexists; (split; [reflexivity|]);
    unfold sum, Qdiv; cbn [firstn skipn fold_left];
    change (/ 2)%Q with (1 # 2)%Q; split; lra.
Qed.

Lemma box_sorted_y (m M : Q) :
  (m <= M)%Q ->
  exists a b c d : Q,
    sort [m; M; M; m] = [a; b; c; d] /\
    (sum (firstn 2 [a; b; c; d]) / 2 == m)%Q /\
    (sum (skipn 2 [a; b; c; d]) / 2 == M)%Q.
Proof.
  intros H. run_sort; do 4 eexists; (split; [reflexivity|]);
    unfold sum, Qdiv; cbn [firstn skipn fold_left];
    change (/ 2)%Q with (1 # 2)%Q; split; lra.
Qed.

(** X16: the box of a line with no bounds cached is the smallest box
    around the boxes of its words: its left edge is the least left edge
    of a word, its right edge the greatest right edge, and so for the
    top and the bottom. *)
Theorem line_box_spans_words (w : Word) (ws : list Word) :
  exists lo_x hi_x lo_y hi_y : Q,
    measure min_x (fresh_line (w :: ws)) = Ok lo_x /\
    measure max_x (fresh_line (w :: ws)) = Ok hi_x /\
    measure min_y (fresh_line (w :: ws)) = Ok lo_y /\
    measure max_y (fresh_line (w :: ws)) = Ok hi_y /\
    least_of min_x (w :: ws) lo_x /\ greatest_of max_x (w :: ws) hi_x /\
    least_of min_y (w :: ws) lo_y /\ greatest_of max_y (w :: ws) hi_y.
Proof.
  destruct (each_words_values (w :: ws) factors_min_x) as (v1 & E1 & F1).
  destruct (each_words_values (w :: ws) factors_max_x) as (v2 & E2 & F2).
  destruct (each_words_values (w :: ws) factors_min_y) as (v3 & E3 & F3).
  destruct (each_words_values (w :: ws) factors_max_y) as (v4 & E4 & F4).
  assert (Hb : bounds (fresh_line (w :: ws)) =
               Ok (box_of v1 v2 v3 v4,
                   {| children := w :: ws;
                      _bounds := Some (box_of v1 v2 v3 v4) |})).
  { cbn [bounds GroupedElement_Element]. unfold grouped_bounds, fresh_line.
    cbn [_bounds children]. rewrite E1. cbn [bind]. rewrite E2. cbn [bind].
    rewrite E3. cbn [bind]. rewrite E4. reflexivity. }
  destruct (@list_min_some v1) as [m1 Hm1];
    [inversion F1; discriminate|].
  destruct (@list_max_some v2) as [m2 Hm2];
    [inversion F2; discriminate|].
  destruct (@list_min_some v3) as [m3 Hm3];
    [inversion F3; discriminate|].
  destruct (@list_max_some v4) as [m4 Hm4];
    [inversion F4; discriminate|].
  assert (Hord : (m1 <= m2)%Q /\ (m3 <= m4)%Q).
  { destruct (list_min_spec _ Hm1) as [A1 _].
    destruct (list_max_spec _ Hm2) as [A2 _].
    destruct (list_min_spec _ Hm3) as [A3 _].
    destruct (list_max_spec _ Hm4) as [A4 _].
    inversion F1 as [|? x1 ? ? R1 _]; subst.
    inversion F2 as [|? x2 ? ? R2 _]; subst.
    inversion F3 as [|? x3 ? ? R3 _]; subst.
    inversion F4 as [|? x4 ? ? R4 _]; subst.
    destruct (word_edges_ordered w R1 R2 R3 R4) as [Hx Hy].
    inversion A1; inversion A2; inversion A3; inversion A4; subst.
    split; lra. }
  destruct Hord as [Hx Hy].
  destruct (box_sorted_x Hx) as (a & b & c & d & Sx & Lx & Ux).
  destruct (box_sorted_y Hy) as (a' & b' & c' & d' & Sy & Ly & Uy).
  assert (Cx : coordinates AxisX (fresh_line (w :: ws)) =
               Ok ([a; b; c; d],
                   {| children := w :: ws;
                      _bounds := Some (box_of v1 v2 v3 v4) |})).
  { unfold coordinates. rewrite Hb. cbn [bind]. unfold box_of.
    cbn [vertices map get get_x get_y]. rewrite Hm1, Hm2. unfold sorted.
    cbn [numbers option_map]. rewrite Sx. reflexivity. }
  assert (Cy : coordinates AxisY (fresh_line (w :: ws)) =
               Ok ([a'; b'; c'; d'],
                   {| children := w :: ws;
                      _bounds := Some (box_of v1 v2 v3 v4) |})).
  { unfold coordinates. rewrite Hb. cbn [bind]. unfold box_of.
    cbn [vertices map get get_x get_y]. rewrite Hm3, Hm4. unfold sorted.
    cbn [numbers option_map]. rewrite Sy. reflexivity. }
  exists (sum (firstn 2 [a; b; c; d]) / 2)%Q,
    (sum (skipn 2 [a; b; c; d]) / 2)%Q,
    (sum (firstn 2 [a'; b'; c'; d']) / 2)%Q,
    (sum (skipn 2 [a'; b'; c'; d']) / 2)%Q.
  unfold measure at 1 2 3 4.
  unfold min_x at 1, max_x at 1, min_y at 1, max_y at 1,
    x_coordinates, y_coordinates.
  rewrite Cx, Cy. cbn [bind fmap fst].
  repeat (split; [reflexivity|]).
  split; [exact (@least_of_values _ _ _ _ _ F1 Hm1 Lx)|].
  split; [exact (@greatest_of_values _ _ _ _ _ F2 Hm2 Ux)|].
  split; [exact (@least_of_values _ _ _ _ _ F3 Hm3 Ly)|].
  exact (@greatest_of_values _ _ _ _ _ F4 Hm4 Uy).
Qed.

End BoxGeometry.

Section SlopeFacts.

Import WordTools.

Ltac equality_facts :=
  repeat match goal with
         | H : Qeq_bool _ _ = true |- _ => apply Qeq_bool_iff in H
         | H : Qeq_bool _ _ = false |- _ => apply Qeq_bool_neq in H
         end.

Ltac absurd_equality :=
  match goal with
  | H : ~ (_ == _)%Q |- _ => solve [exfalso; apply H; lra]
  end.

(** X17: the slope between two points.  It does not depend on the order
    of the points, and it divides by zero exactly when the points are
    one above the other: same x, different y. *)
Theorem slope_symmetric_and_vertical (a b : point) :
  (slope a b = Raise ZeroDivisionError <->
   (fst a == fst b)%Q /\ ~ (snd a == snd b)%Q) /\
  match slope a b, slope b a with
  | Ok s, Ok s' => (s == s')%Q
  | Raise e, Raise e' => e = e'
  | _, _ => False
  end.
Proof.
  unfold slope, point_eqb.
  destruct (Qeq_bool (fst a) (fst b)) eqn:E1,
           (Qeq_bool (snd a) (snd b)) eqn:E2,
           (Qeq_bool (fst b) (fst a)) eqn:E3,
           (Qeq_bool (snd b) (snd a)) eqn:E4,
           (Qeq_bool (fst b - fst a) 0) eqn:E5,
           (Qeq_bool (fst a - fst b) 0) eqn:E6;
    cbn [andb]; equality_facts; try absurd_equality;
    (split; [split; [try discriminate; intros _; split; assumption
                    |intros [H1 H2]; try reflexivity; contradiction]|]);
    try reflexivity.
  all: field; split; assumption.
Qed.

End SlopeFacts.

Section TextFacts.

Import WordTools.

Lemma append_assoc (a b c : string) :
  String.append (String.append a b) c = String.append a (String.append b c).
Proof.
  induction a as [|ch a IH]; cbn [String.append]; [reflexivity|].
  rewrite IH. reflexivity.
Qed.

Lemma append_empty_r (a : string) : String.append a String.EmptyString = a.
Proof.
  induction a as [|ch a IH]; cbn [String.append]; [reflexivity|].
  rewrite IH. reflexivity.
Qed.

Lemma grouped_text_joined {A} `{Element A} (self : GroupedElement A) :
  text self =
  joined (map (fun child => String.append (text child) (break_text child))
              (children self)).
Proof.
  cbn [text GroupedElement_Element]. unfold grouped_text.
  assert (G : forall (l : list A) (acc : string),
             fold_left (fun acc child =>
                          String.append acc
                            (String.append (text child) (break_text child)))
                       l acc =
             String.append acc
               (joined (map (fun child =>
                               String.append (text child) (break_text child))
                            l))).
  { induction l as [|c l IH]; intros acc; cbn [fold_left map joined fold_right].
    - rewrite append_empty_r. reflexivity.
    - rewrite IH, append_assoc. reflexivity. }
  rewrite G. reflexivity.
Qed.

(** X18: the text of a group is made of its words alone: the text of
    each word followed by its break text, line by line in order, with a
    newline after every line.  The cached bounds play no part, and a
    word added to a line comes last in its text. *)
Theorem group_text_by_words (g : LineGroup) (line : Line) (w : Word) :
  text g =
    joined (map (fun ws =>
                   String.append (joined (map word_piece ws))
                                 (String.String "010"%char String.EmptyString))
                (content g)) /\
  text (add line w) = String.append (text line) (word_piece w).
Proof.
  split.
  - rewrite grouped_text_joined. unfold content. rewrite map_map.
    f_equal. apply map_ext. intros l. rewrite grouped_text_joined.
    reflexivity.
  - rewrite !grouped_text_joined. cbn [add children reset_bounds].
    rewrite map_app. cbn [map]. unfold joined. rewrite fold_right_app.
    cbn [fold_right]. rewrite append_empty_r.
    induction (children line) as [|c l IH]; cbn [map fold_right].
    + reflexivity.
    + rewrite IH, !append_assoc. reflexivity.
Qed.

End TextFacts.

Section GroupingCaches.

Import WordTools.

Lemma caches_current_last (groups : list LineGroup) (g : LineGroup) :
  caches_current (groups ++ [g]) <->
  caches_current groups /\
  (coherent_group g /\ Forall coherent_line (children g)).
Proof. unfold caches_current. rewrite Forall_app_last. reflexivity. Qed.

Lemma sound_coherent (ls : list Line) :
  Forall sound_line ls -> Forall coherent_line ls.
Proof. apply Forall_impl. intros l [_ H]. exact H. Qed.

Lemma uncached_coherent (g : LineGroup) :
  _bounds g = None -> coherent_group g.
Proof. intros H b E. rewrite H in E. discriminate E. Qed.

Lemma after_step_caches (groups : list LineGroup) (group : LineGroup)
      (lines : list Line) (last_line : Line) (word : Word)
      (in_line in_group : bool) :
  _bounds group = None ->
  Forall sound_line (lines ++ [last_line]) ->
  caches_current groups ->
  caches_current
    (after_step in_line in_group groups group lines last_line word).
Proof.
  intros Hc Hs Hgroups.
  destruct (@group1_facts group lines last_line Hc Hs)
    as (Hc1 & Hne1 & Hs1 & _).
  set (group1 := set_children group (lines ++ [filled last_line])) in *.
  destruct (filled_group_content group1 Hc1 Hne1 Hs1) as [Hfc Hfch].
  destruct (group_filled group1 Hc1 Hne1 Hs1) as (b & _ & _ & Hm & Hf).
  destruct (fresh_word_line word) as [Hws _].
  pose proof Hs as Hs0. apply Forall_app_last in Hs0.
  destruct Hs0 as [Hlines Hlast].
  unfold after_step. fold group1.
  destruct in_line; [|destruct in_group].
  - apply caches_current_last. split; [exact Hgroups|]. split.
    + apply uncached_coherent. exact Hc.
    + cbn [set_children children]. apply Forall_app_last.
      split; [apply sound_coherent; exact Hlines|].
      intros b' E. discriminate E.
  - apply caches_current_last. split; [exact Hgroups|]. split.
    + apply uncached_coherent. reflexivity.
    + cbn [add reset_bounds children]. apply sound_coherent.
      apply Forall_app_last. split; [|exact Hws].
      rewrite Hfch. apply map_filled_sound. exact Hs1.
  - replace (groups ++ [filled group1;
                        add new_LineGroup (filled (fresh_line [word]))])
      with ((groups ++ [filled group1]) ++
            [add new_LineGroup (filled (fresh_line [word]))])
      by (rewrite <- app_assoc; reflexivity).
    apply caches_current_last. split.
    + apply caches_current_last. split; [exact Hgroups|]. split.
      * intros b' E. rewrite Hfc. rewrite Hf in E. cbn [_bounds] in E.
        injection E as <-. exact Hm.
      * rewrite Hfch. apply sound_coherent. apply map_filled_sound.
        exact Hs1.
    + split; [apply uncached_coherent; reflexivity|].
      cbn [add reset_bounds children new_LineGroup new_grouped app].
      apply sound_coherent. constructor; [exact Hws|constructor].
Qed.

Lemma group_step_caches (th : Thresholds) (line_groups : list LineGroup)
      (word : Word) (line_groups' : list LineGroup) :
  loop_invariant line_groups -> caches_current line_groups ->
  group_step th line_groups word = Ok line_groups' ->
  caches_current line_groups'.
Proof.
  intros (groups & group & -> & Hc & Hne & Hs) Hcur Hstep.
  apply caches_current_last in Hcur. destruct Hcur as [Hgroups _].
  destruct (exists_last Hne) as (lines & last_line & Hch).
  rewrite Hch in Hs. pose proof Hs as Hs0. apply Forall_app_last in Hs0.
  destruct Hs0 as [_ Hlast].
  destruct (line_measure factors_center Hlast) as (lc & Hlc & _).
  destruct (line_measure factors_height Hlast) as (lh & Hlh & _).
  destruct (line_measure factors_max_x Hlast) as (lx & Hlx & _).
  destruct (word_measure word factors_center) as (wc & Hwc).
  destruct (word_measure word factors_height) as (wh & Hwh).
  destruct (word_measure word factors_min_x) as (wx & Hwx).
  assert (Hw : sound_line (fresh_line [word]))
    by (apply fresh_line_sound; discriminate).
  destruct (line_measure factors_min_y Hw) as (ny & Hny & _).
  assert (Hs' : Forall sound_line (children group)) by (rewrite Hch; exact Hs).
  destruct (group_measure group factors_max_y Hc Hne Hs') as (gy & Hgy).
  rewrite (@group_step_run th groups group lines last_line word lc wc
             wh lh wx lx ny gy Hch Hc Hs Hlc Hwc Hwh Hlh Hwx Hlx Hny Hgy)
    in Hstep.
  destruct (slope lc wc) as [s|e]; [|discriminate Hstep].
  injection Hstep as <-.
  apply after_step_caches; assumption.
Qed.

Lemma group_loop_caches (th : Thresholds) (words : list Word)
      (line_groups line_groups' : list LineGroup) :
  loop_invariant line_groups -> caches_current line_groups ->
  group_loop th words line_groups = Ok line_groups' ->
  caches_current line_groups'.
Proof.
  revert line_groups. induction words as [|word words IH];
    intros line_groups Hinv Hcur; cbn [group_loop].
  - intros H; injection H as <-. exact Hcur.
  - destruct (group_step th line_groups word) as [lg|e] eqn:Hstep;
      cbn [bind]; [|discriminate].
    destruct (group_step_words th word Hinv Hstep) as (Hinv1 & _).
    apply (IH lg Hinv1).
    apply (@group_step_caches th line_groups word lg); assumption.
Qed.

(** X19: no cache goes stale in the grouping loop.  Started on the state
    the constructor leaves, whenever the loop returns, every bounds
    value a line or a group has cached is the one its present words
    give: [add] resets the cache of the element it extends, and a group
    whose line was extended had nothing cached. *)
Theorem group_loop_keeps_caches_current
        (th : Thresholds) (first : Word) (words : list Word)
        (line_groups : list LineGroup) :
  group_loop th words (first_state first) = Ok line_groups ->
  caches_current line_groups.
Proof.
  destruct (first_state_facts first) as (Hinv & _ & _).
  apply group_loop_caches; [exact Hinv|].
  constructor; [|constructor]. split.
  - apply uncached_coherent. reflexivity.
  - constructor; [|constructor]. intros b E. discriminate E.
Qed.

(** The theorem on a word and one far below it: the loop leaves two
    groups, the first with its bounds cached. *)
Lemma group_loop_keeps_caches_current_witness :
  exists g1 g2 : LineGroup,
    group_loop DEFAULT_PROXIMITY_THRESHOLDS [w_far] (first_state w_intro) =
      Ok [g1; g2] /\
    _bounds g1 <> None /\ caches_current [g1; g2].
Proof.
  do 2 eexists. split; [vm_compute; reflexivity|].
  split; [discriminate|].
  apply (@group_loop_keeps_caches_current DEFAULT_PROXIMITY_THRESHOLDS w_intro
           [w_far]).
  vm_compute. reflexivity.
Defined.

End GroupingCaches.

Section ElementSlope.

Import WordTools.

Lemma quotient_nonneg (n d : Q) :
  (0 <= n)%Q -> (0 <= d)%Q -> ~ (d == 0)%Q -> (0 <= n / d)%Q.
Proof.
  intros Hn Hd Hz. apply Qle_shift_div_l; [|lra].
  destruct (Qlt_le_dec 0 d) as [H|H]; [exact H|].
  exfalso. apply Hz. lra.
Qed.

(** X20: the [slope] property of a word is never negative, whichever way
    the box leans, because it is computed on the sorted y coordinates;
    it divides by zero exactly when the width read is zero. *)
Theorem element_slope_never_negative (w : Word) :
  exists wd : Q,
    measure width w = Ok wd /\
    match measure element_slope w with
    | Ok s => ~ (wd == 0)%Q /\ (0 <= s)%Q
    | Raise e => e = ZeroDivisionError /\ (wd == 0)%Q
    end.
Proof.
  destruct (word_coordinates AxisX w) as (a & b & c & d & Hx & Hab & Hbc & Hcd).
  destruct (word_coordinates AxisY w)
    as (a' & b' & c' & d' & Hy & Hab' & Hbc' & Hcd').
  eexists. split.
  - unfold measure, width, max_x, min_x, x_coordinates.
    repeat (rewrite ?Hx; cbn [bind fmap fst]). reflexivity.
  - unfold measure, element_slope, width, max_x, min_x, x_coordinates,
      y_coordinates.
    repeat (rewrite ?Hx, ?Hy; cbn [bind fmap fst]).
    cbn [firstn skipn item nth_error bind]. unfold div.
    destruct (Qeq_bool _ 0) eqn:E.
    + cbn [bind]. split; [reflexivity|]. apply Qeq_bool_iff. exact E.
    + cbn [bind fst]. apply Qeq_bool_neq in E. split; [exact E|].
      cbn [fst].
      match goal with
      | |- (0 <= (?n1 / ?dd + ?n2 / ?dd) / 2)%Q =>
          assert (H1 : (0 <= n1 / dd)%Q)
            by (apply quotient_nonneg; [lra|apply Qabs_nonneg|exact E]);
          assert (H2 : (0 <= n2 / dd)%Q)
            by (apply quotient_nonneg; [lra|apply Qabs_nonneg|exact E]);
          generalize dependent (n1 / dd)%Q;
          generalize dependent (n2 / dd)%Q
      end.
      intros q2 H2 q1 H1. unfold Qdiv. change (/ 2)%Q with (1 # 2)%Q. lra.
Qed.

End ElementSlope.
